(** * Ankivert: the Q::/A:: card scanner and the AnkiConnect sync client

    A shallow embedding of [main.py].  Python [str] values are sequences of
    Unicode code points, [bytes] values are sequences of octets, [int] is
    unbounded.  Remote calls go through an explicit world (server state,
    exchanges with the server, printed lines); exceptions are values of
    [Exn] and nothing catches them.

    The definitions come first: the library functions the program calls
    ([str] methods, UTF-8, SHA-1), the program itself, the readings of the
    scanner and of the calls that the properties are stated with, a
    reference model of the flashcard application, and sample inputs.
    The properties follow: the scanner refines a reading by question
    blocks; the identifier; the client against any server; a second sync
    against the reference application. *)

From Stdlib Require Import Decimal DecimalN.
From Stdlib Require Import List NArith ZArith Bool Lia String Ascii Sorted.
Import ListNotations.

Local Open Scope N_scope.

(* ===================================================================== *)
(** * Python strings *)
(* ===================================================================== *)

Module Py.

(** A code point; a Python [str] is a list of them. *)
Definition char := N.
Definition str := list char.
Definition bytes := list N.

(** ASCII literal of the source, as a [str]. *)
Definition lit (s : string) : str :=
  List.map N_of_ascii (list_ascii_of_string s).

(** [a == b] on [str] *)
Fixpoint str_eqb (a b : str) : bool :=
  match a, b with
  | [], [] => true
  | x :: a', y :: b' => (x =? y) && str_eqb a' b'
  | _, _ => false
  end.

(** Truthiness of a sequence: [if xs:] *)
Definition truthy {A} (l : list A) : bool :=
  match l with [] => false | _ => true end.

(** [ch.isspace()] for a code point (the whitespace table of CPython). *)
Definition is_space (c : char) : bool :=
  ((9 <=? c) && (c <=? 13)) || ((28 <=? c) && (c <=? 32))
  || (c =? 133) || (c =? 160) || (c =? 5760)
  || ((8192 <=? c) && (c <=? 8202))
  || (c =? 8232) || (c =? 8233) || (c =? 8239) || (c =? 8287)
  || (c =? 12288).

(** Line boundaries of [str.splitlines]: LF VT FF CR FS GS RS NEL LS PS. *)
Definition is_linebreak (c : char) : bool :=
  ((10 <=? c) && (c <=? 13)) || ((28 <=? c) && (c <=? 30))
  || (c =? 133) || (c =? 8232) || (c =? 8233).

(** [s.splitlines()]: the current line is accumulated in reverse; CR LF is
    one boundary; a final boundary opens no empty last line. *)
Fixpoint splitlines_from (cur : str) (s : str) : list str :=
  match s with
  | [] => match cur with [] => [] | _ => [rev cur] end
  | c :: t =>
      if is_linebreak c then
        rev cur ::
          (if c =? 13 then
             match t with
             | c2 :: t' => if c2 =? 10 then splitlines_from [] t'
                           else splitlines_from [] t
             | [] => splitlines_from [] t
             end
           else splitlines_from [] t)
      else splitlines_from (c :: cur) t
  end.

Definition splitlines (s : str) : list str := splitlines_from [] s.

Fixpoint dropwhile (p : char -> bool) (s : str) : str :=
  match s with
  | [] => []
  | c :: t => if p c then dropwhile p t else s
  end.

(** [s.lstrip()], [s.rstrip()], [s.strip()] *)
Definition lstrip (s : str) : str := dropwhile is_space s.
Definition rstrip (s : str) : str := rev (dropwhile is_space (rev s)).
Definition strip (s : str) : str := lstrip (rstrip s).

(** [s.rstrip(chars)] *)
Definition rstrip_chars (chars : str) (s : str) : str :=
  rev (dropwhile (fun c => existsb (N.eqb c) chars) (rev s)).

(** [s.startswith(p)] *)
Fixpoint startswith (s p : str) {struct p} : bool :=
  match p, s with
  | [], _ => true
  | _ :: _, [] => false
  | a :: p', b :: s' => (a =? b) && startswith s' p'
  end.

(** [sep.join(parts)] *)
Fixpoint join (sep : str) (parts : list str) : str :=
  match parts with
  | [] => []
  | [x] => x
  | x :: rest => x ++ sep ++ join sep rest
  end.

(** Decimal rendering of a non-negative [int] inside an f-string. *)
Fixpoint uint_chars (d : Decimal.uint) : str :=
  match d with
  | Nil => []
  | D0 d => 48 :: uint_chars d
  | D1 d => 49 :: uint_chars d
  | D2 d => 50 :: uint_chars d
  | D3 d => 51 :: uint_chars d
  | D4 d => 52 :: uint_chars d
  | D5 d => 53 :: uint_chars d
  | D6 d => 54 :: uint_chars d
  | D7 d => 55 :: uint_chars d
  | D8 d => 56 :: uint_chars d
  | D9 d => 57 :: uint_chars d
  end.

Definition str_of_int (n : N) : str := uint_chars (N.to_uint n).

(** UTF-8 encoding of one code point; surrogates (and anything beyond
    U+10FFFF) cannot be encoded: [UnicodeEncodeError]. *)
Definition utf8_char (c : char) : option bytes :=
  if c <? 0x80 then Some [c]
  else if c <? 0x800 then
    Some [N.lor 0xC0 (N.shiftr c 6); N.lor 0x80 (N.land c 0x3F)]
  else if c <? 0x10000 then
    if (0xD800 <=? c) && (c <=? 0xDFFF) then None
    else Some [N.lor 0xE0 (N.shiftr c 12);
               N.lor 0x80 (N.land (N.shiftr c 6) 0x3F);
               N.lor 0x80 (N.land c 0x3F)]
  else if c <? 0x110000 then
    Some [N.lor 0xF0 (N.shiftr c 18);
          N.lor 0x80 (N.land (N.shiftr c 12) 0x3F);
          N.lor 0x80 (N.land (N.shiftr c 6) 0x3F);
          N.lor 0x80 (N.land c 0x3F)]
  else None.

(** [s.encode("utf-8")] *)
Fixpoint utf8_encode (s : str) : option bytes :=
  match s with
  | [] => Some []
  | c :: t =>
      match utf8_char c, utf8_encode t with
      | Some b, Some bs => Some (b ++ bs)
      | _, _ => None
      end
  end.

(** Lexicographic order on code points, the order of [sorted] on [str]. *)
Fixpoint str_leb (a b : str) : bool :=
  match a, b with
  | [], _ => true
  | _ :: _, [] => false
  | x :: a', y :: b' => (x <? y) || ((x =? y) && str_leb a' b')
  end.

(** [sorted(set(xs))]: insertion into a sorted list without repeats. *)
Fixpoint insert_sorted (x : str) (l : list str) : list str :=
  match l with
  | [] => [x]
  | y :: t =>
      if str_eqb x y then l
      else if str_leb x y then x :: l
      else y :: insert_sorted x t
  end.

Definition sorted_set (xs : list str) : list str :=
  fold_right insert_sorted [] xs.

End Py.

(* ===================================================================== *)
(** * hashlib.sha1 (FIPS 180-4), on octets *)
(* ===================================================================== *)

Module Sha1.

Definition mask32 : N := 0xFFFFFFFF.
Definition w32 (x : N) : N := N.land x mask32.
Definition add32 (a b : N) : N := w32 (a + b).
Definition not32 (x : N) : N := N.lxor (w32 x) mask32.
Definition rotl (n x : N) : N :=
  w32 (N.lor (N.shiftl x n) (N.shiftr x (32 - n))).

(** Message padding: 0x80, zeros up to 56 mod 64, then the bit length as
    a 64-bit big-endian integer. *)
Definition be_bytes (k : nat) (x : N) : list N :=
  List.map (fun i => N.land (N.shiftr x (8 * N.of_nat i)) 0xFF) (rev (seq 0 k)).

Definition pad (msg : list N) : list N :=
  let len := N.of_nat (List.length msg) in
  let zeros := N.to_nat ((119 - len mod 64) mod 64) in
  msg ++ [0x80] ++ repeat 0 zeros ++ be_bytes 8 (8 * len).

Fixpoint be_words (fuel : nat) (bs : list N) : list N :=
  match fuel, bs with
  | S f, b0 :: b1 :: b2 :: b3 :: t =>
      (N.lor (N.shiftl b0 24) (N.lor (N.shiftl b1 16) (N.lor (N.shiftl b2 8) b3)))
        :: be_words f t
  | _, _ => []
  end.

(** Message schedule, most recent word first. *)
Fixpoint extend (k : nat) (w : list N) : list N :=
  match k with
  | O => w
  | S k' =>
      let x := N.lxor (nth 2 w 0) (N.lxor (nth 7 w 0) (N.lxor (nth 13 w 0) (nth 15 w 0))) in
      extend k' (rotl 1 x :: w)
  end.

Definition schedule (block : list N) : list N :=
  rev (extend 64 (rev (be_words 16 block))).

Record hstate := H5 { h0 : N; h1 : N; h2 : N; h3 : N; h4 : N }.

Definition init : hstate :=
  H5 0x67452301 0xEFCDAB89 0x98BADCFE 0x10325476 0xC3D2E1F0.

Definition round (st : hstate) (tw : nat * N) : hstate :=
  let '(t, w) := tw in
  let '(H5 a b c d e) := st in
  let '(f, k) :=
    if (t <? 20)%nat then (N.lor (N.land b c) (N.land (not32 b) d), 0x5A827999)
    else if (t <? 40)%nat then (N.lxor b (N.lxor c d), 0x6ED9EBA1)
    else if (t <? 60)%nat then
      (N.lor (N.land b c) (N.lor (N.land b d) (N.land c d)), 0x8F1BBCDC)
    else (N.lxor b (N.lxor c d), 0xCA62C1D6) in
  let temp := add32 (add32 (add32 (add32 (rotl 5 a) f) e) k) w in
  H5 temp a (rotl 30 b) c d.

Definition compress (h : hstate) (block : list N) : hstate :=
  let w := schedule block in
  let r := fold_left round (combine (seq 0 80) w) h in
  H5 (add32 (h0 h) (h0 r)) (add32 (h1 h) (h1 r)) (add32 (h2 h) (h2 r))
     (add32 (h3 h) (h3 r)) (add32 (h4 h) (h4 r)).

Fixpoint blocks (fuel : nat) (h : hstate) (bs : list N) : hstate :=
  match fuel, bs with
  | S f, _ :: _ => blocks f (compress h (firstn 64 bs)) (skipn 64 bs)
  | _, _ => h
  end.

Definition digest_state (msg : list N) : hstate :=
  let p := pad msg in blocks (List.length p) init p.

Definition hex_digit (x : N) : N :=
  if x <? 10 then 48 + x else 87 + x.

Definition hex_word (x : N) : Py.str :=
  List.map (fun i => hex_digit (N.land (N.shiftr x (4 * N.of_nat i)) 0xF))
           (rev (seq 0 8)).

(** [hashlib.sha1(data).hexdigest()] *)
Definition hexdigest (msg : Py.bytes) : Py.str :=
  let h := digest_state msg in
  hex_word (h0 h) ++ hex_word (h1 h) ++ hex_word (h2 h)
    ++ hex_word (h3 h) ++ hex_word (h4 h).

End Sha1.

Import Py.

(* ===================================================================== *)
(** * Exceptions, JSON values, paths *)
(* ===================================================================== *)

#[local] Set Warnings "-register-all".

(** JSON values as [requests] and [json] hand them to the program
    (numbers are the integers of the interface). *)
Inductive json :=
| JNull
| JBool (b : bool)
| JNum (z : Z)
| JStr (s : str)
| JArr (items : list json)
| JObj (fields : list (str * json)).

(** Exceptions the program can raise; none is caught anywhere in it. *)
Inductive Exn :=
| ValueError              (* relative_to outside the root, int() of a bad str *)
| UnicodeEncodeError      (* .encode("utf-8") of a lone surrogate *)
| ConnectionError         (* requests.post got no response (refused, timeout) *)
| HTTPError (status : Z)  (* r.raise_for_status() *)
| JSONDecodeError         (* r.json() on a body that is not JSON *)
| AttributeError          (* data.get on a value that is not a dict *)
| TypeError
| KeyError
| IndexError
| RuntimeError (action : str) (error : json).

Inductive result (A : Type) :=
| Ok (a : A)
| Raise (e : Exn).
Arguments Ok {A} a.
Arguments Raise {A} e.

Definition bind_result {A B} (c : result A) (k : A -> result B) : result B :=
  match c with
  | Ok a => k a
  | Raise e => Raise e
  end.

Notation "'let?' x ':=' c 'in' k" := (bind_result c (fun x => k))
  (at level 10, x name, c at level 100, k at level 200).

(** Truthiness of a decoded JSON value ([if v:]). *)
Definition json_truthy (v : json) : bool :=
  match v with
  | JNull => false
  | JBool b => b
  | JNum z => negb (z =? 0)%Z
  | JStr s => truthy s
  | JArr l => truthy l
  | JObj f => truthy f
  end.

(** [d.get(key)] on a decoded object: the last binding of the key wins,
    a missing key gives [None]. *)
Fixpoint dict_get (fields : list (str * json)) (key : str) : json :=
  match fields with
  | [] => JNull
  | (k, v) :: rest =>
      if str_eqb k key && negb (existsb (fun kv => str_eqb (fst kv) key) rest)
      then v else dict_get rest key
  end.

(** A [pathlib] path: whether it starts at the root [/], and the names
    that follow. [Path("/vault/a.md")] is anchored with the names [vault]
    and [a.md]; [Path("/")] is anchored without a name; [Path(".")] is
    not anchored and has no name. *)
Record Path := mkPath { anchored : bool; names : list str }.

(** [p / n1 / ... / nk] for names [n1 ... nk] *)
Definition joinpath (p : Path) (more : list str) : Path :=
  mkPath (anchored p) (names p ++ more).

(** The names of [p] that follow the names [root]. *)
Fixpoint names_below (p root : list str) : result (list str) :=
  match root, p with
  | [], _ => Ok p
  | r :: root', c :: p' =>
      if str_eqb r c then names_below p' root' else Raise ValueError
  | _ :: _, [] => Raise ValueError
  end.

(** [p.relative_to(root)], a relative path, as its names: [ValueError]
    unless both paths are anchored alike and the names of [root] begin
    those of [p]. *)
Definition relative_to (p root : Path) : result (list str) :=
  if Bool.eqb (anchored p) (anchored root)
  then names_below (names p) (names root)
  else Raise ValueError.

(** [relp.as_posix()] of the relative path with the names [relp] *)
Definition as_posix (relp : list str) : str :=
  match relp with
  | [] => lit "."
  | _ => join (lit "/") relp
  end.

(** [p.name]: the last name, the empty string when there is none *)
Definition path_name (p : Path) : str := last (names p) [].

Definition encode (s : str) : result bytes :=
  match utf8_encode s with
  | Some b => Ok b
  | None => Raise UnicodeEncodeError
  end.

(* ===================================================================== *)
(** * Cards and the stable identifier *)
(* ===================================================================== *)

Record Card := mkCard {
  deck : str;
  front : str;
  back : str;
  tags : list str;
  stable_tag : str
}.

Definition stable_id_tag (vault_root md_path : Path) (question : str)
    (ordinal : N) : result str :=
  let? relp := relative_to md_path vault_root in
  let rel := as_posix relp in
  let? raw := encode (rel ++ lit "||" ++ str_of_int ordinal ++ lit "||" ++ question) in
  let digest := Sha1.hexdigest raw in
  Ok (lit "ankivert_id_" ++ firstn 12 digest).

(* ===================================================================== *)
(** * The markup scanner *)
(* ===================================================================== *)

(** The loop variables of [extract_cards_from_markdown]. *)
Record ScanState := mkScan {
  cards : list Card;
  q : option str;
  a_lines : list str;
  in_answer : bool;
  ordinal : N
}.

Definition scan_init : ScanState := mkScan [] None [] false 0.

Definition is_some {A} (o : option A) : bool :=
  match o with Some _ => true | None => false end.

Section Scanner.

Variables (vault_root md_path : Path) (deck_name : str) (base_tags : list str).

(** [if q is not None and a_lines: ... cards.append(Card(...))]: the same
    statement flushes the previous card at a question marker and the last
    card at the end of the input. *)
Definition flush (st : ScanState) : result (list Card) :=
  match q st with
  | Some qq =>
      if truthy (a_lines st) then
        let? tag := stable_id_tag vault_root md_path qq (ordinal st) in
        Ok (cards st ++
            [mkCard deck_name qq (strip (join [10] (a_lines st)))
                    (base_tags ++ [tag]) tag])
      else Ok (cards st)
  | None => Ok (cards st)
  end.

(** One iteration of [for raw in text.splitlines()]. *)
Definition scan_step (st : ScanState) (raw : str) : result ScanState :=
  let line := rstrip_chars [10] raw in
  if startswith line (lit "Q::") then
    let? cs := flush st in
    Ok (mkScan cs (Some (strip (skipn 3 line))) [] false (ordinal st + 1))
  else if startswith line (lit "A::") && is_some (q st) then
    let rest := lstrip (skipn 3 line) in
    Ok (mkScan (cards st) (q st)
               (if truthy rest then a_lines st ++ [rest] else a_lines st)
               true (ordinal st))
  else if in_answer st && is_some (q st) then
    Ok (mkScan (cards st) (q st) (a_lines st ++ [line]) (in_answer st)
               (ordinal st))
  else Ok st.

Fixpoint scan_lines (st : ScanState) (lines : list str) : result ScanState :=
  match lines with
  | [] => Ok st
  | raw :: rest => let? st' := scan_step st raw in scan_lines st' rest
  end.

(** The scanner on the lines of a file, and on its text as read by
    [md_path.read_text(encoding="utf-8", errors="replace")]. *)
Definition extract_cards_from_lines (lines : list str) : result (list Card) :=
  let? st := scan_lines scan_init lines in flush st.

Definition extract_cards_from_markdown (text : str) : result (list Card) :=
  extract_cards_from_lines (splitlines text).

End Scanner.

(* ===================================================================== *)
(** * The world the client runs in *)
(* ===================================================================== *)

(** What [requests.post(ANKI_URL, json=payload, timeout=10)] comes back
    with: no response at all, or a status code and a body that [r.json()]
    can decode or not. *)
Inductive HttpOutcome :=
| NoResponse
| Response (status_code : Z) (body : option json).

(** The environment of a run: the application listening at [ANKI_URL],
    as a state machine answering each posted payload, and the builtin
    [int] on a [str]. *)
Class Environment := {
  rstate : Type;
  post : json -> rstate -> HttpOutcome * rstate;
  int_of_str : str -> result Z
}.

(** Lines the program prints, with the values they interpolate. *)
Inductive Out :=
| ErrVaultNotFound (vault : Path)
| WarnMissingClassDir (cls : str)
| ScanHeader (deck_name rel : str) (count : nat)
| ScanCard (front70 tag : str)
| TotalCards (count : nat)
| DryRunAdd (deck_name tag front60 : str)
| DryRunUpdate (note_id : Z) (tag : str)
| Added (res : json) (deck_name tag : str)
| Updated (note_id : Z) (deck_name tag : str).

Record World `{Environment} := mkWorld {
  server : rstate;
  sent : list (json * HttpOutcome);  (* payloads posted so far with what came
                                        back, oldest first *)
  printed : list Out     (* lines printed so far, oldest first *)
}.
Arguments mkWorld {_} _ _ _.

(** Computations that post, print and may raise; the world is kept when
    an exception passes through. *)
Definition M `{Environment} (A : Type) : Type := World -> result A * World.

Definition ret `{Environment} {A} (a : A) : M A := fun w => (Ok a, w).

Definition raise `{Environment} {A} (e : Exn) : M A := fun w => (Raise e, w).

Definition bind `{Environment} {A B} (c : M A) (k : A -> M B) : M B :=
  fun w =>
    match c w with
    | (Ok a, w') => k a w'
    | (Raise e, w') => (Raise e, w')
    end.

Notation "x <- c ;; k" := (bind c (fun x => k))
  (at level 100, c at next level, right associativity).
Notation "c ;;; k" := (bind c (fun _ => k))
  (at level 100, right associativity).

Definition lift `{Environment} {A} (r : result A) : M A := fun w => (r, w).

Definition print `{Environment} (o : Out) : M unit :=
  fun w => (Ok tt, mkWorld (server w) (sent w) (printed w ++ [o])).

Definition do_post `{Environment} (payload : json) : M HttpOutcome :=
  fun w =>
    let '(r, s') := post payload (server w) in
    (Ok r, mkWorld s' (sent w ++ [(payload, r)]) (printed w)).

(** [for x in xs: body(x)] *)
Fixpoint for_each `{Environment} {A} (xs : list A) (body : A -> M unit) : M unit :=
  match xs with
  | [] => ret tt
  | x :: rest => body x ;;; for_each rest body
  end.

(* ===================================================================== *)
(** * The synchronization client *)
(* ===================================================================== *)

Definition ANKI_CONNECT_VERSION : Z := 6.

(** [r.raise_for_status()] raises for the client and server error
    classes, 400 to 599. *)
Definition raise_for_status (status_code : Z) : bool :=
  ((400 <=? status_code) && (status_code <? 600))%Z.

(** The [payload] dict of [ankiconnect]. *)
Definition request_payload (action : str) (params : option json) : json :=
  JObj [(lit "action", JStr action);
        (lit "version", JNum ANKI_CONNECT_VERSION);
        (lit "params",
          match params with
          | Some p => if json_truthy p then p else JObj []
          | None => JObj []
          end)].

Definition ankiconnect `{Environment} (action : str) (params : option json) : M json :=
  let payload := request_payload action params in
  r <- do_post payload ;;
  match r with
  | NoResponse => raise ConnectionError
  | Response status_code body =>
      if raise_for_status status_code then raise (HTTPError status_code)
      else
        match body with
        | None => raise JSONDecodeError
        | Some (JObj data) =>
            if json_truthy (dict_get data (lit "error"))
            then raise (RuntimeError action (dict_get data (lit "error")))
            else ret (dict_get data (lit "result"))
        | Some _ => raise AttributeError
        end
  end.

Definition ensure_deck `{Environment} (deck_name : str) : M unit :=
  ankiconnect (lit "createDeck") (Some (JObj [(lit "deck", JStr deck_name)])) ;;;
  ret tt.

(** The [params] dicts of the note calls. *)
Definition find_params (tag : str) : json :=
  JObj [(lit "query", JStr (lit "tag:" ++ tag))].

Definition note_fields (front_text back_text : str) : json :=
  JObj [(lit "Front", JStr front_text); (lit "Back", JStr back_text)].

Definition add_params (deck_name front_text back_text : str) (labels : list str) : json :=
  JObj [(lit "note",
    JObj [(lit "deckName", JStr deck_name);
          (lit "modelName", JStr (lit "Basic"));
          (lit "fields", note_fields front_text back_text);
          (lit "tags", JArr (List.map JStr labels))])].

Definition update_params (id : Z) (front_text back_text : str) : json :=
  JObj [(lit "note", JObj [(lit "id", JNum id);
                           (lit "fields", note_fields front_text back_text)])].

Definition add_tags_params (id : Z) (labels : str) : json :=
  JObj [(lit "notes", JArr [JNum id]); (lit "tags", JStr labels)].

(** [x[0]] *)
Definition subscript0 (v : json) : result json :=
  match v with
  | JArr (x :: _) => Ok x
  | JArr [] => Raise IndexError
  | JStr (c :: _) => Ok (JStr [c])
  | JStr [] => Raise IndexError
  | JObj _ => Raise KeyError
  | _ => Raise TypeError
  end.

(** [int(x)] *)
Definition py_int `{Environment} (v : json) : result Z :=
  match v with
  | JNum z => Ok z
  | JBool b => Ok (if b then 1 else 0)%Z
  | JStr s => int_of_str s
  | _ => Raise TypeError
  end.

Definition find_note_id_by_tag `{Environment} (tag : str) : M (option Z) :=
  r <- ankiconnect (lit "findNotes") (Some (find_params tag)) ;;
  let note_ids := if json_truthy r then r else JArr [] in
  if negb (json_truthy note_ids) then ret None
  else
    x <- lift (subscript0 note_ids) ;;
    z <- lift (py_int x) ;;
    ret (Some z).

Definition add_or_update_basic_note `{Environment} (card : Card) (dry_run : bool)
    : M unit :=
  existing_id <- (if dry_run then ret None else find_note_id_by_tag (stable_tag card)) ;;
  match existing_id with
  | None =>
      if dry_run then
        print (DryRunAdd (deck card) (stable_tag card) (firstn 60 (front card)))
      else
        res <- ankiconnect (lit "addNote")
                 (Some (add_params (deck card) (front card) (back card) (tags card))) ;;
        print (Added res (deck card) (stable_tag card))
  | Some id =>
      if dry_run then print (DryRunUpdate id (stable_tag card))
      else
        ankiconnect (lit "updateNoteFields")
          (Some (update_params id (front card) (back card))) ;;;
        ankiconnect (lit "addTags")
          (Some (add_tags_params id (join (lit " ") (tags card)))) ;;;
        print (Updated id (deck card) (stable_tag card))
  end.

Definition build_deck_name (vault : Path) (class_name : str) : str :=
  path_name vault ++ lit "::" ++ class_name.

(** A Markdown file found under a class directory, with its text. *)
Record MdFile := mkMd { md_file_path : Path; md_text : str }.

(** The part of the file system [main] looks at: whether the vault exists
    and, for a class name, the [*.md] files under [vault / cls] in sorted
    order ([None] when that directory is missing). *)
Record Vault := mkVault {
  vault_path : Path;
  vault_exists : bool;
  class_dir : str -> option (list MdFile)
}.

Inductive Command := scan | sync.

(** The body of [for cls, md_path in iter_md_files(...)] for one file. *)
Definition collect_file `{Environment} (command : Command) (v : Vault) (cls : str)
    (f : MdFile) : M (list Card) :=
  let vault := vault_path v in
  let deck_name := build_deck_name vault cls in
  let base_tags := [cls; path_name vault] in
  cs <- lift (extract_cards_from_markdown vault (md_file_path f) deck_name
                base_tags (md_text f)) ;;
  (match command, cs with
   | scan, _ :: _ =>
       relp <- lift (relative_to (md_file_path f) vault) ;;
       print (ScanHeader deck_name (as_posix relp) (List.length cs)) ;;;
       for_each cs (fun c => print (ScanCard (firstn 70 (front c)) (stable_tag c)))
   | _, _ => ret tt
   end) ;;;
  ret cs.

Fixpoint collect_files `{Environment} (command : Command) (v : Vault) (cls : str)
    (files : list MdFile) : M (list Card) :=
  match files with
  | [] => ret []
  | f :: rest =>
      cs <- collect_file command v cls f ;;
      more <- collect_files command v cls rest ;;
      ret (cs ++ more)
  end.

(** [iter_md_files] driven by the collecting loop of [main]. *)
Fixpoint collect_classes `{Environment} (command : Command) (v : Vault)
    (class_names : list str) : M (list Card) :=
  match class_names with
  | [] => ret []
  | cls :: rest =>
      cs <- match class_dir v cls with
            | None => print (WarnMissingClassDir cls) ;;; ret []
            | Some files => collect_files command v cls files
            end ;;
      more <- collect_classes command v rest ;;
      ret (cs ++ more)
  end.

(** The [# sync] part of [main]: decks first, then the notes. *)
Definition sync_cards `{Environment} (all_cards : list Card) (dry_run : bool) : M unit :=
  let decks := sorted_set (List.map deck all_cards) in
  (if negb dry_run then for_each decks ensure_deck else ret tt) ;;;
  for_each all_cards (fun c => add_or_update_basic_note c dry_run).

(** [main] after argument parsing; the result is the exit status. *)
Definition main `{Environment} (command : Command) (v : Vault)
    (classes : list str) (dry_run : bool) : M Z :=
  if negb (vault_exists v) then
    print (ErrVaultNotFound (vault_path v)) ;;; ret 2%Z
  else
    all_cards <- collect_classes command v classes ;;
    print (TotalCards (List.length all_cards)) ;;;
    match command with
    | scan => ret 0%Z
    | sync => sync_cards all_cards dry_run ;;; ret 0%Z
    end.

(* ===================================================================== *)
(** * The scanner as the specification words it: question blocks *)
(* ===================================================================== *)

(** A line that opens a question, as the loop tests it. *)
Definition is_question_line (raw : str) : bool :=
  startswith (rstrip_chars [10] raw) (lit "Q::").

(** A question block: its question marker line and the lines after it, up
    to the next question marker line or the end of the input. *)
Definition Block : Type := str * list str.

(** Lines before the first question marker, and the blocks after them. *)
Fixpoint split_blocks (lines : list str) : list str * list Block :=
  match lines with
  | [] => ([], [])
  | l :: rest =>
      let '(pre, bs) := split_blocks rest in
      if is_question_line l then ([], (l, pre) :: bs) else (l :: pre, bs)
  end.

(** A line that opens no question; a block as [split_blocks] cuts it. *)
Definition plain_line (l : str) : Prop := is_question_line l = false.

Definition well_formed_block (b : Block) : Prop :=
  is_question_line (fst b) = true /\ Forall plain_line (snd b).

Definition question_blocks (lines : list str) : list Block :=
  snd (split_blocks lines).

Definition flatten_blocks (bs : list Block) : list str :=
  List.concat (List.map (fun b => fst b :: snd b) bs).

(** Question text of a block: what follows the marker, trimmed. *)
Definition question_text (b : Block) : str :=
  strip (skipn 3 (rstrip_chars [10] (fst b))).

(** What one line of a block gives to the answer: an answer-marker line
    gives what follows the marker, left-trimmed, and nothing when that is
    empty; another line gives itself once an answer marker has been seen,
    and nothing before. *)
Fixpoint answer_lines (seen_marker : bool) (body : list str) : list str :=
  match body with
  | [] => []
  | raw :: rest =>
      let line := rstrip_chars [10] raw in
      if startswith line (lit "A::") then
        (if truthy (lstrip (skipn 3 line)) then [lstrip (skipn 3 line)] else [])
          ++ answer_lines true rest
      else if seen_marker then line :: answer_lines true rest
      else answer_lines false rest
  end.

Definition answer_text (b : Block) : str :=
  strip (join [10] (answer_lines false (snd b))).

Definition has_answer (b : Block) : bool :=
  truthy (answer_lines false (snd b)).

(** Blocks numbered from [k] in order of appearance. *)
Fixpoint number_from {A} (k : N) (l : list A) : list (N * A) :=
  match l with
  | [] => []
  | x :: rest => (k, x) :: number_from (k + 1) rest
  end.

Fixpoint map_result {A B} (f : A -> result B) (l : list A) : result (list B) :=
  match l with
  | [] => Ok []
  | x :: rest =>
      let? y := f x in
      let? ys := map_result f rest in
      Ok (y :: ys)
  end.

Section BlockCards.

Variables (vault_root md_path : Path) (deck_name : str) (base_tags : list str).

(** The card of a numbered block. *)
Definition card_of_block (kb : N * Block) : result Card :=
  let? tag := stable_id_tag vault_root md_path (question_text (snd kb)) (fst kb) in
  Ok (mkCard deck_name (question_text (snd kb)) (answer_text (snd kb))
             (base_tags ++ [tag]) tag).

(** The numbered blocks that yield a card. *)
Definition answered_blocks (lines : list str) : list (N * Block) :=
  filter (fun kb => has_answer (snd kb)) (number_from 1 (question_blocks lines)).

Definition cards_of_blocks (lines : list str) : result (list Card) :=
  map_result card_of_block (answered_blocks lines).

End BlockCards.

(** The identifier as the data model words it: a short hex digest of the
    relative path, the position and the question text. *)
Definition identifier (rel : str) (position : N) (question : str) : result str :=
  let? raw := encode (rel ++ lit "||" ++ str_of_int position ++ lit "||" ++ question) in
  Ok (lit "ankivert_id_" ++ firstn 12 (Sha1.hexdigest raw)).


(** The action of a posted payload. *)
Definition action_of (payload : json) : str :=
  match payload with
  | JObj fields =>
      match dict_get fields (lit "action") with
      | JStr a => a
      | _ => []
      end
  | _ => []
  end.

Definition is_action (a : str) (payload : json) : bool :=
  str_eqb (action_of payload) a.

Definition is_ok {A} (r : result A) : bool :=
  match r with Ok _ => true | Raise _ => false end.

(* ===================================================================== *)
(** * Readings of the claims about the scanner *)
(* ===================================================================== *)

(** The answer of a block read literally: what follows the block's answer
    marker, then every later line of the block as it stands. *)
Fixpoint literal_answer_lines (body : list str) : list str :=
  match body with
  | [] => []
  | raw :: rest =>
      if startswith raw (lit "A::") then lstrip (skipn 3 raw) :: rest
      else literal_answer_lines rest
  end.

Definition literal_answer (b : Block) : str :=
  strip (join [10] (literal_answer_lines (snd b))).

(** A line that does not open an answer. *)
Definition no_answer_marker (l : str) : Prop :=
  startswith (rstrip_chars [10] l) (lit "A::") = false.


(** A string that [encode] accepts: no surrogate code point in it. *)
Definition encodable (s : str) : Prop :=
  Forall (fun c => utf8_char c <> None) s.

(** A card that carries its own identifier among its labels. *)
Definition own_label (c : Card) : Prop := In (stable_tag c) (tags c).

(* ===================================================================== *)
(** * Calls, replies and runs *)
(* ===================================================================== *)

(** A reply that [ankiconnect] takes as a failure of the call: no
    response, a status that [raise_for_status] rejects, a body that is not
    a JSON object, or a truthy [error] field. *)
Definition reply_fails (r : HttpOutcome) : bool :=
  match r with
  | NoResponse => true
  | Response status_code body =>
      raise_for_status status_code
      || match body with
         | Some (JObj data) => json_truthy (dict_get data (lit "error"))
         | _ => true
         end
  end.

(** What [ankiconnect] makes of a reply. *)
Definition reply_value (action : str) (r : HttpOutcome) : result json :=
  match r with
  | NoResponse => Raise ConnectionError
  | Response status_code body =>
      if raise_for_status status_code then Raise (HTTPError status_code)
      else
        match body with
        | None => Raise JSONDecodeError
        | Some (JObj data) =>
            if json_truthy (dict_get data (lit "error"))
            then Raise (RuntimeError action (dict_get data (lit "error")))
            else Ok (dict_get data (lit "result"))
        | Some _ => Raise AttributeError
        end
  end.

(** A failure as the error-handling section words it: a status outside
    200..299, or a truthy embedded error field. *)
Definition non_2xx (status_code : Z) : bool :=
  negb ((200 <=? status_code) && (status_code <? 300))%Z.

Definition claimed_failure (r : HttpOutcome) : bool :=
  match r with
  | NoResponse => true
  | Response status_code body =>
      non_2xx status_code
      || match body with
         | Some (JObj data) => json_truthy (dict_get data (lit "error"))
         | _ => true
         end
  end.

(** An exchange whose reply is no failure. *)
Definition good_exchange (x : json * HttpOutcome) : Prop :=
  reply_fails (snd x) = false.

(** Failure stops the run: every exchange but the last got a good reply,
    and the last one too when the run ends without an exception. *)
Definition fail_stop {A} (r : result A) (new : list (json * HttpOutcome)) : Prop :=
  match r with
  | Ok _ => Forall good_exchange new
  | Raise _ => Forall good_exchange (removelast new)
  end.

Definition disciplined `{Environment} {A} (c : M A) : Prop :=
  forall w, exists new,
    sent (snd (c w)) = sent w ++ new /\ fail_stop (fst (c w)) new.

(** A computation that posts nothing and whose result and printed lines
    do not depend on the world. *)
Definition offline `{Environment} {A} (c : M A) (r : result A) (outs : list Out)
    : Prop :=
  forall w, c w = (r, mkWorld (server w) (sent w) (printed w ++ outs)).

(** Offline with some result and some printed lines. *)
Definition is_offline `{Environment} {A} (c : M A) : Prop :=
  exists r outs, offline c r outs.

(** The world after one exchange. *)
Definition exchange `{Environment} (payload : json) (w : World) : World :=
  mkWorld (snd (post payload (server w)))
          (sent w ++ [(payload, fst (post payload (server w)))])
          (printed w).

(** The payloads of the lookup and of the creation of a card. *)
Definition find_payload (tag : str) : json :=
  request_payload (lit "findNotes") (Some (find_params tag)).

Definition add_payload (c : Card) : json :=
  request_payload (lit "addNote")
    (Some (add_params (deck c) (front c) (back c) (tags c))).

(** The actions of a sequence of exchanges. *)
Definition actions_of (new : list (json * HttpOutcome)) : list str :=
  List.map (fun x => action_of (fst x)) new.

(** An exchange that is not a note creation. *)
Definition not_creation (x : json * HttpOutcome) : Prop :=
  is_action (lit "addNote") (fst x) = false.

(** The actions of the update branch, in order. *)
Definition update_actions : list str :=
  [lit "findNotes"; lit "updateNoteFields"; lit "addTags"].

(** The line the preview prints for a card. *)
Definition dry_run_line (c : Card) : Out :=
  DryRunAdd (deck c) (stable_tag c) (firstn 60 (front c)).

(** A computation under which no label is lost. *)
Definition keeps `{Environment} (carries : rstate -> str -> Prop) {A} (c : M A)
    : Prop :=
  forall w t, carries (server w) t -> carries (server (snd (c w))) t.

(* ===================================================================== *)
(** * A reference model of the flashcard application *)
(* ===================================================================== *)

(** Modelled from the spec: the flashcard application behind the HTTP
    interface is not part of the repository.  The model keeps what the
    interface section names: decks that are created once, notes with two
    fields and a set of labels, search of notes by label, note creation,
    field update and label addition.  The application may also turn any
    request down with an error reply (a duplicate, an empty field, ...),
    which [refuses] stands for; a refused request changes nothing. *)
Record Note := mkNote {
  note_id : Z;
  note_deck : str;
  note_front : str;
  note_back : str;
  note_tags : list str
}.

Record Anki := mkAnki {
  anki_decks : list str;
  anki_notes : list Note;
  anki_next_id : Z
}.

Definition reply (res : json) : HttpOutcome :=
  Response 200 (Some (JObj [(lit "result", res); (lit "error", JNull)])).

Definition reply_error (msg : str) : HttpOutcome :=
  Response 200 (Some (JObj [(lit "result", JNull); (lit "error", JStr msg)])).

Fixpoint json_strs (l : list json) : option (list str) :=
  match l with
  | [] => Some []
  | JStr s :: rest =>
      match json_strs rest with Some ss => Some (s :: ss) | None => None end
  | _ :: _ => None
  end.

Fixpoint json_nums (l : list json) : option (list Z) :=
  match l with
  | [] => Some []
  | JNum z :: rest =>
      match json_nums rest with Some zs => Some (z :: zs) | None => None end
  | _ :: _ => None
  end.

Definition has_tag (t : str) (n : Note) : bool :=
  existsb (str_eqb t) (note_tags n).

(** Space-separated labels. *)
Fixpoint words_from (cur : str) (s : str) : list str :=
  match s with
  | [] => match cur with [] => [] | _ => [rev cur] end
  | c :: rest =>
      if c =? 32 then
        match cur with
        | [] => words_from [] rest
        | _ => rev cur :: words_from [] rest
        end
      else words_from (c :: cur) rest
  end.

Definition words (s : str) : list str := words_from [] s.

Definition add_label (labels : list str) (t : str) : list str :=
  if existsb (str_eqb t) labels then labels else labels ++ [t].

Definition add_labels (ts : list str) (n : Note) : Note :=
  mkNote (note_id n) (note_deck n) (note_front n) (note_back n)
         (fold_left add_label ts (note_tags n)).

Definition set_fields (f b : str) (n : Note) : Note :=
  mkNote (note_id n) (note_deck n) f b (note_tags n).

Definition anki_action (action : str) (params : list (str * json)) (s : Anki)
    : HttpOutcome * Anki :=
  if str_eqb action (lit "createDeck") then
    match dict_get params (lit "deck") with
    | JStr d =>
        (reply (JNum 1),
         if existsb (str_eqb d) (anki_decks s) then s
         else mkAnki (anki_decks s ++ [d]) (anki_notes s) (anki_next_id s))
    | _ => (reply_error (lit "bad params"), s)
    end
  else if str_eqb action (lit "findNotes") then
    match dict_get params (lit "query") with
    | JStr qy =>
        if startswith qy (lit "tag:") then
          (reply (JArr (List.map (fun n => JNum (note_id n))
                          (filter (has_tag (skipn 4 qy)) (anki_notes s)))), s)
        else (reply_error (lit "unsupported query"), s)
    | _ => (reply_error (lit "bad params"), s)
    end
  else if str_eqb action (lit "addNote") then
    match dict_get params (lit "note") with
    | JObj note =>
        match dict_get note (lit "deckName"), dict_get note (lit "fields"),
              dict_get note (lit "tags") with
        | JStr d, JObj fields, JArr ts =>
            match dict_get fields (lit "Front"), dict_get fields (lit "Back"),
                  json_strs ts with
            | JStr f, JStr b, Some labels =>
                if existsb (str_eqb d) (anki_decks s) then
                  (reply (JNum (anki_next_id s)),
                   mkAnki (anki_decks s)
                          (anki_notes s ++ [mkNote (anki_next_id s) d f b labels])
                          (anki_next_id s + 1))
                else (reply_error (lit "deck was not found"), s)
            | _, _, _ => (reply_error (lit "bad params"), s)
            end
        | _, _, _ => (reply_error (lit "bad params"), s)
        end
    | _ => (reply_error (lit "bad params"), s)
    end
  else if str_eqb action (lit "updateNoteFields") then
    match dict_get params (lit "note") with
    | JObj note =>
        match dict_get note (lit "id"), dict_get note (lit "fields") with
        | JNum id, JObj fields =>
            match dict_get fields (lit "Front"), dict_get fields (lit "Back") with
            | JStr f, JStr b =>
                if existsb (fun n => (note_id n =? id)%Z) (anki_notes s) then
                  (reply JNull,
                   mkAnki (anki_decks s)
                          (List.map (fun n => if (note_id n =? id)%Z
                                              then set_fields f b n else n)
                                    (anki_notes s))
                          (anki_next_id s))
                else (reply_error (lit "note was not found"), s)
            | _, _ => (reply_error (lit "bad params"), s)
            end
        | _, _ => (reply_error (lit "bad params"), s)
        end
    | _ => (reply_error (lit "bad params"), s)
    end
  else if str_eqb action (lit "addTags") then
    match dict_get params (lit "notes"), dict_get params (lit "tags") with
    | JArr ids, JStr ts =>
        match json_nums ids with
        | Some zs =>
            (reply JNull,
             mkAnki (anki_decks s)
                    (List.map (fun n => if existsb (Z.eqb (note_id n)) zs
                                        then add_labels (words ts) n else n)
                              (anki_notes s))
                    (anki_next_id s))
        | None => (reply_error (lit "bad params"), s)
        end
    | _, _ => (reply_error (lit "bad params"), s)
    end
  else (reply_error (lit "unsupported action"), s).

Definition anki_post (refuses : json -> Anki -> bool) (payload : json) (s : Anki)
    : HttpOutcome * Anki :=
  if refuses payload s then (reply_error (lit "refused"), s)
  else
    match payload with
    | JObj p =>
        match dict_get p (lit "action"), dict_get p (lit "params") with
        | JStr a, JObj ps => anki_action a ps s
        | _, _ => (reply_error (lit "bad request"), s)
        end
    | _ => (reply_error (lit "bad request"), s)
    end.

Definition anki_env (to_int : str -> result Z) (refuses : json -> Anki -> bool)
    : Environment :=
  {| rstate := Anki; post := anki_post refuses; int_of_str := to_int |}.

(** Some note of the collection carries the label. *)
Definition labelled (s : Anki) (t : str) : Prop :=
  exists n, In n (anki_notes s) /\ In t (note_tags n).

Definition anki_empty : Anki := mkAnki [] [] 1.

(* ===================================================================== *)
(** * Sample inputs *)
(* ===================================================================== *)

(** A vault [/vault] with one file [math250/cards.md]. *)
Definition ex_vault : Path := mkPath true [lit "vault"].
Definition ex_md : Path := mkPath true [lit "vault"; lit "math250"; lit "cards.md"].
Definition ex_deck : str := build_deck_name ex_vault (lit "math250").
Definition ex_base_tags : list str := [lit "math250"; path_name ex_vault].

(** [Q:: x], [A::], a blank line. *)
Definition ex_blank_answer : str :=
  lit "Q:: x" ++ [10] ++ lit "A::" ++ [10] ++ [10].

(** [Q:: x], [A::], a line of three spaces. *)
Definition ex_spaces_answer : str :=
  lit "Q:: x" ++ [10] ++ lit "A::" ++ [10] ++ lit "   " ++ [10].

(** [Q:: q], [A:: one], [A:: two]. *)
Definition ex_two_markers : str :=
  lit "Q:: q" ++ [10] ++ lit "A:: one" ++ [10] ++ lit "A:: two" ++ [10].

(** A question without an answer, then [ex_two_markers]. *)
Definition ex_skipped_then_card : str :=
  lit "Q:: skipped" ++ [10] ++ ex_two_markers.


(** [Q:: q], [A:: a], [Q:: q], [A:: b]. *)
Definition ex_same_question_twice : str :=
  lit "Q:: q" ++ [10] ++ lit "A:: a" ++ [10] ++ lit "Q:: q" ++ [10] ++ lit "A:: b" ++ [10].

(** [Q:: a], [A:: 1], [Q:: b], [A:: 2]. *)
Definition ex_two_cards : str :=
  lit "Q:: a" ++ [10] ++ lit "A:: 1" ++ [10] ++ lit "Q:: b" ++ [10] ++ lit "A:: 2" ++ [10].

(** A file of [n] cards that all ask the same question: [Q:: q], [A:: a],
    [n] times over. *)
Definition repeated_block : Block := (lit "Q:: q", [lit "A:: a"]).

Definition repeated_question (n : N) : list str :=
  N.iter n (fun ls => fst repeated_block :: snd repeated_block ++ ls) [].

Definition repeated_blocks (n : N) : list Block :=
  N.iter n (cons repeated_block) [].

(** [int] on a [str], as CPython 3.11 has it (Unicode 14.0, at most 4300
    digits). The first code points of the ranges of decimal digits: each
    range holds the digits 0 to 9 in order. *)
Definition decimal_zeros : list N :=
  [0x30; 0x660; 0x6F0; 0x7C0; 0x966; 0x9E6; 0xA66; 0xAE6; 0xB66; 0xBE6;
   0xC66; 0xCE6; 0xD66; 0xDE6; 0xE50; 0xED0; 0xF20; 0x1040; 0x1090; 0x17E0;
   0x1810; 0x1946; 0x19D0; 0x1A80; 0x1A90; 0x1B50; 0x1BB0; 0x1C40; 0x1C50;
   0xA620; 0xA8D0; 0xA900; 0xA9D0; 0xA9F0; 0xAA50; 0xABF0; 0xFF10; 0x104A0;
   0x10D30; 0x11066; 0x110F0; 0x11136; 0x111D0; 0x112F0; 0x11450; 0x114D0;
   0x11650; 0x116C0; 0x11730; 0x118E0; 0x11950; 0x11C50; 0x11D50; 0x11DA0;
   0x16A60; 0x16AC0; 0x16B50; 0x1D7CE; 0x1D7D8; 0x1D7E2; 0x1D7EC; 0x1D7F6;
   0x1E140; 0x1E2F0; 0x1E950; 0x1FBF0].

(** The ASCII digit that a decimal digit stands for. *)
Definition decimal_digit (c : char) : option char :=
  match find (fun z => (z <=? c) && negb (z + 10 <=? c)) decimal_zeros with
  | Some z => find (fun a => c =? z + (a - 48)) [48; 49; 50; 51; 52; 53; 54; 55; 56; 57]
  | None => None
  end.

(** The whitespace the parser skips around the number. *)
Definition is_c_space (c : char) : bool :=
  ((9 <=? c) && (c <=? 13)) || (c =? 32).

(** What the parser is given for a character: ASCII below DEL as it is,
    other whitespace as a space, another decimal digit as its ASCII digit,
    anything else as a question mark. *)
Definition ascii_of (c : char) : char :=
  if c <? 127 then c
  else if is_space c then 32
  else match decimal_digit c with
       | Some a => a
       | None => 63
       end.

Definition int_max_str_digits : N := 4300.

(** Digits, with single underscores between them, then whitespace to the
    end. *)
Fixpoint read_digits (after_underscore : bool) (acc : Z) (count : N) (s : str)
    : result Z :=
  match s with
  | [] =>
      if after_underscore || (int_max_str_digits <? count) then Raise ValueError
      else Ok acc
  | c :: rest =>
      if (48 <=? c) && (c <=? 57) then
        read_digits false (10 * acc + Z.of_N (c - 48)) (count + 1) rest
      else if c =? 95 then
        if after_underscore then Raise ValueError
        else read_digits true acc count rest
      else if after_underscore || (int_max_str_digits <? count)
              || negb (forallb is_c_space s) then Raise ValueError
      else Ok acc
  end.

(** The number after the sign: it starts with a digit. *)
Definition read_unsigned (s : str) : result Z :=
  match s with
  | c :: _ =>
      if (48 <=? c) && (c <=? 57) then read_digits false 0 0 s
      else Raise ValueError
  | [] => Raise ValueError
  end.

Definition read_signed (s : str) : result Z :=
  match s with
  | [] => Raise ValueError
  | c :: rest =>
      if c =? 45 then let? v := read_unsigned rest in Ok (- v)%Z
      else if c =? 43 then read_unsigned rest
      else read_unsigned s
  end.

Definition decimal_int (s : str) : result Z :=
  read_signed (dropwhile is_c_space (List.map ascii_of s)).

(** The application refusing a second note with the same front. *)
Definition refuses_duplicates (payload : json) (s : Anki) : bool :=
  is_action (lit "addNote") payload
  && match payload with
     | JObj p =>
         match dict_get p (lit "params") with
         | JObj ps =>
             match dict_get ps (lit "note") with
             | JObj note =>
                 match dict_get note (lit "fields") with
                 | JObj fields =>
                     match dict_get fields (lit "Front") with
                     | JStr f => existsb (fun n => str_eqb (note_front n) f) (anki_notes s)
                     | _ => false
                     end
                 | _ => false
                 end
             | _ => false
             end
         | _ => false
         end
     | _ => false
     end.

(** The reference application with these two choices, and its empty
    collection. *)
Definition ex_env : Environment := anki_env decimal_int refuses_duplicates.

Definition ex_world : @World ex_env := @mkWorld ex_env anki_empty [] [].

(** The sample world once the sample deck exists. *)
Definition ex_world_with_deck : @World ex_env :=
  snd (@ensure_deck ex_env ex_deck ex_world).

(** The sample vault holding one file with the given text. *)
Definition ex_vault_fs (text : str) : Vault :=
  mkVault ex_vault true
    (fun cls => if str_eqb cls (lit "math250") then Some [mkMd ex_md text] else None).

(** A server that answers every request with status 300 (Multiple
    Choices) and a JSON body without error. *)
Definition multiple_choices_env : Environment :=
  {| rstate := unit;
     post := fun _ s =>
       (Response 300 (Some (JObj [(lit "result", JArr []); (lit "error", JNull)])), s);
     int_of_str := decimal_int |}.

Definition ex_multiple_choices_world : @World multiple_choices_env :=
  @mkWorld multiple_choices_env tt [] [].

(* ===================================================================== *)
(** * Further readings: labels, fields, payloads *)
(* ===================================================================== *)

(** A lowercase hexadecimal digit. *)
Definition is_hex (c : char) : bool :=
  ((48 <=? c) && (c <=? 57)) || ((97 <=? c) && (c <=? 102)).

(** A line that opens an answer, as the loop tests it. *)
Definition is_answer_line (raw : str) : bool :=
  startswith (rstrip_chars [10] raw) (lit "A::").

(** A string without whitespace at either end. *)
Definition trimmed (s : str) : Prop := lstrip s = s /\ rstrip s = s.

(** [Q:: q] then [A:: a], after two lines that belong to no card. *)
Definition ex_with_intro : list str :=
  [lit "intro"; lit "A:: stray"; lit "Q:: q"; lit "A:: a"].

(** Two questions, neither with an answer. *)
Definition ex_no_answers : str := lit "Q:: a" ++ [10] ++ lit "Q:: b" ++ [10].

(** A string that holds no line boundary. *)
Definition one_line (s : str) : Prop := Forall (fun c => is_linebreak c = false) s.

(** A question marker followed by blanks, then an answer. *)
Definition ex_blank_question : list str := [lit "Q::  "; lit "A:: a"].

(** The payloads of the deck creation and of the two calls of an update. *)
Definition deck_payload (d : str) : json :=
  request_payload (lit "createDeck") (Some (JObj [(lit "deck", JStr d)])).

Definition update_payload (id : Z) (c : Card) : json :=
  request_payload (lit "updateNoteFields")
    (Some (update_params id (front c) (back c))).

Definition add_tags_payload (id : Z) (c : Card) : json :=
  request_payload (lit "addTags")
    (Some (add_tags_params id (join (lit " ") (tags c)))).

(** What a completed note sync has posted: the lookup and the creation,
    or the lookup, the field update and the label addition. *)
Definition creation_calls (c : Card) : list json :=
  [find_payload (stable_tag c); add_payload c].

Definition update_calls (id : Z) (c : Card) : list json :=
  [find_payload (stable_tag c); update_payload id c; add_tags_payload id c].

(** The payloads of a sequence of exchanges. *)
Definition payloads (new : list (json * HttpOutcome)) : list json :=
  List.map fst new.

(** The five actions the client uses. *)
Definition api_actions : list str :=
  [lit "createDeck"; lit "findNotes"; lit "addNote"; lit "updateNoteFields";
   lit "addTags"].

(** A request as it goes over the wire: an object with the action, the
    version and a parameter object that is not empty. *)
Definition wire_request (p : json) : Prop :=
  exists a f fields,
    p = JObj [(lit "action", JStr a);
              (lit "version", JNum 6);
              (lit "params", JObj (f :: fields))]
    /\ In a api_actions.

(** A computation all of whose posted payloads satisfy [P]. *)
Definition posts_only `{Environment} (P : json -> Prop) {A} (c : M A) : Prop :=
  forall w, exists new,
    sent (snd (c w)) = sent w ++ new /\ Forall P (payloads new).

(** The strict order of [sorted] on strings. *)
Definition str_lt (a b : str) : Prop := str_leb a b = true /\ a <> b.

(** The four actions of a note sync. *)
Definition note_actions : list str :=
  [lit "findNotes"; lit "addNote"; lit "updateNoteFields"; lit "addTags"].

Definition note_request (p : json) : Prop := In (action_of p) note_actions.

(** A card as another one, in the deck [d]. *)
Definition in_deck (d : str) (c : Card) : Card :=
  mkCard d (front c) (back c) (tags c) (stable_tag c).

(** A card of the sample deck that carries its label. *)
Definition ex_card : Card :=
  mkCard ex_deck (lit "q") (lit "a") (ex_base_tags ++ [lit "t"]) (lit "t").

(** A printed line that lists one card of a scan. *)
Definition is_card_line (o : Out) : bool :=
  match o with ScanCard _ _ => true | _ => false end.

(** A class whose directory exists in the vault. *)
Definition class_present (v : Vault) (cls : str) : bool :=
  match class_dir v cls with Some _ => true | None => false end.

(** The sample vault asked for a class it has and one it has not. *)
Definition ex_classes : list str := [lit "phys202"; lit "math250"].

(** What the collecting loop gives for the cards of one class. *)
Definition of_class (v : Vault) (cls : str) (c : Card) : Prop :=
  deck c = build_deck_name (vault_path v) cls
  /\ tags c = [cls; path_name (vault_path v); stable_tag c].

(** The sample vault with one more file, whose name holds a byte that is
    no UTF-8 (a lone surrogate once decoded by the file system layer). *)
Definition ex_vault_bad_name : Vault :=
  mkVault ex_vault true
    (fun cls =>
       if str_eqb cls (lit "math250")
       then Some [mkMd ex_md ex_two_cards;
                  mkMd (joinpath ex_vault [lit "math250"; [56448] ++ lit ".md"])
                       ex_two_cards]
       else None).

(** The requests of one note sync, given what the lookup came back with:
    the lookup alone when it raised, the lookup and the creation when it
    found no note, and otherwise the lookup, the field update and the
    label addition, both on the id it found. *)
Definition note_requests (lookup : result (option Z)) (c : Card) : list json :=
  match lookup with
  | Raise _ => [find_payload (stable_tag c)]
  | Ok None => creation_calls c
  | Ok (Some id) => update_calls id c
  end.
(* ===================================================================== *)
(** * Library functions: test vectors and basic facts *)
(* ===================================================================== *)

Example sha1_abc :
  Sha1.hexdigest (lit "abc") = lit "a9993e364706816aba3e25717850c26c9cd0d89d".
Proof. vm_compute. reflexivity. Qed.

Example sha1_empty :
  Sha1.hexdigest [] = lit "da39a3ee5e6b4b0d3255bfef95601890afd80709".
Proof. vm_compute. reflexivity. Qed.

Example sha1_two_blocks :
  Sha1.hexdigest (lit "abcdbcdecdefdefgefghfghighijhijkijkljklmklmnlmnomnopnopq")
  = lit "84983e441c3bd26ebaae4aa1f95129e5e54670f1".
Proof. vm_compute. reflexivity. Qed.

Example utf8_vectors :
  utf8_encode [0xE9; 0x20AC; 0x1F600]
  = Some [0xC3; 0xA9; 0xE2; 0x82; 0xAC; 0xF0; 0x9F; 0x98; 0x80]
  /\ utf8_encode [0x61; 0xD800] = None.
Proof. split; reflexivity. Qed.

Example splitlines_boundaries :
  splitlines [97; 13; 10; 98; 10; 10; 99; 11; 28; 100; 8232; 101; 133; 102; 13; 103; 10]
  = [[97]; [98]; []; [99]; []; [100]; [101]; [102]; [103]].
Proof. reflexivity. Qed.

Example strip_whitespace :
  strip [32; 12288; 160; 120; 32; 121; 9; 31; 8201] = [120; 32; 121]
  /\ lstrip [32; 12288; 160; 120; 32; 121; 9; 31; 8201] = [120; 32; 121; 9; 31; 8201]
  /\ rstrip_chars [10] [97; 98; 10; 10] = [97; 98].
Proof. repeat split; reflexivity. Qed.

Example pathlib_vectors :
  relative_to (mkPath true [lit "v"; lit "a"; lit "b.md"]) (mkPath true [lit "v"])
  = Ok [lit "a"; lit "b.md"]
  /\ as_posix [lit "a"; lit "b.md"] = lit "a/b.md"
  /\ option_map as_posix
       (match relative_to (mkPath true [lit "v"]) (mkPath true [lit "v"]) with
        | Ok relp => Some relp
        | Raise _ => None
        end) = Some (lit ".")
  /\ relative_to (mkPath true [lit "a"]) (mkPath true []) = Ok [lit "a"]
  /\ relative_to (mkPath false [lit "a"]) (mkPath false []) = Ok [lit "a"]
  /\ relative_to (mkPath true [lit "a"]) (mkPath false []) = Raise ValueError
  /\ relative_to (mkPath false [lit "a"]) (mkPath true []) = Raise ValueError
  /\ relative_to (mkPath true [lit "v"]) (mkPath true [lit "v"; lit "a"])
     = Raise ValueError
  /\ relative_to (mkPath true [lit "w"; lit "a"]) (mkPath true [lit "v"])
     = Raise ValueError
  /\ path_name (mkPath true []) = []
  /\ path_name (mkPath false []) = []
  /\ path_name (mkPath true [lit "vault"]) = lit "vault"
  /\ build_deck_name (mkPath true []) (lit "math250") = lit "::math250".
Proof. repeat split; reflexivity. Qed.

Example decimal_int_vectors :
  decimal_int (lit " 42 ") = Ok 42%Z
  /\ decimal_int (lit "-3") = Ok (-3)%Z
  /\ decimal_int (lit "+5") = Ok 5%Z
  /\ decimal_int (lit "1_0") = Ok 10%Z
  /\ decimal_int (lit "0012") = Ok 12%Z
  /\ decimal_int [0x2003; 0x663; 95; 0xFF14; 0xA0] = Ok 34%Z
  /\ decimal_int [0x1D7E5; 0x1FBF9] = Ok 39%Z
  /\ List.map decimal_int
       [lit ""; lit "+"; lit "+ 1"; lit "1__0"; lit "_1"; lit "1_"; lit "1 2";
        lit "1e3"; lit "0x10"; [28; 53]; [53; 0]; [53; 127]; [0xB2]; [0x1FBFA]]
     = repeat (Raise ValueError) 14
  /\ is_ok (decimal_int (repeat 49 4300)) = true
  /\ decimal_int (repeat 48 4301) = Raise ValueError.
Proof. repeat split; vm_compute; reflexivity. Qed.

Example stable_id_tag_values :
  stable_id_tag ex_vault ex_md (lit "q") 1 = Ok (lit "ankivert_id_32f5663cc276")
  /\ stable_id_tag ex_vault ex_md (lit "q") 2 = Ok (lit "ankivert_id_89746ef37a8d")
  /\ stable_id_tag ex_vault ex_md (lit "x") 1 = Ok (lit "ankivert_id_db9674de9bde")
  /\ stable_id_tag ex_vault
       (joinpath ex_vault [lit "math250"; lit "caf" ++ [0xE9] ++ lit ".md"])
       [0x20AC; 63] 3 = Ok (lit "ankivert_id_466e25708ff9")
  /\ stable_id_tag ex_vault (mkPath true [lit "elsewhere"; lit "cards.md"]) (lit "q") 1
     = Raise ValueError
  /\ stable_id_tag ex_vault ex_md [0xDC80] 1 = Raise UnicodeEncodeError.
Proof. repeat split; vm_compute; reflexivity. Qed.

Example scanner_run :
  extract_cards_from_markdown ex_vault ex_md ex_deck ex_base_tags
    (lit "intro" ++ [10] ++ lit "A:: stray" ++ [10] ++ lit "Q::  first " ++ [10]
     ++ lit "note" ++ [10] ++ lit "Q:: q" ++ [10] ++ lit "ignored" ++ [10]
     ++ lit "A:: one" ++ [10] ++ lit "  two" ++ [10] ++ [10])
  = Ok [mkCard (lit "vault::math250") (lit "q") (lit "one" ++ [10] ++ lit "  two")
               [lit "math250"; lit "vault"; lit "ankivert_id_89746ef37a8d"]
               (lit "ankivert_id_89746ef37a8d")].
Proof. vm_compute. reflexivity. Qed.

(** The digest is never unfolded in a proof; it is only run. *)
Opaque Sha1.hexdigest.

Lemma Ok_inj {A} (a b : A) : Ok a = Ok b -> a = b.
Proof. intros H. now injection H. Qed.

Lemma str_eqb_refl (a : str) : str_eqb a a = true.
Proof.
  induction a as [|x a IH]; simpl; [reflexivity|].
  now rewrite N.eqb_refl, IH.
Qed.

Lemma str_eqb_eq (a b : str) : str_eqb a b = true <-> a = b.
Proof.
  split.
  - revert b. induction a as [|x a IH]; intros [|y b]; simpl; try discriminate; auto.
    intros H. apply andb_prop in H as [Hx Hy].
    apply N.eqb_eq in Hx. apply IH in Hy. congruence.
  - intros ->. apply str_eqb_refl.
Qed.

Lemma bind_result_ret {A} (c : result A) : (let? x := c in Ok x) = c.
Proof. now destruct c. Qed.

Lemma map_result_ok_in {A B} (f : A -> result B) (l : list A) (ys : list B) :
  map_result f l = Ok ys ->
  forall x, In x l -> exists y, f x = Ok y /\ In y ys.
Proof.
  revert ys. induction l as [|a l IH]; simpl; intros ys H x Hin; [contradiction|].
  destruct (f a) as [y|e] eqn:Hfa; simpl in H; [|discriminate].
  destruct (map_result f l) as [ys'|e] eqn:Hl; simpl in H; [|discriminate].
  injection H as <-. destruct Hin as [->|Hin].
  - exists y. split; [assumption|now left].
  - destruct (IH ys' eq_refl x Hin) as (y' & Hy & Hin'). exists y'. split; [assumption|now right].
Qed.

Lemma map_result_in_ok {A B} (f : A -> result B) (l : list A) (ys : list B) :
  map_result f l = Ok ys ->
  forall y, In y ys -> exists x, In x l /\ f x = Ok y.
Proof.
  revert ys. induction l as [|a l IH]; simpl; intros ys H y Hin.
  - injection H as <-. contradiction.
  - destruct (f a) as [y0|e] eqn:Hfa; simpl in H; [|discriminate].
    destruct (map_result f l) as [ys'|e] eqn:Hl; simpl in H; [|discriminate].
    injection H as <-. destruct Hin as [<-|Hin].
    + exists a. split; [now left|assumption].
    + destruct (IH ys' eq_refl y Hin) as (x & Hx & Hy). exists x. split; [now right|assumption].
Qed.

Lemma map_result_forall2 {A B} (f : A -> result B) (l : list A) (ys : list B) :
  map_result f l = Ok ys -> Forall2 (fun x y => f x = Ok y) l ys.
Proof.
  revert ys. induction l as [|a l IH]; simpl; intros ys H.
  - injection H as <-. constructor.
  - destruct (f a) as [y0|e] eqn:Hfa; simpl in H; [|discriminate].
    destruct (map_result f l) as [ys'|e] eqn:Hl; simpl in H; [|discriminate].
    injection H as <-. constructor; auto.
Qed.

(* ===================================================================== *)
(** * The scanner refines the block reading *)
(* ===================================================================== *)

Lemma split_blocks_flatten (lines : list str) :
  lines = fst (split_blocks lines) ++ flatten_blocks (snd (split_blocks lines)).
Proof.
  induction lines as [|l rest IH]; simpl; [reflexivity|].
  destruct (split_blocks rest) as [pre bs]. simpl in IH.
  destruct (is_question_line l); simpl; now rewrite IH at 1.
Qed.

Lemma split_blocks_preamble (lines : list str) :
  Forall plain_line (fst (split_blocks lines)).
Proof.
  induction lines as [|l rest IH]; simpl; [constructor|].
  destruct (split_blocks rest) as [pre bs]. simpl in IH.
  destruct (is_question_line l) eqn:Hq; simpl; [constructor|].
  constructor; assumption.
Qed.

Lemma split_blocks_well_formed (lines : list str) :
  Forall well_formed_block (snd (split_blocks lines)).
Proof.
  induction lines as [|l rest IH]; simpl; [constructor|].
  pose proof (split_blocks_preamble rest) as Hpre.
  destruct (split_blocks rest) as [pre bs]. simpl in IH, Hpre.
  destruct (is_question_line l) eqn:Hq; simpl; [|assumption].
  constructor; [split; assumption|assumption].
Qed.

Section ScannerFacts.

Variables (vault_root md_path : Path) (deck_name : str) (base_tags : list str).

Local Abbreviation scanL := (scan_lines vault_root md_path deck_name base_tags).
Local Abbreviation stepL := (scan_step vault_root md_path deck_name base_tags).
Local Abbreviation flushL := (flush vault_root md_path deck_name base_tags).
Local Abbreviation cardL := (card_of_block vault_root md_path deck_name base_tags).

Lemma scan_lines_app (a b : list str) (st : ScanState) :
  scanL st (a ++ b) = let? st' := scanL st a in scanL st' b.
Proof.
  revert st. induction a as [|l a IH]; intros st; simpl; [reflexivity|].
  destruct (stepL st l) as [st'|e]; simpl; [apply IH|reflexivity].
Qed.

(** Before the first question marker nothing is recorded. *)
Lemma scan_preamble (pre : list str) (cs : list Card) (al : list str)
    (ia : bool) (k : N) :
  Forall plain_line pre ->
  scanL (mkScan cs None al ia k) pre = Ok (mkScan cs None al ia k).
Proof.
  induction 1 as [|l pre Hl _ IH]; [reflexivity|].
  cbn [scan_lines]. unfold scan_step at 1.
  unfold plain_line, is_question_line in Hl. rewrite Hl.
  cbn [q is_some in_answer]. rewrite !andb_false_r.
  cbn [bind_result]. exact IH.
Qed.

(** Inside a block the loop only extends [a_lines]. *)
Lemma scan_body (body : list str) :
  Forall plain_line body ->
  forall cs qq al ia k,
  exists ia',
    scanL (mkScan cs (Some qq) al ia k) body
    = Ok (mkScan cs (Some qq) (al ++ answer_lines ia body) ia' k).
Proof.
  induction 1 as [|l body Hl _ IH]; intros cs qq al ia k.
  - exists ia. cbn [scan_lines answer_lines]. now rewrite app_nil_r.
  - cbn [scan_lines answer_lines]. unfold scan_step at 1.
    unfold plain_line, is_question_line in Hl. rewrite Hl.
    cbn [q is_some in_answer a_lines cards ordinal].
    set (line := rstrip_chars [10] l).
    destruct (startswith line (lit "A::")) eqn:Ha; cbn [andb].
    + set (rest := lstrip (skipn 3 line)).
      destruct (truthy rest); cbn [bind_result].
      * destruct (IH cs qq (al ++ [rest]) true k) as [ia' E].
        exists ia'. rewrite E. now rewrite <- app_assoc.
      * apply IH.
    + rewrite andb_true_r. destruct ia; cbn [bind_result].
      * destruct (IH cs qq (al ++ [line]) true k) as [ia' E].
        exists ia'. rewrite E. now rewrite <- app_assoc.
      * apply IH.
Qed.

Lemma scan_blocks (bs : list Block) :
  Forall well_formed_block bs ->
  forall st,
    (let? st' := scanL st (flatten_blocks bs) in flushL st')
    = (let? cs := flushL st in
       let? more := map_result cardL
                      (filter (fun kb => has_answer (snd kb))
                              (number_from (ordinal st + 1) bs)) in
       Ok (cs ++ more)).
Proof.
  induction 1 as [|[ql body] bs [Hq Hbody] _ IH]; intros st.
  - cbn [flatten_blocks List.map List.concat scan_lines bind_result
         number_from filter map_result].
    destruct (flushL st); cbn [bind_result]; [now rewrite app_nil_r|reflexivity].
  - cbn [fst snd] in Hq, Hbody.
    change (flatten_blocks ((ql, body) :: bs))
      with (ql :: (body ++ flatten_blocks bs)).
    cbn [scan_lines].
    unfold scan_step at 1. unfold is_question_line in Hq. rewrite Hq.
    destruct (flushL st) as [cs|e]; cbn [bind_result]; [|reflexivity].
    rewrite scan_lines_app.
    set (qt := strip (skipn 3 (rstrip_chars [10] ql))).
    destruct (scan_body body Hbody cs qt [] false (ordinal st + 1)) as [ia' E].
    rewrite E. cbn [bind_result]. rewrite IH. cbn [ordinal app].
    cbn [number_from filter]. unfold has_answer at 2. cbn [snd fst].
    unfold flush at 1. cbn [q a_lines ordinal cards].
    destruct (truthy (answer_lines false body)) eqn:Hans.
    + cbn [map_result]. unfold card_of_block at 2, question_text, answer_text.
      cbn [fst snd]. fold qt.
      destruct (stable_id_tag vault_root md_path qt (ordinal st + 1))
        as [tag|e]; cbn [bind_result]; [|reflexivity].
      match goal with |- context [map_result ?f ?l] => destruct (map_result f l) end;
        cbn [bind_result]; [|reflexivity].
      now rewrite <- app_assoc.
    + reflexivity.
Qed.

(** The loop yields exactly the cards of the answered blocks, in order,
    each numbered by the rank of its question marker in the file. *)
Lemma scan_refines (lines : list str) :
  extract_cards_from_lines vault_root md_path deck_name base_tags lines
  = cards_of_blocks vault_root md_path deck_name base_tags lines.
Proof.
  unfold extract_cards_from_lines, cards_of_blocks, answered_blocks, question_blocks.
  rewrite (split_blocks_flatten lines) at 1.
  rewrite scan_lines_app.
  unfold scan_init. rewrite (scan_preamble _ _ _ _ _ (split_blocks_preamble lines)).
  cbn [bind_result].
  rewrite (scan_blocks _ (split_blocks_well_formed lines)).
  cbn [flush q cards ordinal bind_result app N.add].
  apply bind_result_ret.
Qed.

End ScannerFacts.

(* ===================================================================== *)
(** * Properties of the scanner *)
(* ===================================================================== *)

Lemma nth_error_number_from {A} (l : list A) (k : N) (i : nat) :
  nth_error (number_from k l) i
  = option_map (fun x => (k + N.of_nat i, x)) (nth_error l i).
Proof.
  revert k i. induction l as [|x l IH]; intros k [|i]; try reflexivity.
  - cbn [number_from nth_error option_map]. now rewrite N.add_0_r.
  - cbn [number_from nth_error]. rewrite IH.
    destruct (nth_error l i); cbn [option_map]; [|reflexivity].
    do 2 f_equal. lia.
Qed.

Lemma number_from_lower {A} (l : list A) (k : N) :
  Forall (fun kx => k <= fst kx) (number_from k l).
Proof.
  revert k. induction l as [|x l IH]; intros k; cbn [number_from]; constructor.
  - cbn [fst]. lia.
  - apply Forall_impl with (P := fun kx : N * A => k + 1 <= fst kx);
      [intros a Ha; lia|apply IH].
Qed.

Lemma number_from_sorted {A} (p : N * A -> bool) (l : list A) (k : N) :
  StronglySorted N.lt (List.map fst (filter p (number_from k l))).
Proof.
  revert k. induction l as [|x l IH]; intros k; cbn [number_from filter].
  - constructor.
  - destruct (p (k, x)); [|apply IH].
    cbn [List.map]. constructor; [apply IH|].
    apply Forall_forall. intros n Hn. apply in_map_iff in Hn as (kx & <- & Hin).
    apply filter_In in Hin as [Hin _].
    pose proof (number_from_lower l (k + 1)) as Hlow.
    rewrite Forall_forall in Hlow. specialize (Hlow _ Hin). cbn [fst]. lia.
Qed.

Lemma length_filter_number_from {A} (p : A -> bool) (l : list A) (k : N) :
  List.length (filter (fun kx => p (snd kx)) (number_from k l))
  = List.length (filter p l).
Proof.
  revert k. induction l as [|x l IH]; intros k; cbn [number_from filter snd];
    [reflexivity|].
  destruct (p x); cbn [List.length]; now rewrite IH.
Qed.

Lemma firstn_number_from {A} (l : list A) (k : N) (i : nat) :
  firstn i (number_from k l) = number_from k (firstn i l).
Proof.
  revert k i. induction l as [|x l IH]; intros k [|i]; try reflexivity.
  cbn [number_from firstn]. now rewrite IH.
Qed.

(** The place of an element in a filtered list is the number of kept
    elements before it. *)
Lemma nth_error_filter {A} (p : A -> bool) (l : list A) (i : nat) (x : A) :
  nth_error l i = Some x -> p x = true ->
  nth_error (filter p l) (List.length (filter p (firstn i l))) = Some x.
Proof.
  revert i. induction l as [|a l IH]; intros [|i] H Hp; try discriminate.
  - cbn [nth_error] in H. injection H as ->.
    cbn [firstn filter List.length]. now rewrite Hp.
  - cbn [nth_error] in H. cbn [firstn filter].
    destruct (p a); cbn [List.length nth_error]; now apply IH.
Qed.

Lemma Forall2_nth_error {A B} (R : A -> B -> Prop) (l : list A) (l' : list B) :
  Forall2 R l l' ->
  forall n x, nth_error l n = Some x -> exists y, nth_error l' n = Some y /\ R x y.
Proof.
  induction 1 as [|a b l l' Hab _ IH]; intros [|n] x H; try discriminate.
  - cbn [nth_error] in *. injection H as ->. now exists b.
  - cbn [nth_error] in *. now apply IH.
Qed.

(** The first lines of the question blocks are the question marker lines
    of the file, in order. *)
Lemma blocks_are_question_lines (lines : list str) :
  List.map fst (question_blocks lines) = filter is_question_line lines.
Proof.
  unfold question_blocks. induction lines as [|l lines IH]; [reflexivity|].
  cbn [split_blocks filter]. destruct (split_blocks lines) as [pre bs].
  cbn [snd] in IH. destruct (is_question_line l); cbn [snd List.map fst];
    now rewrite IH.
Qed.

Lemma card_of_block_fields vault md dk base kb c :
  card_of_block vault md dk base kb = Ok c ->
  deck c = dk /\ front c = question_text (snd kb) /\ back c = answer_text (snd kb)
  /\ tags c = base ++ [stable_tag c]
  /\ stable_id_tag vault md (front c) (fst kb) = Ok (stable_tag c).
Proof.
  unfold card_of_block.
  destruct (stable_id_tag vault md (question_text (snd kb)) (fst kb)) as [tag|e] eqn:E;
    cbn [bind_result]; [|discriminate].
  intros H. injection H as <-. cbn [deck front back tags stable_tag]. auto.
Qed.

(** The labels of an emitted card end with its identifier label. *)
Lemma emitted_tags vault md dk base lines cs :
  extract_cards_from_lines vault md dk base lines = Ok cs ->
  Forall (fun c => tags c = base ++ [stable_tag c] /\ own_label c) cs.
Proof.
  intros H. rewrite scan_refines in H. unfold cards_of_blocks in H.
  apply Forall_forall. intros c Hin.
  destruct (map_result_in_ok _ _ _ H c Hin) as (kb & _ & Hc).
  apply card_of_block_fields in Hc as (_ & _ & _ & Ht & _).
  split; [assumption|]. unfold own_label. rewrite Ht. apply in_or_app. right. now left.
Qed.

(** ** Answers *)

Lemma lit_question_marker : lit "Q::" = [81; 58; 58].
Proof. reflexivity. Qed.

Lemma lit_answer_marker : lit "A::" = [65; 58; 58].
Proof. reflexivity. Qed.

Lemma answer_line_is_plain (l : str) :
  startswith l (lit "A::") = true -> startswith l (lit "Q::") = false.
Proof.
  rewrite lit_question_marker, lit_answer_marker.
  destruct l as [|c l]; cbn [startswith]; [discriminate|].
  intros H. apply andb_prop in H as [H _]. apply N.eqb_eq in H. subst c.
  reflexivity.
Qed.

Lemma dropwhile_all (p : char -> bool) (s : str) :
  forallb p s = true -> dropwhile p s = [].
Proof.
  induction s as [|c s IH]; cbn [forallb dropwhile]; [reflexivity|].
  intros H. apply andb_prop in H as [Hc Hs]. rewrite Hc. auto.
Qed.

Lemma dropwhile_forallb (p r : char -> bool) (s : str) :
  forallb r s = true -> forallb r (dropwhile p s) = true.
Proof.
  induction s as [|c s IH]; cbn [forallb dropwhile]; [reflexivity|].
  intros H. destruct (p c); [apply andb_prop in H as [_ H]; auto|exact H].
Qed.

Lemma forallb_rev (r : char -> bool) (s : str) :
  forallb r (rev s) = forallb r s.
Proof.
  induction s as [|c s IH]; cbn [rev forallb]; [reflexivity|].
  rewrite forallb_app, IH. cbn [forallb]. rewrite andb_true_r. apply andb_comm.
Qed.

Lemma rstrip_chars_forallb (r : char -> bool) (chars s : str) :
  forallb r s = true -> forallb r (rstrip_chars chars s) = true.
Proof.
  intros H. unfold rstrip_chars. rewrite forallb_rev.
  apply dropwhile_forallb. now rewrite forallb_rev.
Qed.

Lemma strip_all_space (s : str) : forallb is_space s = true -> strip s = [].
Proof.
  intros H. unfold strip, rstrip.
  rewrite dropwhile_all; [reflexivity|now rewrite forallb_rev].
Qed.

Lemma space_line_no_marker (s m : str) (c : char) :
  forallb is_space s = true -> is_space c = false ->
  startswith s (c :: m) = false.
Proof.
  destruct s as [|x s]; cbn [startswith forallb]; [reflexivity|].
  intros H Hc. apply andb_prop in H as [Hx _].
  destruct (c =? x) eqn:E; [|reflexivity].
  apply N.eqb_eq in E. congruence.
Qed.

(** C10. A question marker line, then an answer marker line with nothing
    (or only whitespace) after the marker, then a blank or whitespace-only
    line: the scanner emits one card, whose answer text is the empty
    string. *)
Theorem blank_answer_yields_empty_card :
  forall vault md dk base qline aline ws tag,
    is_question_line qline = true ->
    startswith (rstrip_chars [10] aline) (lit "A::") = true ->
    lstrip (skipn 3 (rstrip_chars [10] aline)) = [] ->
    forallb is_space ws = true ->
    stable_id_tag vault md (question_text (qline, [])) 1 = Ok tag ->
    extract_cards_from_lines vault md dk base [qline; aline; ws]
    = Ok [mkCard dk (question_text (qline, [])) [] (base ++ [tag]) tag].
Proof.
  intros vault md dk base qline aline ws tag Hq Ha Hrest Hws Htag.
  pose proof (rstrip_chars_forallb is_space [10] ws Hws) as Hws'.
  assert (Hwq : is_question_line ws = false).
  { unfold is_question_line. rewrite lit_question_marker.
    now apply space_line_no_marker. }
  assert (Hwa : startswith (rstrip_chars [10] ws) (lit "A::") = false).
  { rewrite lit_answer_marker. now apply space_line_no_marker. }
  assert (Haq : is_question_line aline = false).
  { unfold is_question_line. now apply answer_line_is_plain. }
  rewrite scan_refines.
  unfold cards_of_blocks, answered_blocks, question_blocks.
  cbn [split_blocks]. rewrite Hwq, Haq, Hq. cbn [snd number_from filter].
  unfold has_answer. cbn [snd answer_lines]. rewrite Ha, Hrest, Hwa.
  cbn [truthy app map_result].
  unfold card_of_block, answer_text, question_text in *. cbn [fst snd] in *.
  rewrite Htag. cbn [bind_result answer_lines]. rewrite Ha, Hrest, Hwa.
  cbn [truthy app join]. now rewrite (strip_all_space _ Hws').
Qed.

Lemma blank_answer_yields_empty_card_witness :
  exists tag,
    stable_id_tag ex_vault ex_md (lit "x") 1 = Ok tag
    /\ extract_cards_from_markdown ex_vault ex_md ex_deck ex_base_tags ex_spaces_answer
       = Ok [mkCard ex_deck (lit "x") [] (ex_base_tags ++ [tag]) tag].
Proof.
  eexists. split; [vm_compute; reflexivity|].
  unfold extract_cards_from_markdown.
  change (splitlines ex_spaces_answer) with [lit "Q:: x"; lit "A::"; lit "   "].
  apply (blank_answer_yields_empty_card ex_vault ex_md ex_deck ex_base_tags
           (lit "Q:: x") (lit "A::") (lit "   ")); vm_compute; reflexivity.
Defined.

(** C3, at the failing input: a question marker, an answer marker with
    nothing after it and a blank line. The card has no answer and is
    emitted all the same. *)
Theorem blank_answer_card_not_dropped :
  exists c,
    extract_cards_from_markdown ex_vault ex_md ex_deck ex_base_tags ex_blank_answer
    = Ok [c]
    /\ front c = lit "x" /\ back c = [].
Proof.
  eexists. split; [vm_compute; reflexivity|]. split; reflexivity.
Qed.

(** What does hold of C3: a question whose block collects no answer line
    yields no card, and without any answer marker a file yields none. *)
Lemma answer_lines_without_marker (body : list str) :
  Forall (fun l => startswith (rstrip_chars [10] l) (lit "A::") = false) body ->
  answer_lines false body = [].
Proof.
  induction 1 as [|l body Hl _ IH]; cbn [answer_lines]; [reflexivity|].
  now rewrite Hl.
Qed.

Lemma unanswered_question_dropped vault md dk base lines cs :
  extract_cards_from_lines vault md dk base lines = Ok cs ->
  forall k b, In (k, b) (number_from 1 (question_blocks lines)) ->
    answer_lines false (snd b) = [] ->
    ~ In (k, b) (answered_blocks lines)
    /\ List.length cs = List.length (answered_blocks lines).
Proof.
  intros H k b Hin Hnone. split.
  - unfold answered_blocks. rewrite filter_In. intros [_ Hans].
    unfold has_answer in Hans. cbn [snd] in Hans. now rewrite Hnone in Hans.
  - rewrite scan_refines in H. apply map_result_forall2 in H.
    symmetry. eapply Forall2_length. exact H.
Qed.

Lemma flatten_blocks_in (bs : list Block) (b : Block) (l : str) :
  In b bs -> In l (snd b) -> In l (flatten_blocks bs).
Proof.
  intros Hb Hl. unfold flatten_blocks. apply in_concat.
  exists (fst b :: snd b). split; [|now right].
  apply in_map_iff. now exists b.
Qed.

Lemma no_answer_marker_no_cards vault md dk base lines :
  Forall (fun l => startswith (rstrip_chars [10] l) (lit "A::") = false) lines ->
  extract_cards_from_lines vault md dk base lines = Ok [].
Proof.
  intros Hall. rewrite scan_refines. unfold cards_of_blocks, answered_blocks.
  assert (Hnone : forall k,
             filter (fun kb : N * Block => has_answer (snd kb))
                    (number_from k (question_blocks lines)) = []).
  { assert (Hb : Forall (fun b : Block => has_answer b = false) (question_blocks lines)).
    { apply Forall_forall. intros b Hb. unfold has_answer.
      rewrite answer_lines_without_marker; [reflexivity|].
      apply Forall_forall. intros l Hl. rewrite Forall_forall in Hall. apply Hall.
      rewrite (split_blocks_flatten lines). apply in_or_app. right.
      now apply flatten_blocks_in with b. }
    induction Hb as [|b bs Hb _ IH]; intros k; cbn [number_from filter snd];
      [reflexivity|]. now rewrite Hb. }
  now rewrite Hnone.
Qed.

Lemma lone_question_marker_no_cards vault md dk base qline :
  is_question_line qline = true ->
  extract_cards_from_lines vault md dk base [qline] = Ok [].
Proof.
  intros Hq. apply no_answer_marker_no_cards. constructor; [|constructor].
  unfold is_question_line in Hq.
  destruct (startswith (rstrip_chars [10] qline) (lit "A::")) eqn:E; [|reflexivity].
  apply answer_line_is_plain in E. congruence.
Qed.

Lemma answer_lines_skip (pre rest : list str) :
  Forall no_answer_marker pre ->
  answer_lines false (pre ++ rest) = answer_lines false rest.
Proof.
  induction 1 as [|l pre Hl _ IH]; cbn [app answer_lines]; [reflexivity|].
  unfold no_answer_marker in Hl. now rewrite Hl.
Qed.

Lemma answer_lines_continue (post : list str) :
  Forall no_answer_marker post ->
  answer_lines true post = List.map (rstrip_chars [10]) post.
Proof.
  induction 1 as [|l post Hl _ IH]; cbn [List.map answer_lines]; [reflexivity|].
  unfold no_answer_marker in Hl. now rewrite Hl, IH.
Qed.

(** With a single answer marker in the block, the collected lines are
    the content after the marker (when there is any) and the lines after
    it. *)
Lemma answer_lines_single_marker (pre post : list str) (aline : str) :
  Forall no_answer_marker pre ->
  startswith (rstrip_chars [10] aline) (lit "A::") = true ->
  Forall no_answer_marker post ->
  answer_lines false (pre ++ aline :: post)
  = (if truthy (lstrip (skipn 3 (rstrip_chars [10] aline)))
     then [lstrip (skipn 3 (rstrip_chars [10] aline))] else [])
    ++ List.map (rstrip_chars [10]) post.
Proof.
  intros Hpre Ha Hpost. rewrite (answer_lines_skip _ _ Hpre).
  cbn [answer_lines]. rewrite Ha. now rewrite (answer_lines_continue _ Hpost).
Qed.

(** C6, as the code has it. The answer text of a card is the trimmed
    newline-join of the lines its block collects: from the first answer
    marker on, an answer-marker line gives what follows the marker,
    left-trimmed, or nothing when that is empty, and any other line gives
    itself; with one answer marker in the block these are the content
    after the marker and all the lines after it. *)
Theorem answer_text_of_emitted_card :
  forall vault md dk base text cs,
    extract_cards_from_markdown vault md dk base text = Ok cs ->
    Forall2 (fun kb c => back c = strip (join [10] (answer_lines false (snd (snd kb)))))
            (answered_blocks (splitlines text)) cs
    /\ (forall kb pre aline post,
          In kb (answered_blocks (splitlines text)) ->
          snd (snd kb) = pre ++ aline :: post ->
          Forall no_answer_marker pre ->
          startswith (rstrip_chars [10] aline) (lit "A::") = true ->
          Forall no_answer_marker post ->
          answer_lines false (snd (snd kb))
          = (if truthy (lstrip (skipn 3 (rstrip_chars [10] aline)))
             then [lstrip (skipn 3 (rstrip_chars [10] aline))] else [])
            ++ List.map (rstrip_chars [10]) post).
Proof.
  intros vault md dk base text cs H. split.
  - unfold extract_cards_from_markdown in H. rewrite scan_refines in H.
    apply map_result_forall2 in H. eapply Forall2_impl; [|exact H].
    intros kb c Hc. now apply card_of_block_fields in Hc as (_ & _ & Hb & _).
  - intros kb pre aline post _ -> Hpre Ha Hpost.
    now apply answer_lines_single_marker.
Qed.

Lemma answer_text_of_emitted_card_witness :
  exists cs,
    extract_cards_from_markdown ex_vault ex_md ex_deck ex_base_tags ex_two_markers
    = Ok cs
    /\ Forall2 (fun kb c => back c = strip (join [10] (answer_lines false (snd (snd kb)))))
               (answered_blocks (splitlines ex_two_markers)) cs.
Proof.
  eexists. split; [vm_compute; reflexivity|].
  apply (answer_text_of_emitted_card ex_vault ex_md ex_deck ex_base_tags ex_two_markers).
  vm_compute. reflexivity.
Defined.

(** C6 as stated fails when a later line of the answer starts with the
    answer marker: that line is not kept as it stands. *)
Lemma later_answer_marker_line_not_kept :
  exists b c,
    question_blocks (splitlines ex_two_markers) = [b]
    /\ extract_cards_from_markdown ex_vault ex_md ex_deck ex_base_tags ex_two_markers
       = Ok [c]
    /\ literal_answer b = lit "one" ++ [10] ++ lit "A:: two"
    /\ back c = lit "one" ++ [10] ++ lit "two"
    /\ back c <> literal_answer b.
Proof.
  eexists. eexists.
  split; [vm_compute; reflexivity|].
  split; [vm_compute; reflexivity|].
  split; [vm_compute; reflexivity|].
  split; [vm_compute; reflexivity|].
  vm_compute. discriminate.
Qed.

(* ===================================================================== *)
(** * The stable identifier *)
(* ===================================================================== *)

Lemma names_below_app (root relp : list str) :
  names_below (root ++ relp) root = Ok relp.
Proof.
  induction root as [|r root IH]; cbn [app].
  - destruct relp; reflexivity.
  - cbn [names_below]. now rewrite str_eqb_refl.
Qed.

Lemma names_below_ok (p root relp : list str) :
  names_below p root = Ok relp -> p = root ++ relp.
Proof.
  revert p. induction root as [|r root IH]; intros p H.
  - destruct p; cbn [names_below] in H; apply Ok_inj in H; now subst.
  - destruct p as [|c p]; cbn [names_below] in H; [discriminate|].
    destruct (str_eqb r c) eqn:E; [|discriminate].
    apply str_eqb_eq in E. subst c. cbn [app]. f_equal. now apply IH.
Qed.

Lemma names_below_raise (p root : list str) (e : Exn) :
  names_below p root = Raise e -> e = ValueError.
Proof.
  revert p. induction root as [|r root IH]; intros p H.
  - destruct p; discriminate.
  - destruct p as [|c p]; cbn [names_below] in H; [congruence|].
    destruct (str_eqb r c); [now apply IH with p|congruence].
Qed.

(** A file below the root is relative to it, with the names that were
    joined. *)
Lemma relative_to_app (root : Path) (relp : list str) :
  relative_to (joinpath root relp) root = Ok relp.
Proof.
  unfold relative_to, joinpath. cbn [anchored names].
  rewrite Bool.eqb_reflx. apply names_below_app.
Qed.

Lemma relative_to_ok (p root : Path) (relp : list str) :
  relative_to p root = Ok relp -> p = joinpath root relp.
Proof.
  unfold relative_to, joinpath. destruct p as [a ns]. cbn [anchored names].
  destruct (Bool.eqb a (anchored root)) eqn:E; [|discriminate].
  apply Bool.eqb_prop in E. intros H. apply names_below_ok in H. now subst.
Qed.

Lemma relative_to_raise (p root : Path) (e : Exn) :
  relative_to p root = Raise e -> e = ValueError.
Proof.
  unfold relative_to. destruct (Bool.eqb _ _); [apply names_below_raise|congruence].
Qed.

(** The identifier depends on the two paths only through the relative
    path. *)
Lemma stable_id_tag_identifier vault md question k :
  stable_id_tag vault md question k
  = let? relp := relative_to md vault in identifier (as_posix relp) k question.
Proof. reflexivity. Qed.

Lemma uint_chars_inj (d1 d2 : Decimal.uint) :
  uint_chars d1 = uint_chars d2 -> d1 = d2.
Proof.
  revert d2. induction d1; destruct d2; cbn [uint_chars]; intros H;
    try discriminate; try reflexivity;
    injection H as H; f_equal; auto.
Qed.

Lemma str_of_int_inj (i j : N) : str_of_int i = str_of_int j -> i = j.
Proof.
  unfold str_of_int. intros H. apply uint_chars_inj in H.
  now apply DecimalN.Unsigned.to_uint_inj.
Qed.

Lemma uint_chars_ascii (d : Decimal.uint) : Forall (fun c => c < 128) (uint_chars d).
Proof. induction d; cbn [uint_chars]; constructor; auto; lia. Qed.

Lemma utf8_encode_ascii (s : str) :
  Forall (fun c => c < 128) s -> utf8_encode s = Some s.
Proof.
  induction 1 as [|c s Hc _ IH]; cbn [utf8_encode]; [reflexivity|].
  unfold utf8_char. apply N.ltb_lt in Hc. rewrite Hc, IH. reflexivity.
Qed.

Lemma utf8_encode_app (a b : str) :
  utf8_encode (a ++ b)
  = match utf8_encode a, utf8_encode b with
    | Some x, Some y => Some (x ++ y)
    | _, _ => None
    end.
Proof.
  induction a as [|c a IH]; cbn [app utf8_encode].
  - now destruct (utf8_encode b).
  - rewrite IH. destruct (utf8_char c) as [x|]; [|reflexivity].
    destruct (utf8_encode a) as [xa|]; [|reflexivity].
    destruct (utf8_encode b) as [xb|]; [|reflexivity].
    now rewrite app_assoc.
Qed.

(** The hashed octets of two positions of one question in one file are
    different. *)
Lemma hashed_octets_differ (rel question : str) (i j : N) (raw1 raw2 : bytes) :
  i <> j ->
  encode (rel ++ lit "||" ++ str_of_int i ++ lit "||" ++ question) = Ok raw1 ->
  encode (rel ++ lit "||" ++ str_of_int j ++ lit "||" ++ question) = Ok raw2 ->
  raw1 <> raw2.
Proof.
  intros Hij. unfold encode. rewrite !utf8_encode_app.
  rewrite !(utf8_encode_ascii (str_of_int _) (uint_chars_ascii _)).
  destruct (utf8_encode rel) as [er|]; [|discriminate].
  destruct (utf8_encode (lit "||")) as [eb|]; [|discriminate].
  destruct (utf8_encode question) as [eq|]; [|discriminate].
  intros H1 H2. injection H1 as <-. injection H2 as <-.
  intros H. apply app_inv_head in H. apply app_inv_head in H.
  apply app_inv_tail in H. apply str_of_int_inj in H. contradiction.
Qed.

Lemma identifier_shape (rel question : str) (k : N) (t : str) :
  identifier rel k question = Ok t ->
  exists raw,
    encode (rel ++ lit "||" ++ str_of_int k ++ lit "||" ++ question) = Ok raw
    /\ t = lit "ankivert_id_" ++ firstn 12 (Sha1.hexdigest raw).
Proof.
  unfold identifier.
  destruct (encode (rel ++ lit "||" ++ str_of_int k ++ lit "||" ++ question))
    as [raw|e]; cbn [bind_result]; [|discriminate].
  intros H. apply Ok_inj in H. subst t. now exists raw.
Qed.

(** The card of an answered question block: where it stands in the
    output, its fields, and the octets its label is the digest of. *)
Lemma emitted_card_of_block vault relp dk base lines cs :
  extract_cards_from_lines vault (joinpath vault relp) dk base lines = Ok cs ->
  forall i b,
    nth_error (question_blocks lines) i = Some b ->
    has_answer b = true ->
    exists c raw,
      nth_error cs (List.length (filter has_answer (firstn i (question_blocks lines))))
      = Some c
      /\ deck c = dk /\ front c = question_text b /\ back c = answer_text b
      /\ tags c = base ++ [stable_tag c]
      /\ encode (as_posix relp ++ lit "||" ++ str_of_int (N.of_nat i + 1) ++ lit "||"
                 ++ question_text b) = Ok raw
      /\ stable_tag c = lit "ankivert_id_" ++ firstn 12 (Sha1.hexdigest raw).
Proof.
  intros H i b Hb Ha. rewrite scan_refines in H. unfold cards_of_blocks in H.
  apply map_result_forall2 in H.
  assert (Hn : nth_error (answered_blocks lines)
                 (List.length (filter has_answer (firstn i (question_blocks lines))))
               = Some (N.of_nat i + 1, b)).
  { unfold answered_blocks.
    rewrite <- (length_filter_number_from has_answer _ 1), <- firstn_number_from.
    apply nth_error_filter; [|exact Ha].
    rewrite nth_error_number_from, Hb. cbn [option_map]. do 2 f_equal. lia. }
  destruct (Forall2_nth_error _ _ _ H _ _ Hn) as (c & Hc & Hcard).
  apply card_of_block_fields in Hcard as (Hd & Hf & Hk & Ht & Hid).
  cbn [fst snd] in *.
  rewrite stable_id_tag_identifier, relative_to_app in Hid. cbn [bind_result] in Hid.
  apply identifier_shape in Hid as (raw & He & Hs). rewrite Hf in He.
  exists c, raw. repeat (split; [assumption|]). assumption.
Qed.

(** C5, as the code has it. Two question markers of one file with the
    same question text, each with an answer, give two cards, at their
    places in the output, whose labels are the prefix and the first twelve
    digits of the SHA-1 digests of two different octet strings: the UTF-8
    octets of [rel||i||question] and of [rel||j||question], where [rel] is
    the path of the file relative to the vault and [i], [j] are the ranks
    of the two markers among the question markers of the file. *)
Theorem identical_questions_hash_different_strings :
  forall vault relp dk base text cs,
    extract_cards_from_markdown vault (joinpath vault relp) dk base text = Ok cs ->
    forall i j b1 b2,
      nth_error (question_blocks (splitlines text)) i = Some b1 ->
      nth_error (question_blocks (splitlines text)) j = Some b2 ->
      has_answer b1 = true ->
      has_answer b2 = true ->
      i <> j ->
      question_text b1 = question_text b2 ->
      exists c1 c2 raw1 raw2,
        nth_error cs (List.length (filter has_answer
                        (firstn i (question_blocks (splitlines text))))) = Some c1
        /\ nth_error cs (List.length (filter has_answer
                           (firstn j (question_blocks (splitlines text))))) = Some c2
        /\ front c1 = question_text b1 /\ front c2 = question_text b1
        /\ encode (as_posix relp ++ lit "||" ++ str_of_int (N.of_nat i + 1)
                   ++ lit "||" ++ question_text b1) = Ok raw1
        /\ encode (as_posix relp ++ lit "||" ++ str_of_int (N.of_nat j + 1)
                   ++ lit "||" ++ question_text b1) = Ok raw2
        /\ stable_tag c1 = lit "ankivert_id_" ++ firstn 12 (Sha1.hexdigest raw1)
        /\ stable_tag c2 = lit "ankivert_id_" ++ firstn 12 (Sha1.hexdigest raw2)
        /\ raw1 <> raw2.
Proof.
  intros vault relp dk base text cs H i j b1 b2 H1 H2 A1 A2 Hij Hq.
  unfold extract_cards_from_markdown in H.
  destruct (emitted_card_of_block _ _ _ _ _ _ H i b1 H1 A1)
    as (c1 & raw1 & Hn1 & _ & Hf1 & _ & _ & He1 & Ht1).
  destruct (emitted_card_of_block _ _ _ _ _ _ H j b2 H2 A2)
    as (c2 & raw2 & Hn2 & _ & Hf2 & _ & _ & He2 & Ht2).
  rewrite <- Hq in Hf2, He2.
  exists c1, c2, raw1, raw2. repeat (split; [assumption|]).
  apply (hashed_octets_differ (as_posix relp) (question_text b1)
           (N.of_nat i + 1) (N.of_nat j + 1)); [lia|assumption|assumption].
Qed.

Lemma identical_questions_hash_different_strings_witness :
  exists c1 c2 raw1 raw2,
    extract_cards_from_markdown ex_vault ex_md ex_deck ex_base_tags
      ex_same_question_twice = Ok [c1; c2]
    /\ front c1 = lit "q" /\ front c2 = lit "q"
    /\ encode (lit "math250/cards.md||1||q") = Ok raw1
    /\ encode (lit "math250/cards.md||2||q") = Ok raw2
    /\ stable_tag c1 = lit "ankivert_id_" ++ firstn 12 (Sha1.hexdigest raw1)
    /\ stable_tag c2 = lit "ankivert_id_" ++ firstn 12 (Sha1.hexdigest raw2)
    /\ raw1 <> raw2.
Proof.
  assert (Hx : exists cs,
             extract_cards_from_markdown ex_vault
               (joinpath ex_vault [lit "math250"; lit "cards.md"]) ex_deck ex_base_tags
               ex_same_question_twice = Ok cs).
  { eexists. vm_compute. reflexivity. }
  destruct Hx as [cs Hx].
  destruct (identical_questions_hash_different_strings
              ex_vault [lit "math250"; lit "cards.md"] ex_deck ex_base_tags
              ex_same_question_twice cs Hx
              0%nat 1%nat (lit "Q:: q", [lit "A:: a"]) (lit "Q:: q", [lit "A:: b"])
              eq_refl eq_refl eq_refl eq_refl ltac:(discriminate) eq_refl)
    as (c1 & c2 & raw1 & raw2 & N1 & N2 & F1 & F2 & E1 & E2 & T1 & T2 & Hne).
  exists c1, c2, raw1, raw2.
  split.
  - change (joinpath ex_vault [lit "math250"; lit "cards.md"]) with ex_md in Hx.
    rewrite Hx. f_equal.
    assert (Hl : List.length cs = 2%nat).
    { apply (f_equal (fun r => match r with Ok l => List.length l | Raise _ => 0%nat end))
        in Hx. rewrite <- Hx. vm_compute. reflexivity. }
    destruct cs as [|x [|y [|z cs]]]; try discriminate Hl.
    cbn in N1, N2. now injection N1 as ->; injection N2 as ->.
  - repeat (split; [assumption|]). assumption.
Defined.

(** ** A file in which two cards share an identifier *)

Lemma repeated_question_succ (n : N) :
  repeated_question (N.succ n)
  = fst repeated_block :: snd repeated_block ++ repeated_question n.
Proof. unfold repeated_question. now rewrite N.iter_succ. Qed.

Lemma repeated_blocks_succ (n : N) :
  repeated_blocks (N.succ n) = repeated_block :: repeated_blocks n.
Proof. unfold repeated_blocks. now rewrite N.iter_succ. Qed.

Lemma split_repeated_question (n : N) :
  split_blocks (repeated_question n) = ([], repeated_blocks n).
Proof.
  induction n as [|n IH] using N.peano_ind; [reflexivity|].
  rewrite repeated_question_succ, repeated_blocks_succ.
  change (fst repeated_block :: snd repeated_block ++ repeated_question n)
    with (lit "Q:: q" :: lit "A:: a" :: repeated_question n).
  cbn [split_blocks]. rewrite IH.
  change (is_question_line (lit "A:: a")) with false.
  change (is_question_line (lit "Q:: q")) with true.
  reflexivity.
Qed.

Lemma repeated_blocks_app (a b : N) :
  repeated_blocks (a + b) = repeated_blocks a ++ repeated_blocks b.
Proof.
  induction a as [|a IH] using N.peano_ind; [reflexivity|].
  rewrite N.add_succ_l, !repeated_blocks_succ, IH. reflexivity.
Qed.

Lemma repeated_blocks_length (n : N) :
  N.of_nat (List.length (repeated_blocks n)) = n.
Proof.
  induction n as [|n IH] using N.peano_ind; [reflexivity|].
  rewrite repeated_blocks_succ. cbn [List.length]. rewrite Nat2N.inj_succ, IH.
  reflexivity.
Qed.

Lemma repeated_blocks_all (n : N) :
  Forall (fun b => b = repeated_block) (repeated_blocks n).
Proof.
  induction n as [|n IH] using N.peano_ind; [constructor|].
  rewrite repeated_blocks_succ. now constructor.
Qed.

Lemma number_from_app {A} (a b : list A) (s : N) :
  number_from s (a ++ b)
  = number_from s a ++ number_from (s + N.of_nat (List.length a)) b.
Proof.
  revert s. induction a as [|x a IH]; intros s.
  - cbn [app number_from List.length]. now rewrite N.add_0_r.
  - cbn [app number_from List.length]. rewrite IH. do 3 f_equal. lia.
Qed.

Lemma number_from_snd {A} (P : A -> Prop) (l : list A) (s : N) :
  Forall P l -> Forall (fun kx => P (snd kx)) (number_from s l).
Proof.
  intros H. revert s. induction H as [|x l Hx _ IH]; intros s; cbn [number_from];
    constructor; auto.
Qed.

Lemma filter_all {A} (p : A -> bool) (l : list A) :
  Forall (fun x => p x = true) l -> filter p l = l.
Proof.
  induction 1 as [|x l Hx _ IH]; cbn [filter]; [reflexivity|].
  now rewrite Hx, IH.
Qed.

Lemma answered_repeated (n : N) :
  answered_blocks (repeated_question n) = number_from 1 (repeated_blocks n).
Proof.
  unfold answered_blocks, question_blocks. rewrite split_repeated_question.
  cbn [snd]. apply filter_all.
  apply Forall_impl with (P := fun kb : N * Block => snd kb = repeated_block).
  - intros kb ->. reflexivity.
  - apply number_from_snd with (P := fun b => b = repeated_block).
    apply repeated_blocks_all.
Qed.

Lemma literal_ascii (s : string) :
  forallb (fun c => c <? 128) (lit s) = true -> Forall (fun c => c < 128) (lit s).
Proof.
  intros H. apply Forall_forall. intros c Hc.
  rewrite forallb_forall in H. apply N.ltb_lt. now apply H.
Qed.

(** In the sample vault every position of the question [q] has an
    identifier. *)
Lemma repeated_identifier (k : N) :
  stable_id_tag ex_vault ex_md (lit "q") k
  = Ok (lit "ankivert_id_"
        ++ firstn 12 (Sha1.hexdigest
             (lit "math250/cards.md" ++ lit "||" ++ str_of_int k ++ lit "||" ++ lit "q"))).
Proof.
  rewrite stable_id_tag_identifier.
  change (relative_to ex_md ex_vault) with (Ok [lit "math250"; lit "cards.md"]).
  cbn [bind_result].
  change (as_posix [lit "math250"; lit "cards.md"]) with (lit "math250/cards.md").
  unfold identifier, encode. rewrite utf8_encode_ascii; [reflexivity|].
  repeat (apply Forall_app; split);
    try (apply literal_ascii; reflexivity).
  apply uint_chars_ascii.
Qed.

Lemma repeated_card (k : N) :
  exists c,
    card_of_block ex_vault ex_md ex_deck ex_base_tags (k, repeated_block) = Ok c
    /\ front c = lit "q"
    /\ stable_id_tag ex_vault ex_md (lit "q") k = Ok (stable_tag c).
Proof.
  unfold card_of_block. cbn [fst snd].
  change (question_text repeated_block) with (lit "q").
  rewrite repeated_identifier. cbn [bind_result].
  eexists. split; [reflexivity|]. split; reflexivity.
Qed.

Lemma map_result_total {A B} (f : A -> result B) (l : list A) :
  Forall (fun x => exists y, f x = Ok y) l -> exists ys, map_result f l = Ok ys.
Proof.
  induction 1 as [|x l [y Hy] _ [ys IH]]; cbn [map_result].
  - now exists [].
  - rewrite Hy, IH. cbn [bind_result]. now exists (y :: ys).
Qed.

Lemma Forall2_cons_left {A B} (R : A -> B -> Prop) x l l' :
  Forall2 R (x :: l) l' -> exists y l'', R x y /\ Forall2 R l l'' /\ l' = y :: l''.
Proof. intros H. inversion H; subst. eauto. Qed.

Lemma Forall2_nil_left {A B} (R : A -> B -> Prop) l' :
  Forall2 R [] l' -> l' = [].
Proof. intros H. now inversion H. Qed.

(** With [p] blocks before the first of the two cards and [r] between
    them, equal identifiers at the two positions are the identifiers of
    two cards of the file. *)
Lemma repeated_question_two_cards (p r : N) :
  stable_id_tag ex_vault ex_md (lit "q") (1 + p)
  = stable_id_tag ex_vault ex_md (lit "q") (1 + p + 1 + r) ->
  exists cs l1 c1 l2 c2,
    extract_cards_from_lines ex_vault ex_md ex_deck ex_base_tags
      (repeated_question (p + (1 + (r + 1)))) = Ok cs
    /\ cs = l1 ++ c1 :: l2 ++ [c2]
    /\ card_of_block ex_vault ex_md ex_deck ex_base_tags (1 + p, repeated_block) = Ok c1
    /\ card_of_block ex_vault ex_md ex_deck ex_base_tags (1 + p + 1 + r, repeated_block)
       = Ok c2
    /\ front c1 = front c2
    /\ stable_tag c1 = stable_tag c2
    /\ stable_id_tag ex_vault ex_md (lit "q") (1 + p) = Ok (stable_tag c1).
Proof.
  intros Hsame.
  assert (Hall : exists cs,
             extract_cards_from_lines ex_vault ex_md ex_deck ex_base_tags
               (repeated_question (p + (1 + (r + 1)))) = Ok cs).
  { rewrite scan_refines. unfold cards_of_blocks. apply map_result_total.
    rewrite answered_repeated.
    apply Forall_impl with (P := fun kb : N * Block => snd kb = repeated_block).
    - intros [k b] Hb. cbn [snd] in Hb. subst b.
      destruct (repeated_card k) as (c & Hc & _). now exists c.
    - apply number_from_snd with (P := fun b => b = repeated_block).
      apply repeated_blocks_all. }
  destruct Hall as [cs Hcs]. exists cs.
  pose proof Hcs as HF. rewrite scan_refines in HF. unfold cards_of_blocks in HF.
  apply map_result_forall2 in HF. rewrite answered_repeated in HF.
  rewrite !repeated_blocks_app in HF.
  change (repeated_blocks 1) with [repeated_block] in HF.
  rewrite !number_from_app in HF. cbn [List.length number_from app] in HF.
  rewrite !repeated_blocks_length in HF.
  apply Forall2_app_inv_l in HF as (l1 & rest1 & _ & HF & ->).
  apply Forall2_cons_left in HF as (c1 & rest2 & Hc1 & HF2 & ->).
  apply Forall2_app_inv_l in HF2 as (l2 & rest3 & _ & HF3 & ->).
  apply Forall2_cons_left in HF3 as (c2 & rest4 & Hc2 & HF4 & ->).
  apply Forall2_nil_left in HF4 as ->.
  exists l1, c1, l2, c2.
  replace (1 + p + N.of_nat 1 + r) with (1 + p + 1 + r) in Hc2 by lia.
  split; [assumption|]. split; [reflexivity|].
  split; [assumption|]. split; [assumption|].
  destruct (repeated_card (1 + p)) as (c1' & E1 & F1 & I1).
  destruct (repeated_card (1 + p + 1 + r)) as (c2' & E2 & F2 & I2).
  rewrite Hc1 in E1. apply Ok_inj in E1. subst c1'.
  rewrite Hc2 in E2. apply Ok_inj in E2. subst c2'.
  split; [congruence|]. split; [|exact I1].
  apply Ok_inj. rewrite <- I1, <- I2. exact Hsame.
Qed.

(** C5 as stated fails on a file of 29134597 cards that all ask [q]:
    the cards numbered 27685940 and 29134597 get the same identifier. *)
Lemma identical_questions_same_identifier :
  exists cs l1 c1 l2 c2,
    extract_cards_from_lines ex_vault ex_md ex_deck ex_base_tags
      (repeated_question 29134597) = Ok cs
    /\ cs = l1 ++ c1 :: l2 ++ [c2]
    /\ card_of_block ex_vault ex_md ex_deck ex_base_tags (27685940, repeated_block)
       = Ok c1
    /\ card_of_block ex_vault ex_md ex_deck ex_base_tags (29134597, repeated_block)
       = Ok c2
    /\ front c1 = front c2
    /\ stable_tag c1 = stable_tag c2
    /\ stable_tag c1 = lit "ankivert_id_bdbb82b2ef16".
Proof.
  pose proof (repeated_question_two_cards 27685939 1448656) as H.
  assert (E1 : 27685939 + (1 + (1448656 + 1)) = 29134597) by reflexivity.
  assert (E2 : 1 + 27685939 = 27685940) by reflexivity.
  assert (E3 : 1 + 27685939 + 1 + 1448656 = 29134597) by reflexivity.
  rewrite E3, E2, E1 in H.
  destruct H as (cs & l1 & c1 & l2 & c2 & Hcs & Hsplit & Hc1 & Hc2 & Hf & Ht & Hid).
  { vm_compute. reflexivity. }
  exists cs, l1, c1, l2, c2. repeat (split; [assumption|]).
  apply Ok_inj. rewrite <- Hid. vm_compute. reflexivity.
Qed.

(* ===================================================================== *)
(** * The scanner returns on encodable input *)
(* ===================================================================== *)

Lemma utf8_encode_encodable (s : str) :
  encodable s -> exists b, utf8_encode s = Some b.
Proof.
  induction 1 as [|c s Hc _ [b IH]]; cbn [utf8_encode].
  - now exists [].
  - destruct (utf8_char c) as [x|]; [|contradiction]. rewrite IH. now exists (x ++ b).
Qed.

Lemma encodable_ascii (s : str) : Forall (fun c => c < 128) s -> encodable s.
Proof.
  intros H. eapply Forall_impl; [|exact H]. intros c Hc. unfold utf8_char.
  apply N.ltb_lt in Hc. now rewrite Hc.
Qed.

Lemma encodable_app (a b : str) : encodable a -> encodable b -> encodable (a ++ b).
Proof. intros Ha Hb. apply Forall_app. now split. Qed.

Lemma identifier_total (rel question : str) (k : N) :
  encodable rel -> encodable question -> exists t, identifier rel k question = Ok t.
Proof.
  intros Hr Hq. unfold identifier, encode.
  destruct (utf8_encode_encodable (rel ++ lit "||" ++ str_of_int k ++ lit "||" ++ question))
    as [b Hb].
  - repeat apply encodable_app; try assumption.
    + apply encodable_ascii, literal_ascii. reflexivity.
    + apply encodable_ascii, uint_chars_ascii.
    + apply encodable_ascii, literal_ascii. reflexivity.
  - rewrite Hb. cbn [bind_result]. eexists. reflexivity.
Qed.

Lemma dropwhile_Forall (P : char -> Prop) (p : char -> bool) (s : str) :
  Forall P s -> Forall P (dropwhile p s).
Proof.
  induction 1 as [|c s Hc Hs IH]; cbn [dropwhile]; [constructor|].
  destruct (p c); [assumption|now constructor].
Qed.

Lemma rstrip_chars_Forall (P : char -> Prop) (chars s : str) :
  Forall P s -> Forall P (rstrip_chars chars s).
Proof.
  intros H. unfold rstrip_chars. apply Forall_rev, dropwhile_Forall.
  now apply Forall_rev.
Qed.

Lemma strip_Forall (P : char -> Prop) (s : str) : Forall P s -> Forall P (strip s).
Proof.
  intros H. unfold strip, lstrip, rstrip.
  apply dropwhile_Forall, Forall_rev, dropwhile_Forall. now apply Forall_rev.
Qed.

Lemma skipn_Forall {A} (P : A -> Prop) (n : nat) (l : list A) :
  Forall P l -> Forall P (skipn n l).
Proof.
  revert l. induction n as [|n IH]; intros l H; cbn [skipn]; [assumption|].
  destruct H; [constructor|now apply IH].
Qed.

Lemma splitlines_from_Forall_two (P : char -> Prop) (s : str) :
  (forall cur, Forall P cur -> Forall P s ->
     Forall (Forall P) (splitlines_from cur s))
  /\ (forall c cur, Forall P cur -> Forall P (c :: s) ->
        Forall (Forall P) (splitlines_from cur (c :: s))).
Proof.
  induction s as [|a s [IH1 IH2]].
  - assert (H0 : forall cur, Forall P cur -> Forall (Forall P) (splitlines_from cur [])).
    { intros cur Hcur. cbn [splitlines_from].
      destruct cur; [constructor|]. constructor; [now apply Forall_rev|constructor]. }
    split; [intros cur Hcur _; now apply H0|].
    intros c cur Hcur Hc. inversion Hc as [|? ? Hc1 _]; subst.
    cbn [splitlines_from]. destruct (is_linebreak c).
    + constructor; [now apply Forall_rev|]. destruct (c =? 13); constructor.
    + constructor; [|constructor]. apply Forall_rev. now constructor.
  - split; [intros cur Hcur Hs; inversion Hs; subst; now apply IH2|].
    intros c cur Hcur Hs. inversion Hs as [|? ? Hc Hs']; subst.
    inversion Hs' as [|? ? Ha Hs'']; subst.
    change (splitlines_from cur (c :: a :: s))
      with (if is_linebreak c then
              List.rev cur ::
                (if c =? 13 then
                   if a =? 10 then splitlines_from [] s
                   else splitlines_from [] (a :: s)
                 else splitlines_from [] (a :: s))
            else splitlines_from (c :: cur) (a :: s)).
    destruct (is_linebreak c).
    + constructor; [now apply Forall_rev|].
      destruct (c =? 13); [destruct (a =? 10)|]; auto.
    + apply IH2; [now constructor|assumption].
Qed.

Lemma splitlines_Forall (P : char -> Prop) (s : str) :
  Forall P s -> Forall (Forall P) (splitlines s).
Proof.
  intros H. unfold splitlines.
  now apply (proj1 (splitlines_from_Forall_two P s)).
Qed.

Lemma question_blocks_in (lines : list str) (b : Block) :
  In b (question_blocks lines) -> In (fst b) lines.
Proof.
  intros Hb. rewrite (split_blocks_flatten lines). apply in_or_app. right.
  unfold flatten_blocks. apply in_concat. exists (fst b :: snd b).
  split; [|now left]. apply in_map_iff. now exists b.
Qed.

Lemma number_from_in {A} (l : list A) (k n : N) (x : A) :
  In (n, x) (number_from k l) -> In x l.
Proof.
  revert k. induction l as [|y l IH]; intros k H; cbn [number_from] in H;
    [contradiction|].
  destruct H as [H|H]; [injection H as _ ->; now left|right; eauto].
Qed.

(** On a file whose path and text can be encoded the scanner returns
    its cards. *)
Lemma scanner_total vault md dk base relp text :
  relative_to md vault = Ok relp ->
  encodable (as_posix relp) ->
  encodable text ->
  exists cs, extract_cards_from_markdown vault md dk base text = Ok cs.
Proof.
  intros Hrel Hp Ht. unfold extract_cards_from_markdown.
  rewrite scan_refines. unfold cards_of_blocks. apply map_result_total.
  apply Forall_forall. intros [k b] Hin.
  unfold answered_blocks in Hin. apply filter_In in Hin as [Hin _].
  apply number_from_in, question_blocks_in in Hin.
  pose proof (splitlines_Forall _ _ Ht) as Hlines. rewrite Forall_forall in Hlines.
  specialize (Hlines _ Hin).
  unfold card_of_block. cbn [fst snd]. rewrite stable_id_tag_identifier, Hrel.
  cbn [bind_result].
  destruct (identifier_total (as_posix relp) (question_text b) k Hp) as [t Hid].
  - unfold question_text. apply strip_Forall, skipn_Forall, rstrip_chars_Forall.
    exact Hlines.
  - rewrite Hid. cbn [bind_result]. eexists. reflexivity.
Qed.

(* ===================================================================== *)
(** * The client against any server *)
(* ===================================================================== *)

Lemma Forall_removelast {A} (P : A -> Prop) (l : list A) :
  Forall P l -> Forall P (removelast l).
Proof.
  induction 1 as [|x l Hx Hl IH]; [constructor|].
  cbn [removelast]. destruct l; [constructor|]. constructor; assumption.
Qed.

Section Client.

Context {E : Environment}.

Lemma ankiconnect_run (action : str) (params : option json) (w : World) :
  ankiconnect action params w
  = (reply_value action (fst (post (request_payload action params) (server w))),
     exchange (request_payload action params) w).
Proof.
  unfold ankiconnect, bind, do_post, exchange.
  destruct (post (request_payload action params) (server w)) as [r s'].
  cbn [fst snd]. unfold reply_value.
  destruct r as [|st body]; [reflexivity|].
  destruct (raise_for_status st); [reflexivity|].
  destruct body as [[| | | | |data]|]; try reflexivity.
  destruct (json_truthy (dict_get data (lit "error"))); reflexivity.
Qed.

Lemma reply_value_ok (action : str) (r : HttpOutcome) :
  is_ok (reply_value action r) = negb (reply_fails r).
Proof.
  destruct r as [|st body]; [reflexivity|].
  unfold reply_value, reply_fails.
  destruct (raise_for_status st); [reflexivity|].
  destruct body as [[| | | | |data]|]; try reflexivity.
  cbn [orb]. destruct (json_truthy (dict_get data (lit "error"))); reflexivity.
Qed.

(** ** Failure stops the run *)

Lemma disciplined_ret {A} (a : A) : disciplined (ret a).
Proof. intros w. exists []. cbn. rewrite app_nil_r. split; [reflexivity|constructor]. Qed.

Lemma disciplined_raise {A} (e : Exn) : disciplined (@raise _ A e).
Proof. intros w. exists []. cbn. rewrite app_nil_r. split; [reflexivity|constructor]. Qed.

Lemma disciplined_lift {A} (r : result A) : disciplined (lift r).
Proof.
  intros w. exists []. cbn. rewrite app_nil_r. split; [reflexivity|].
  destruct r; constructor.
Qed.

Lemma disciplined_print (o : Out) : disciplined (print o).
Proof. intros w. exists []. cbn. rewrite app_nil_r. split; [reflexivity|constructor]. Qed.

Lemma disciplined_bind {A B} (c : M A) (k : A -> M B) :
  disciplined c -> (forall a, disciplined (k a)) -> disciplined (bind c k).
Proof.
  intros Hc Hk w. unfold bind.
  destruct (Hc w) as (new1 & Hs1 & Hf1).
  destruct (c w) as [[a|e] w1]; cbn [fst snd] in *.
  - destruct (Hk a w1) as (new2 & Hs2 & Hf2).
    exists (new1 ++ new2). split; [rewrite Hs2, Hs1; now rewrite app_assoc|].
    destruct (fst (k a w1)); cbn [fail_stop] in *.
    + apply Forall_app. split; assumption.
    + destruct new2 as [|x new2].
      * rewrite app_nil_r. now apply Forall_removelast.
      * rewrite removelast_app by discriminate.
        apply Forall_app. split; assumption.
  - exists new1. split; assumption.
Qed.

Lemma disciplined_ankiconnect (action : str) (params : option json) :
  disciplined (ankiconnect action params).
Proof.
  intros w. rewrite ankiconnect_run. unfold exchange. cbn [fst snd sent].
  eexists. split; [reflexivity|].
  pose proof (reply_value_ok action
                (fst (post (request_payload action params) (server w)))) as Hok.
  destruct (reply_value action _); cbn [fail_stop is_ok removelast] in *.
  - constructor; [|constructor]. unfold good_exchange. cbn [snd].
    symmetry in Hok. now apply negb_true_iff in Hok.
  - constructor.
Qed.

Lemma disciplined_for_each {A} (xs : list A) (body : A -> M unit) :
  (forall x, disciplined (body x)) -> disciplined (for_each xs body).
Proof.
  intros Hb. induction xs as [|x xs IH]; cbn [for_each].
  - apply disciplined_ret.
  - apply disciplined_bind; [apply Hb|intros _; exact IH].
Qed.

End Client.

Create HintDb discipline.
#[local] Hint Resolve disciplined_ret disciplined_raise disciplined_lift
  disciplined_print disciplined_ankiconnect : discipline.

Ltac discipline :=
  repeat first
    [ solve [auto with discipline]
    | apply disciplined_bind; [|intro]
    | apply disciplined_for_each; intro
    | match goal with
      | |- disciplined (if ?b then _ else _) => destruct b
      | |- disciplined (match ?x with _ => _ end) => destruct x
      end ].

Section ClientRuns.

Context {E : Environment}.

Lemma disciplined_ensure_deck (d : str) : disciplined (ensure_deck d).
Proof. unfold ensure_deck. discipline. Qed.

Lemma disciplined_find (t : str) : disciplined (find_note_id_by_tag t).
Proof. unfold find_note_id_by_tag. discipline. Qed.

Lemma disciplined_add_or_update (c : Card) (dry_run : bool) :
  disciplined (add_or_update_basic_note c dry_run).
Proof.
  unfold add_or_update_basic_note.
  apply disciplined_bind; [destruct dry_run; [discipline|apply disciplined_find]|].
  intros [id|]; destruct dry_run; discipline.
Qed.

Lemma disciplined_sync_cards (cs : list Card) (dry_run : bool) :
  disciplined (sync_cards cs dry_run).
Proof.
  unfold sync_cards. apply disciplined_bind.
  - destruct (negb dry_run); [|discipline].
    apply disciplined_for_each. apply disciplined_ensure_deck.
  - intros _. apply disciplined_for_each. intros c. apply disciplined_add_or_update.
Qed.

Lemma disciplined_collect_file cmd v cls f : disciplined (collect_file cmd v cls f).
Proof. unfold collect_file. discipline. Qed.

Lemma disciplined_collect_files cmd v cls files :
  disciplined (collect_files cmd v cls files).
Proof.
  induction files as [|f files IH]; cbn [collect_files]; [discipline|].
  apply disciplined_bind; [apply disciplined_collect_file|].
  intros cs. apply disciplined_bind; [exact IH|]. intros more. discipline.
Qed.

Lemma disciplined_collect_classes cmd v classes :
  disciplined (collect_classes cmd v classes).
Proof.
  induction classes as [|cls classes IH]; cbn [collect_classes]; [discipline|].
  apply disciplined_bind.
  - destruct (class_dir v cls); [apply disciplined_collect_files|discipline].
  - intros cs. apply disciplined_bind; [exact IH|]. intros more. discipline.
Qed.

Lemma disciplined_main cmd v classes dry_run :
  disciplined (main cmd v classes dry_run).
Proof.
  unfold main. destruct (negb (vault_exists v)); [discipline|].
  apply disciplined_bind; [apply disciplined_collect_classes|].
  intros cs. apply disciplined_bind; [discipline|]. intros _.
  destruct cmd; [discipline|].
  apply disciplined_bind; [apply disciplined_sync_cards|]. intros _. discipline.
Qed.

End ClientRuns.

(** ** Computations that do not post *)

Section Offline.

Context {E : Environment}.

Lemma offline_ret {A} (a : A) : offline (ret a) (Ok a) [].
Proof. intros [s t p]. cbn. now rewrite app_nil_r. Qed.

Lemma offline_lift {A} (r : result A) : offline (lift r) r [].
Proof. intros [s t p]. cbn. now rewrite app_nil_r. Qed.

Lemma offline_print (o : Out) : offline (print o) (Ok tt) [o].
Proof. intros w. reflexivity. Qed.

Lemma offline_bind {A B} (c : M A) (k : A -> M B) a o1 r o2 :
  offline c (Ok a) o1 -> offline (k a) r o2 -> offline (bind c k) r (o1 ++ o2).
Proof.
  intros Hc Hk w. unfold bind. rewrite Hc, Hk. cbn [server sent printed].
  now rewrite app_assoc.
Qed.

Lemma offline_bind_raise {A B} (c : M A) (k : A -> M B) e o1 :
  offline c (Raise e) o1 -> offline (bind c k) (Raise e) o1.
Proof. intros Hc w. unfold bind. now rewrite Hc. Qed.

Lemma is_offline_bind {A B} (c : M A) (k : A -> M B) :
  is_offline c -> (forall a, is_offline (k a)) -> is_offline (bind c k).
Proof.
  intros ([a|e] & o1 & Hc) Hk.
  - destruct (Hk a) as (r & o2 & Hka). exists r, (o1 ++ o2).
    now apply offline_bind with a.
  - exists (Raise e), o1. now apply offline_bind_raise.
Qed.

Lemma is_offline_ret {A} (a : A) : is_offline (ret a).
Proof. eexists. eexists. apply offline_ret. Qed.

Lemma is_offline_lift {A} (r : result A) : is_offline (lift r).
Proof. eexists. eexists. apply offline_lift. Qed.

Lemma is_offline_print (o : Out) : is_offline (print o).
Proof. eexists. eexists. apply offline_print. Qed.

Lemma is_offline_for_each {A} (xs : list A) (body : A -> M unit) :
  (forall x, is_offline (body x)) -> is_offline (for_each xs body).
Proof.
  intros Hb. induction xs as [|x xs IH]; cbn [for_each].
  - apply is_offline_ret.
  - apply is_offline_bind; [apply Hb|intros _; exact IH].
Qed.

Lemma is_offline_collect_file cmd v cls f : is_offline (collect_file cmd v cls f).
Proof.
  unfold collect_file. apply is_offline_bind; [apply is_offline_lift|].
  intros cs. apply is_offline_bind; [|intros _; apply is_offline_ret].
  destruct cmd; [|apply is_offline_ret].
  destruct cs as [|c cs]; [apply is_offline_ret|].
  apply is_offline_bind; [apply is_offline_lift|]. intros relp.
  apply is_offline_bind; [apply is_offline_print|]. intros _.
  apply is_offline_for_each. intros x. apply is_offline_print.
Qed.

Lemma is_offline_collect_files cmd v cls files :
  is_offline (collect_files cmd v cls files).
Proof.
  induction files as [|f files IH]; cbn [collect_files]; [apply is_offline_ret|].
  apply is_offline_bind; [apply is_offline_collect_file|]. intros cs.
  apply is_offline_bind; [exact IH|]. intros more. apply is_offline_ret.
Qed.

Lemma is_offline_collect_classes cmd v classes :
  is_offline (collect_classes cmd v classes).
Proof.
  induction classes as [|cls classes IH]; cbn [collect_classes];
    [apply is_offline_ret|].
  apply is_offline_bind.
  - destruct (class_dir v cls); [apply is_offline_collect_files|].
    apply is_offline_bind; [apply is_offline_print|].
    intros _. apply is_offline_ret.
  - intros cs. apply is_offline_bind; [exact IH|]. intros more. apply is_offline_ret.
Qed.

(** In preview mode the note loop only prints. *)
Lemma dry_run_notes (cs : list Card) :
  offline (for_each cs (fun c => add_or_update_basic_note c true)) (Ok tt)
          (List.map dry_run_line cs).
Proof.
  induction cs as [|c cs IH]; cbn [for_each List.map].
  - apply offline_ret.
  - change (dry_run_line c :: List.map dry_run_line cs)
      with ([dry_run_line c] ++ List.map dry_run_line cs).
    apply offline_bind with tt; [|exact IH].
    unfold add_or_update_basic_note.
    change [dry_run_line c] with ([] ++ [dry_run_line c]).
    apply offline_bind with None; [apply offline_ret|apply offline_print].
Qed.

Lemma dry_run_sync_cards (cs : list Card) :
  offline (sync_cards cs true) (Ok tt) (List.map dry_run_line cs).
Proof.
  unfold sync_cards. cbn [negb].
  change (List.map dry_run_line cs) with ([] ++ List.map dry_run_line cs).
  apply offline_bind with tt; [apply offline_ret|apply dry_run_notes].
Qed.

Lemma is_offline_main_dry_run v classes : is_offline (main sync v classes true).
Proof.
  unfold main. destruct (negb (vault_exists v)).
  - apply is_offline_bind; [apply is_offline_print|]. intros _. apply is_offline_ret.
  - apply is_offline_bind; [apply is_offline_collect_classes|]. intros cs.
    apply is_offline_bind; [apply is_offline_print|]. intros _.
    apply is_offline_bind; [|intros _; apply is_offline_ret].
    eexists. eexists. apply dry_run_sync_cards.
Qed.

End Offline.

(** C7. In preview mode a sync run posts nothing at all, so none of the
    deck-creation, note-creation, field-update and label-addition calls is
    issued, and the remote state is as before; the note loop prints one
    line for each card, naming the creation it would attempt. *)
Theorem dry_run_posts_nothing :
  forall (E : Environment) (v : Vault) (classes : list str) (cs : list Card)
         (w : World),
    server (snd (main sync v classes true w)) = server w
    /\ sent (snd (main sync v classes true w)) = sent w
    /\ sync_cards cs true w
       = (Ok tt, mkWorld (server w) (sent w)
                         (printed w ++ List.map dry_run_line cs)).
Proof.
  intros E v classes cs w. split; [|split].
  - destruct (is_offline_main_dry_run v classes) as (r & outs & H).
    now rewrite H.
  - destruct (is_offline_main_dry_run v classes) as (r & outs & H).
    now rewrite H.
  - apply dry_run_sync_cards.
Qed.

(** C8, as the code has it. A call raises exactly when it gets no
    response, a status from 400 to 599, a body that is not a JSON object,
    or a truthy error field; in a run, such a reply is the last exchange
    and the run ends with an exception. *)
Theorem failed_call_raises_and_stops :
  forall (E : Environment) (action : str) (params : option json)
         (cmd : Command) (v : Vault) (classes : list str) (dry_run : bool)
         (w : World),
    is_ok (fst (ankiconnect action params w))
    = negb (reply_fails (fst (post (request_payload action params) (server w))))
    /\ exists new,
         sent (snd (main cmd v classes dry_run w)) = sent w ++ new
         /\ forall before x after,
              new = before ++ x :: after ->
              reply_fails (snd x) = true ->
              after = [] /\ exists e, fst (main cmd v classes dry_run w) = Raise e.
Proof.
  intros E action params cmd v classes dry_run w. split.
  - rewrite ankiconnect_run. cbn [fst]. apply reply_value_ok.
  - destruct (disciplined_main cmd v classes dry_run w) as (new & Hs & Hf).
    exists new. split; [exact Hs|].
    intros before x after -> Hx.
    assert (Hbad : ~ Forall good_exchange (before ++ x :: after)).
    { intros H. apply Forall_app in H as [_ H]. inversion H as [|? ? Hg _]; subst.
      unfold good_exchange in Hg. congruence. }
    destruct (fst (main cmd v classes dry_run w)) as [z|e]; cbn [fail_stop] in Hf;
      [contradiction|].
    split; [|now exists e].
    destruct after as [|y after]; [reflexivity|]. exfalso.
    rewrite removelast_app in Hf by discriminate.
    apply Forall_app in Hf as [_ Hf]. cbn [removelast] in Hf.
    inversion Hf as [|? ? Hg _]; subst. unfold good_exchange in Hg. congruence.
Qed.

(** C8 as stated fails for a status outside 200..299 that is not an
    error status: on status 300 with a JSON body without error the call
    returns and the run goes on to its end. *)
Lemma multiple_choices_reply_is_absorbed :
  let reply :=
    Response 300 (Some (JObj [(lit "result", JArr []); (lit "error", JNull)])) in
  let run :=
    main sync (ex_vault_fs ex_two_markers) [lit "math250"] false
         ex_multiple_choices_world in
  non_2xx 300 = true
  /\ claimed_failure reply = true
  /\ fst (post (find_payload (lit "t")) (server ex_multiple_choices_world)) = reply
  /\ fst (ankiconnect (lit "findNotes") (Some (find_params (lit "t")))
             ex_multiple_choices_world) = Ok (JArr [])
  /\ fst run = Ok 0%Z
  /\ actions_of (sent (snd run)) = [lit "createDeck"; lit "findNotes"; lit "addNote"]
  /\ List.map snd (sent (snd run)) = [reply; reply; reply].
Proof.
  intros reply run.
  split; [reflexivity|]. split; [reflexivity|]. split; [reflexivity|].
  split; [reflexivity|]. repeat split; vm_compute; reflexivity.
Qed.

Lemma failed_call_raises_and_stops_witness :
  exists e,
    fst (main sync (ex_vault_fs ex_same_question_twice) [lit "math250"] false ex_world)
    = Raise e.
Proof.
  destruct (failed_call_raises_and_stops ex_env (lit "findNotes") None sync
              (ex_vault_fs ex_same_question_twice) [lit "math250"] false ex_world)
    as (_ & new & Hs & H).
  change (sent ex_world) with (@nil (json * HttpOutcome)) in Hs.
  cbn [app] in Hs.
  refine (proj2 (H (removelast new) (last new (JNull, NoResponse)) [] _ _)).
  - rewrite <- Hs. vm_compute. reflexivity.
  - rewrite <- Hs. vm_compute. reflexivity.
Defined.

(* ===================================================================== *)
(** * Re-running a sync *)
(* ===================================================================== *)

Lemma action_of_request (action : str) (params : option json) :
  action_of (request_payload action params) = action.
Proof. reflexivity. Qed.

Section Labels.

Context {E : Environment}.
Variable carries : rstate -> str -> Prop.

(** What the client relies on of the application: labels are never
    taken away, a search by label answers with note ids exactly when a
    note carries the label, and a created note carries the labels it
    was created with. *)
Hypothesis post_keeps :
  forall p s t, carries s t -> carries (snd (post p s)) t.
Hypothesis find_sound :
  forall t s v,
    reply_value (lit "findNotes") (fst (post (find_payload t) s)) = Ok v ->
    json_truthy v = true ->
    carries (snd (post (find_payload t) s)) t.
Hypothesis find_complete :
  forall t s v,
    carries s t ->
    reply_value (lit "findNotes") (fst (post (find_payload t) s)) = Ok v ->
    exists id rest, v = JArr (JNum id :: rest).
Hypothesis add_stores :
  forall c s v t,
    reply_value (lit "addNote") (fst (post (add_payload c) s)) = Ok v ->
    In t (tags c) ->
    carries (snd (post (add_payload c) s)) t.

Lemma keeps_ret {A} (a : A) : keeps carries (ret a).
Proof. intros w t H. exact H. Qed.

Lemma keeps_raise {A} (e : Exn) : keeps carries (@raise _ A e).
Proof. intros w t H. exact H. Qed.

Lemma keeps_lift {A} (r : result A) : keeps carries (lift r).
Proof. intros w t H. exact H. Qed.

Lemma keeps_print (o : Out) : keeps carries (print o).
Proof. intros w t H. exact H. Qed.

Lemma keeps_ankiconnect action params : keeps carries (ankiconnect action params).
Proof. intros w t H. rewrite ankiconnect_run. cbn. now apply post_keeps. Qed.

Lemma keeps_bind {A B} (c : M A) (k : A -> M B) :
  keeps carries c -> (forall a, keeps carries (k a)) -> keeps carries (bind c k).
Proof.
  intros Hc Hk w t H. unfold bind. specialize (Hc w t H).
  destruct (c w) as [[a|e] w1]; cbn [snd] in *; [now apply Hk|assumption].
Qed.

Lemma keeps_for_each {A} (xs : list A) (body : A -> M unit) :
  (forall x, keeps carries (body x)) -> keeps carries (for_each xs body).
Proof.
  intros Hb. induction xs as [|x xs IH]; cbn [for_each].
  - apply keeps_ret.
  - apply keeps_bind; [apply Hb|intros _; exact IH].
Qed.

Lemma keeps_find (t : str) : keeps carries (find_note_id_by_tag t).
Proof.
  unfold find_note_id_by_tag. apply keeps_bind; [apply keeps_ankiconnect|].
  intros r. destruct (negb _); [apply keeps_ret|].
  apply keeps_bind; [apply keeps_lift|]. intros x.
  apply keeps_bind; [apply keeps_lift|]. intros z. apply keeps_ret.
Qed.

Lemma keeps_add_or_update (c : Card) (dry_run : bool) :
  keeps carries (add_or_update_basic_note c dry_run).
Proof.
  unfold add_or_update_basic_note. apply keeps_bind.
  - destruct dry_run; [apply keeps_ret|apply keeps_find].
  - intros [id|]; destruct dry_run; try apply keeps_print.
    + apply keeps_bind; [apply keeps_ankiconnect|]. intros _.
      apply keeps_bind; [apply keeps_ankiconnect|]. intros _. apply keeps_print.
    + apply keeps_bind; [apply keeps_ankiconnect|]. intros res. apply keeps_print.
Qed.

Lemma keeps_ensure_deck (d : str) : keeps carries (ensure_deck d).
Proof.
  unfold ensure_deck. apply keeps_bind; [apply keeps_ankiconnect|].
  intros _. apply keeps_ret.
Qed.

Lemma find_run (t : str) (w : World) :
  find_note_id_by_tag t w
  = (match reply_value (lit "findNotes") (fst (post (find_payload t) (server w))) with
     | Raise e => Raise e
     | Ok v =>
         if json_truthy v
         then let? x := subscript0 v in let? z := py_int x in Ok (Some z)
         else Ok None
     end, exchange (find_payload t) w).
Proof.
  unfold find_note_id_by_tag, bind. rewrite ankiconnect_run.
  fold (find_payload t).
  destruct (reply_value (lit "findNotes") _) as [v|e]; [|reflexivity].
  destruct (json_truthy v) eqn:Hv; cbn [negb json_truthy truthy].
  - rewrite Hv. cbn [negb]. unfold lift, ret.
    destruct (subscript0 v) as [x|e]; cbn [bind_result]; [|reflexivity].
    destruct (py_int x) as [z|e]; reflexivity.
  - reflexivity.
Qed.

Lemma not_creation_find t r : not_creation (find_payload t, r).
Proof. reflexivity. Qed.

Lemma not_creation_update id f b r :
  not_creation (request_payload (lit "updateNoteFields") (Some (update_params id f b)), r).
Proof. reflexivity. Qed.

Lemma not_creation_add_tags id ts r :
  not_creation (request_payload (lit "addTags") (Some (add_tags_params id ts)), r).
Proof. reflexivity. Qed.

Lemma not_creation_create_deck d r :
  not_creation (request_payload (lit "createDeck")
                  (Some (JObj [(lit "deck", JStr d)])), r).
Proof. reflexivity. Qed.

(** With the label on a note, the lookup finds it and the card is
    updated: no creation is posted. *)
Lemma update_when_carried (c : Card) (w w' : World) (r : result unit) :
  carries (server w) (stable_tag c) ->
  add_or_update_basic_note c false w = (r, w') ->
  exists new,
    sent w' = sent w ++ new
    /\ Forall not_creation new
    /\ (is_ok r = true -> actions_of new = update_actions).
Proof.
  intros Hc H. unfold add_or_update_basic_note in H. unfold bind at 1 in H.
  rewrite find_run in H.
  destruct (reply_value (lit "findNotes") _) as [v|e] eqn:Hv.
  - destruct (find_complete _ _ _ Hc Hv) as (id & rest & Hid). rewrite Hid in H.
    cbn [json_truthy truthy subscript0 py_int bind_result] in H.
    unfold bind at 1 in H. rewrite ankiconnect_run in H.
    destruct (reply_value (lit "updateNoteFields") _) as [v1|e1].
    + unfold bind at 1 in H. rewrite ankiconnect_run in H.
      destruct (reply_value (lit "addTags") _) as [v2|e2];
        apply pair_equal_spec in H as [<- <-];
        (eexists; split;
         [cbn [print exchange sent snd]; rewrite <- !app_assoc; reflexivity|]);
        (split; [cbn [app]; repeat constructor|]);
        [reflexivity|discriminate].
    + apply pair_equal_spec in H as [<- <-].
      eexists. split; [cbn [exchange sent snd]; rewrite <- !app_assoc; reflexivity|].
      split; [cbn [app]; repeat constructor|discriminate].
  - apply pair_equal_spec in H as [<- <-].
    eexists. split; [cbn [exchange sent snd]; reflexivity|].
    split; [repeat constructor|discriminate].
Qed.

(** After a card has been added or updated, a note carries its label. *)
Lemma carried_after_sync (c : Card) (w w' : World) (u : unit) :
  own_label c ->
  add_or_update_basic_note c false w = (Ok u, w') ->
  carries (server w') (stable_tag c).
Proof.
  intros Hown H. unfold add_or_update_basic_note in H. unfold bind at 1 in H.
  rewrite find_run in H.
  destruct (reply_value (lit "findNotes") _) as [v|e] eqn:Hv;
    [|apply pair_equal_spec in H as [H _]; discriminate].
  destruct (json_truthy v) eqn:Ht.
  - pose proof (find_sound _ _ _ Hv Ht) as Hcar.
    destruct (subscript0 v) as [x|e]; cbn [bind_result] in H;
      [|apply pair_equal_spec in H as [H _]; discriminate].
    destruct (py_int x) as [z|e]; cbn [bind_result] in H;
      [|apply pair_equal_spec in H as [H _]; discriminate].
    pose proof (keeps_bind _ _ (keeps_ankiconnect (lit "updateNoteFields")
                                  (Some (update_params z (front c) (back c))))
                  (fun _ => keeps_bind _ _
                     (keeps_ankiconnect (lit "addTags")
                        (Some (add_tags_params z (join (lit " ") (tags c)))))
                     (fun _ => keeps_print (Updated z (deck c) (stable_tag c))))
                  (exchange (find_payload (stable_tag c)) w) (stable_tag c) Hcar)
      as Hk.
    rewrite H in Hk. exact Hk.
  - unfold bind at 1 in H. rewrite ankiconnect_run in H.
    fold (add_payload c) in H.
    destruct (reply_value (lit "addNote") _) as [res|e] eqn:Hadd;
      [|apply pair_equal_spec in H as [H _]; discriminate].
    apply pair_equal_spec in H as [_ <-]. cbn [print snd server exchange].
    exact (add_stores _ _ _ _ Hadd Hown).
Qed.

Lemma actions_of_app (a b : list (json * HttpOutcome)) :
  actions_of (a ++ b) = actions_of a ++ actions_of b.
Proof. unfold actions_of. apply map_app. Qed.

Lemma keeps_run {A} (c : M A) (w w' : World) (r : result A) (t : str) :
  keeps carries c -> c w = (r, w') -> carries (server w) t -> carries (server w') t.
Proof. intros Hk H Hc. specialize (Hk w t Hc). now rewrite H in Hk. Qed.

(** After a completed note loop every card's label is carried. *)
Lemma carried_after_notes (cs : list Card) :
  Forall own_label cs ->
  forall w w' u,
    for_each cs (fun c => add_or_update_basic_note c false) w = (Ok u, w') ->
    Forall (fun c => carries (server w') (stable_tag c)) cs.
Proof.
  induction 1 as [|c cs Hown _ IH]; intros w w' u H; [constructor|].
  cbn [for_each] in H. unfold bind at 1 in H.
  destruct (add_or_update_basic_note c false w) as [[u1|e] w1] eqn:Hc;
    [|apply pair_equal_spec in H as [H _]; discriminate].
  constructor.
  - apply (keeps_run _ _ _ _ _
             (keeps_for_each _ _ (fun c => keeps_add_or_update c false)) H).
    exact (carried_after_sync _ _ _ _ Hown Hc).
  - exact (IH _ _ _ H).
Qed.

(** With every label carried, the note loop posts no creation. *)
Lemma notes_updated (cs : list Card) :
  forall w w' r,
    Forall (fun c => carries (server w) (stable_tag c)) cs ->
    for_each cs (fun c => add_or_update_basic_note c false) w = (r, w') ->
    exists new,
      sent w' = sent w ++ new
      /\ Forall not_creation new
      /\ (is_ok r = true ->
          actions_of new = flat_map (fun _ => update_actions) cs).
Proof.
  induction cs as [|c cs IH]; intros w w' r Hall H.
  - apply pair_equal_spec in H as [<- <-]. exists [].
    split; [now rewrite app_nil_r|]. split; [constructor|reflexivity].
  - inversion Hall as [|? ? Hc Hcs]; subst.
    cbn [for_each] in H. unfold bind at 1 in H.
    destruct (add_or_update_basic_note c false w) as [[u1|e] w1] eqn:Hrun.
    + destruct (update_when_carried _ _ _ _ Hc Hrun) as (new1 & Hs1 & Hn1 & Ha1).
      assert (Hall1 : Forall (fun c => carries (server w1) (stable_tag c)) cs).
      { eapply Forall_impl; [|exact Hcs]. intros c' Hc'.
        exact (keeps_run _ _ _ _ _ (keeps_add_or_update c false) Hrun Hc'). }
      destruct (IH _ _ _ Hall1 H) as (new2 & Hs2 & Hn2 & Ha2).
      exists (new1 ++ new2). split; [rewrite Hs2, Hs1; now rewrite app_assoc|].
      split; [apply Forall_app; split; assumption|].
      intros Hok. rewrite actions_of_app, (Ha1 eq_refl), (Ha2 Hok). reflexivity.
    + apply pair_equal_spec in H as [<- <-].
      destruct (update_when_carried _ _ _ _ Hc Hrun) as (new1 & Hs1 & Hn1 & _).
      exists new1. split; [assumption|]. split; [assumption|discriminate].
Qed.

Lemma decks_created (ds : list str) :
  forall w w' r,
    for_each ds ensure_deck w = (r, w') ->
    exists new,
      sent w' = sent w ++ new
      /\ Forall not_creation new
      /\ (is_ok r = true ->
          actions_of new = List.map (fun _ => lit "createDeck") ds).
Proof.
  induction ds as [|d ds IH]; intros w w' r H.
  - apply pair_equal_spec in H as [<- <-]. exists [].
    split; [now rewrite app_nil_r|]. split; [constructor|reflexivity].
  - cbn [for_each] in H. unfold bind at 1 in H.
    unfold ensure_deck at 1 in H. unfold bind at 1 in H.
    rewrite ankiconnect_run in H.
    destruct (reply_value (lit "createDeck") _) as [v|e].
    + cbn [ret] in H. destruct (IH _ _ _ H) as (new2 & Hs2 & Hn2 & Ha2).
      eexists (_ :: new2).
      split; [rewrite Hs2; cbn [exchange sent]; rewrite <- app_assoc; reflexivity|].
      split; [constructor; [apply not_creation_create_deck|assumption]|].
      intros Hok. cbn [actions_of List.map]. f_equal. exact (Ha2 Hok).
    + apply pair_equal_spec in H as [<- <-].
      eexists [_]. split; [reflexivity|].
      split; [constructor; [apply not_creation_create_deck|constructor]|discriminate].
Qed.

(** A sync that follows a completed sync of cards with the same
    identifiers posts no creation; when it completes, it has looked up
    and updated every card. *)
Lemma resync_updates (cs1 cs2 : list Card) (w0 w1 : World) (u : unit) :
  Forall own_label cs1 ->
  incl (List.map stable_tag cs2) (List.map stable_tag cs1) ->
  sync_cards cs1 false w0 = (Ok u, w1) ->
  forall w w' r,
    server w = server w1 ->
    sync_cards cs2 false w = (r, w') ->
    exists new,
      sent w' = sent w ++ new
      /\ Forall not_creation new
      /\ (is_ok r = true ->
          actions_of new
          = List.map (fun _ => lit "createDeck") (sorted_set (List.map deck cs2))
            ++ flat_map (fun _ => update_actions) cs2).
Proof.
  intros Hown Hincl H1 w w' r Hsrv H2.
  unfold sync_cards in H1, H2. cbn [negb] in H1, H2.
  unfold bind at 1 in H1. unfold bind at 1 in H2.
  destruct (for_each (sorted_set (List.map deck cs1)) ensure_deck w0)
    as [[u1|e1] wa] eqn:Hd1; [|apply pair_equal_spec in H1 as [H1 _]; discriminate].
  pose proof (carried_after_notes _ Hown _ _ _ H1) as Hcar.
  assert (Hcar2 : Forall (fun c => carries (server w) (stable_tag c)) cs2).
  { apply Forall_forall. intros c Hc. rewrite Hsrv.
    assert (Hin : In (stable_tag c) (List.map stable_tag cs1))
      by (apply Hincl; now apply in_map).
    apply in_map_iff in Hin as (c1 & Heq & Hin1).
    rewrite Forall_forall in Hcar. rewrite <- Heq. now apply Hcar. }
  destruct (for_each (sorted_set (List.map deck cs2)) ensure_deck w)
    as [[u2|e2] wb] eqn:Hd2.
  - destruct (decks_created _ _ _ _ Hd2) as (newd & Hsd & Hnd & Had).
    assert (Hcar3 : Forall (fun c => carries (server wb) (stable_tag c)) cs2).
    { eapply Forall_impl; [|exact Hcar2]. intros c' Hc'.
      exact (keeps_run _ _ _ _ _ (keeps_for_each _ _ keeps_ensure_deck) Hd2 Hc'). }
    destruct (notes_updated _ _ _ _ Hcar3 H2) as (newn & Hsn & Hnn & Han).
    exists (newd ++ newn). split; [rewrite Hsn, Hsd; now rewrite app_assoc|].
    split; [apply Forall_app; split; assumption|].
    intros Hok. rewrite actions_of_app, (Had eq_refl), (Han Hok). reflexivity.
  - apply pair_equal_spec in H2 as [<- <-].
    destruct (decks_created _ _ _ _ Hd2) as (newd & Hsd & Hnd & _).
    exists newd. split; [assumption|]. split; [assumption|discriminate].
Qed.

End Labels.

(* ===================================================================== *)
(** * The reference application keeps the client's assumptions *)
(* ===================================================================== *)

Lemma json_strs_map (l : list str) : json_strs (List.map JStr l) = Some l.
Proof.
  induction l as [|x l IH]; cbn [List.map json_strs]; [reflexivity|].
  now rewrite IH.
Qed.

Lemma has_tag_in (t : str) (n : Note) : has_tag t n = true <-> In t (note_tags n).
Proof.
  unfold has_tag. rewrite existsb_exists. split.
  - intros (x & Hin & Heq). apply str_eqb_eq in Heq. now subst.
  - intros Hin. exists t. split; [assumption|apply str_eqb_refl].
Qed.

Lemma add_label_keeps (labels : list str) (x t : str) :
  In t labels -> In t (add_label labels x).
Proof.
  intros H. unfold add_label. destruct (existsb (str_eqb x) labels); [assumption|].
  apply in_or_app. now left.
Qed.

Lemma add_labels_keeps (ts : list str) (n : Note) (t : str) :
  In t (note_tags n) -> In t (note_tags (add_labels ts n)).
Proof.
  unfold add_labels. cbn [note_tags]. generalize (note_tags n) as labels.
  induction ts as [|x ts IH]; intros labels H; cbn [fold_left]; [assumption|].
  apply IH. now apply add_label_keeps.
Qed.

Lemma labelled_map (f : Note -> Note) (s s' : Anki) (t : str) :
  anki_notes s' = List.map f (anki_notes s) ->
  (forall n, In t (note_tags n) -> In t (note_tags (f n))) ->
  labelled s t -> labelled s' t.
Proof.
  intros Hs Hf (n & Hin & Ht). exists (f n). split; [|now apply Hf].
  rewrite Hs. now apply in_map.
Qed.

Lemma labelled_same (s s' : Anki) (t : str) :
  anki_notes s' = anki_notes s -> labelled s t -> labelled s' t.
Proof. intros Hs (n & Hin & Ht). exists n. now rewrite Hs. Qed.

Lemma labelled_more (s s' : Anki) (extra : list Note) (t : str) :
  anki_notes s' = anki_notes s ++ extra -> labelled s t -> labelled s' t.
Proof.
  intros Hs (n & Hin & Ht). exists n. rewrite Hs. split; [|assumption].
  apply in_or_app. now left.
Qed.

Ltac case_reply :=
  repeat match goal with
    | |- context [match ?x with _ => _ end] =>
        match type of x with
        | json => destruct x
        | option _ => destruct x
        | bool => destruct x
        end
    | |- context [if ?x then _ else _] => destruct x
    end.

Lemma anki_action_keeps (a : str) (ps : list (str * json)) (s : Anki) (t : str) :
  labelled s t -> labelled (snd (anki_action a ps s)) t.
Proof.
  intros H. unfold anki_action.
  destruct (str_eqb a (lit "createDeck")).
  { case_reply; cbn [snd]; assumption. }
  destruct (str_eqb a (lit "findNotes")).
  { case_reply; cbn [snd]; assumption. }
  destruct (str_eqb a (lit "addNote")).
  { case_reply; cbn [snd]; try assumption.
    eapply labelled_more; [|exact H]. reflexivity. }
  destruct (str_eqb a (lit "updateNoteFields")).
  { case_reply; cbn [snd]; try assumption.
    eapply labelled_map; [reflexivity| |exact H].
    intros n Hn. cbn beta. destruct (note_id n =? _)%Z; [exact Hn|exact Hn]. }
  destruct (str_eqb a (lit "addTags")).
  { case_reply; cbn [snd]; try assumption.
    eapply labelled_map; [reflexivity| |exact H].
    intros n Hn. cbn beta. destruct (existsb _ _); [now apply add_labels_keeps|exact Hn]. }
  exact H.
Qed.

Section ReferenceServer.

Variables (to_int : str -> result Z) (refuses : json -> Anki -> bool).

Lemma anki_post_keeps (p : json) (s : Anki) (t : str) :
  labelled s t -> labelled (snd (anki_post refuses p s)) t.
Proof.
  intros H. unfold anki_post. destruct (refuses p s); [exact H|].
  destruct p as [| | | | |fields]; try exact H.
  destruct (dict_get fields (lit "action")); try exact H.
  destruct (dict_get fields (lit "params")); try exact H.
  now apply anki_action_keeps.
Qed.

Lemma anki_post_find (t : str) (s : Anki) :
  anki_post refuses (find_payload t) s
  = if refuses (find_payload t) s then (reply_error (lit "refused"), s)
    else (reply (JArr (List.map (fun n => JNum (note_id n))
                         (filter (has_tag t) (anki_notes s)))), s).
Proof. unfold anki_post. destruct (refuses _ _); reflexivity. Qed.

Lemma anki_post_add (c : Card) (s : Anki) :
  anki_post refuses (add_payload c) s
  = if refuses (add_payload c) s then (reply_error (lit "refused"), s)
    else if existsb (str_eqb (deck c)) (anki_decks s) then
      (reply (JNum (anki_next_id s)),
       mkAnki (anki_decks s)
              (anki_notes s
               ++ [mkNote (anki_next_id s) (deck c) (front c) (back c) (tags c)])
              (anki_next_id s + 1))
    else (reply_error (lit "deck was not found"), s).
Proof.
  unfold anki_post. destruct (refuses _ _); [reflexivity|].
  unfold add_payload, request_payload, add_params, note_fields.
  change (json_truthy (JObj ?l)) with (truthy l). cbn [truthy].
  set (ts := List.map JStr (tags c)).
  assert (Hts : json_strs ts = Some (tags c)) by apply json_strs_map.
  clearbody ts.
  match goal with
  | |- ?lhs = _ =>
      change lhs with
        (match json_strs ts with
         | Some labels =>
             if existsb (str_eqb (deck c)) (anki_decks s) then
               (reply (JNum (anki_next_id s)),
                mkAnki (anki_decks s)
                       (anki_notes s
                        ++ [mkNote (anki_next_id s) (deck c) (front c) (back c) labels])
                       (anki_next_id s + 1))
             else (reply_error (lit "deck was not found"), s)
         | None => (reply_error (lit "bad params"), s)
         end)
  end.
  now rewrite Hts.
Qed.

Lemma anki_find_sound (t : str) (s : Anki) (v : json) :
  reply_value (lit "findNotes") (fst (anki_post refuses (find_payload t) s)) = Ok v ->
  json_truthy v = true ->
  labelled (snd (anki_post refuses (find_payload t) s)) t.
Proof.
  rewrite anki_post_find. destruct (refuses _ _); [discriminate|].
  cbn [fst snd]. intros Hv Ht. apply Ok_inj in Hv. subst v.
  cbn [json_truthy] in Ht.
  destruct (filter (has_tag t) (anki_notes s)) as [|n l] eqn:Hf; [discriminate|].
  assert (Hin : In n (filter (has_tag t) (anki_notes s))) by (rewrite Hf; now left).
  apply filter_In in Hin as [Hin Htag]. exists n. split; [assumption|].
  now apply has_tag_in.
Qed.

Lemma anki_find_complete (t : str) (s : Anki) (v : json) :
  labelled s t ->
  reply_value (lit "findNotes") (fst (anki_post refuses (find_payload t) s)) = Ok v ->
  exists id rest, v = JArr (JNum id :: rest).
Proof.
  intros (n & Hin & Ht). rewrite anki_post_find.
  destruct (refuses _ _); [discriminate|].
  cbn [fst]. intros Hv. apply Ok_inj in Hv. subst v.
  assert (Hf : In n (filter (has_tag t) (anki_notes s))).
  { apply filter_In. split; [assumption|now apply has_tag_in]. }
  destruct (filter (has_tag t) (anki_notes s)) as [|n0 l]; [contradiction|].
  cbn [List.map]. eexists. eexists. reflexivity.
Qed.

Lemma anki_add_stores (c : Card) (s : Anki) (v : json) (t : str) :
  reply_value (lit "addNote") (fst (anki_post refuses (add_payload c) s)) = Ok v ->
  In t (tags c) ->
  labelled (snd (anki_post refuses (add_payload c) s)) t.
Proof.
  rewrite anki_post_add. destruct (refuses _ _); [discriminate|].
  destruct (existsb _ _); [|discriminate].
  cbn [fst snd]. intros _ Ht.
  exists (mkNote (anki_next_id s) (deck c) (front c) (back c) (tags c)).
  split; [|exact Ht]. cbn [anki_notes]. apply in_or_app. right. now left.
Qed.

End ReferenceServer.

(* ===================================================================== *)
(** * Properties of a sync against the reference application *)
(* ===================================================================== *)

Section Collecting.

Context {E : Environment}.

Lemma collect_file_own cmd v cls f w cs w' :
  collect_file cmd v cls f w = (Ok cs, w') -> Forall own_label cs.
Proof.
  unfold collect_file. unfold bind at 1. unfold lift at 1.
  destruct (extract_cards_from_markdown _ _ _ _ _) as [cs0|e] eqn:Hx;
    [|intros H; apply pair_equal_spec in H as [H _]; discriminate].
  unfold bind at 1.
  match goal with |- context [match ?c w with _ => _ end] => destruct (c w) as [[u|e] w1] end;
    intros H; apply pair_equal_spec in H as [H _]; [|discriminate].
  apply Ok_inj in H. subst cs0.
  apply emitted_tags in Hx. eapply Forall_impl; [|exact Hx]. now intros c [_ Hc].
Qed.

Lemma collect_files_own cmd v cls files :
  forall w cs w', collect_files cmd v cls files w = (Ok cs, w') -> Forall own_label cs.
Proof.
  induction files as [|f files IH]; intros w cs w' H; cbn [collect_files] in H.
  - apply pair_equal_spec in H as [H _]. apply Ok_inj in H. subst. constructor.
  - unfold bind at 1 in H.
    destruct (collect_file cmd v cls f w) as [[cs1|e] w1] eqn:H1;
      [|apply pair_equal_spec in H as [H _]; discriminate].
    unfold bind at 1 in H.
    destruct (collect_files cmd v cls files w1) as [[cs2|e] w2] eqn:H2;
      apply pair_equal_spec in H as [H _]; [|discriminate].
    apply Ok_inj in H. subst cs. apply Forall_app. split.
    + exact (collect_file_own _ _ _ _ _ _ _ H1).
    + exact (IH _ _ _ H2).
Qed.

Lemma collect_classes_own cmd v classes :
  forall w cs w', collect_classes cmd v classes w = (Ok cs, w') -> Forall own_label cs.
Proof.
  induction classes as [|cls classes IH]; intros w cs w' H;
    cbn [collect_classes] in H.
  - apply pair_equal_spec in H as [H _]. apply Ok_inj in H. subst. constructor.
  - unfold bind at 1 in H.
    match type of H with
    | context [match ?c w with _ => _ end] => destruct (c w) as [[cs1|e] w1] eqn:H1
    end; [|apply pair_equal_spec in H as [H _]; discriminate].
    unfold bind at 1 in H.
    destruct (collect_classes cmd v classes w1) as [[cs2|e] w2] eqn:H2;
      apply pair_equal_spec in H as [H _]; [|discriminate].
    apply Ok_inj in H. subst cs. apply Forall_app. split; [|exact (IH _ _ _ H2)].
    destruct (class_dir v cls) as [files|].
    + exact (collect_files_own _ _ _ _ _ _ _ H1).
    + unfold bind, print, ret in H1. apply pair_equal_spec in H1 as [H1 _].
      apply Ok_inj in H1. subst. constructor.
Qed.

(** A sync run on an existing vault: the collected cards, then
    [sync_cards] on them from a world with the same server and the same
    exchanges. *)
Lemma main_sync_run v classes rc outs :
  offline (collect_classes sync v classes) rc outs ->
  vault_exists v = true ->
  forall w r w',
    main sync v classes false w = (r, w') ->
    match rc with
    | Raise e => sent w' = sent w /\ server w' = server w /\ is_ok r = false
    | Ok cs =>
        Forall own_label cs
        /\ exists wa rs,
             server wa = server w /\ sent wa = sent w
             /\ sync_cards cs false wa = (rs, w') /\ is_ok r = is_ok rs
    end.
Proof.
  intros Hoff Hv w r w' H. unfold main in H. rewrite Hv in H. cbn [negb] in H.
  unfold bind at 1 in H. pose proof (Hoff w) as Hc. rewrite Hc in H.
  destruct rc as [cs|e].
  - split; [exact (collect_classes_own _ _ _ _ _ _ Hc)|].
    unfold bind at 1 in H. cbn [print] in H. unfold bind at 1 in H.
    match type of H with
    | context [sync_cards cs false ?wa] =>
        exists wa; destruct (sync_cards cs false wa) as [[u|e] wb] eqn:Hs
    end.
    + apply pair_equal_spec in H as [<- <-]. exists (Ok u).
      repeat split; reflexivity.
    + apply pair_equal_spec in H as [<- <-]. exists (Raise e).
      repeat split; reflexivity.
  - apply pair_equal_spec in H as [<- <-]. repeat split; reflexivity.
Qed.

Lemma main_no_vault cmd v classes dry_run w :
  vault_exists v = false ->
  sent (snd (main cmd v classes dry_run w)) = sent w.
Proof. intros Hv. unfold main. rewrite Hv. reflexivity. Qed.

End Collecting.

(** ** The scanner under an edit of answers *)




Section ReferenceRuns.

Variables (to_int : str -> result Z) (refuses : json -> Anki -> bool).

Local Abbreviation env := (anki_env to_int refuses).

Lemma resync_reference (cs1 cs2 : list Card) (w0 w1 : @World env) (u : unit) :
  Forall own_label cs1 ->
  incl (List.map stable_tag cs2) (List.map stable_tag cs1) ->
  @sync_cards env cs1 false w0 = (Ok u, w1) ->
  forall w w' r,
    server w = server w1 ->
    @sync_cards env cs2 false w = (r, w') ->
    exists new,
      sent w' = sent w ++ new
      /\ Forall not_creation new
      /\ (is_ok r = true ->
          actions_of new
          = List.map (fun _ => lit "createDeck") (sorted_set (List.map deck cs2))
            ++ flat_map (fun _ => update_actions) cs2).
Proof.
  apply (@resync_updates env labelled).
  - apply anki_post_keeps.
  - apply anki_find_sound.
  - apply anki_find_complete.
  - apply anki_add_stores.
Qed.

Lemma found_when_labelled (t : str) (w : @World env) :
  labelled (server w) t ->
  refuses (find_payload t) (server w) = false ->
  exists id, fst (@find_note_id_by_tag env t w) = Ok (Some id).
Proof.
  intros (n & Hin & Ht) Hr. rewrite find_run.
  change (@post env) with (anki_post refuses).
  rewrite anki_post_find, Hr. cbn [fst].
  assert (Hf : In n (filter (has_tag t) (anki_notes (server w)))).
  { apply filter_In. split; [assumption|now apply has_tag_in]. }
  destruct (filter (has_tag t) (anki_notes (server w))) as [|n0 l]; [contradiction|].
  exists (note_id n0). reflexivity.
Qed.

End ReferenceRuns.

(** C4, as the code has it. On a file under the vault whose relative
    path and text can be encoded the scanner returns its cards. It counts
    the question marker lines of the file, whether or not they yield a
    card; each question marker that collects an answer yields one card,
    the cards come out in the order of their markers, and the label of a
    card is the digest label of the relative path, the rank of its marker
    among all the question markers and its question text. *)
Theorem cards_numbered_by_question_marker :
  forall vault relp dk base text,
    (encodable (as_posix relp) -> encodable text ->
     exists cs,
       extract_cards_from_markdown vault (joinpath vault relp) dk base text = Ok cs)
    /\ forall cs,
         extract_cards_from_markdown vault (joinpath vault relp) dk base text = Ok cs ->
         let blocks := question_blocks (splitlines text) in
         List.map fst blocks = filter is_question_line (splitlines text)
         /\ List.length cs = List.length (filter has_answer blocks)
         /\ forall i b,
              nth_error blocks i = Some b ->
              has_answer b = true ->
              exists c raw,
                nth_error cs (List.length (filter has_answer (firstn i blocks)))
                = Some c
                /\ front c = question_text b
                /\ encode (as_posix relp ++ lit "||" ++ str_of_int (N.of_nat i + 1)
                           ++ lit "||" ++ front c) = Ok raw
                /\ stable_tag c
                   = lit "ankivert_id_" ++ firstn 12 (Sha1.hexdigest raw).
Proof.
  intros vault relp dk base text. split.
  - intros Hp Ht. apply scanner_total with relp; [apply relative_to_app| |];
      assumption.
  - intros cs H blocks. split; [apply blocks_are_question_lines|]. split.
    + unfold extract_cards_from_markdown in H. rewrite scan_refines in H.
      apply map_result_forall2, Forall2_length in H.
      unfold answered_blocks in H. rewrite length_filter_number_from in H.
      now symmetry.
    + intros i b Hb Ha. unfold extract_cards_from_markdown in H.
      destruct (emitted_card_of_block _ _ _ _ _ _ H i b Hb Ha)
        as (c & raw & Hn & _ & Hf & _ & _ & He & Ht).
      exists c, raw. rewrite Hf. auto.
Qed.

Lemma cards_numbered_by_question_marker_witness :
  exists c raw,
    extract_cards_from_markdown ex_vault ex_md ex_deck ex_base_tags
      ex_skipped_then_card = Ok [c]
    /\ front c = lit "q"
    /\ encode (lit "math250/cards.md||2||q") = Ok raw
    /\ stable_tag c = lit "ankivert_id_" ++ firstn 12 (Sha1.hexdigest raw).
Proof.
  destruct (cards_numbered_by_question_marker ex_vault [lit "math250"; lit "cards.md"]
              ex_deck ex_base_tags ex_skipped_then_card) as [Htotal Hcards].
  destruct Htotal as [cs Hx].
  - apply encodable_ascii, Forall_forall. intros c Hc.
    apply N.ltb_lt. revert c Hc. apply forallb_forall. vm_compute. reflexivity.
  - apply encodable_ascii, Forall_forall. intros c Hc.
    apply N.ltb_lt. revert c Hc. apply forallb_forall. vm_compute. reflexivity.
  - destruct (Hcards cs Hx) as (_ & Hlen & Hcard).
    destruct (Hcard 1%nat (lit "Q:: q", [lit "A:: one"; lit "A:: two"])
                eq_refl eq_refl) as (c & raw & Hn & Hf & He & Ht).
    exists c, raw.
    change (joinpath ex_vault [lit "math250"; lit "cards.md"]) with ex_md in Hx.
    split.
    + rewrite Hx. f_equal.
      destruct cs as [|x [|y cs]]; try discriminate Hlen.
      cbn in Hn. now injection Hn as ->.
    + rewrite Hf in He. repeat (split; [assumption|]). assumption.
Defined.

(** C4 as stated fails when a question without an answer comes first:
    the only card of the file, the first by appearance, carries the
    label of position 2, which is not the label of position 1. *)
Lemma first_card_is_not_number_one :
  exists c,
    extract_cards_from_markdown ex_vault ex_md ex_deck ex_base_tags
      ex_skipped_then_card = Ok [c]
    /\ front c = lit "q"
    /\ stable_tag c
       = lit "ankivert_id_"
         ++ firstn 12 (Sha1.hexdigest (lit "math250/cards.md||2||q"))
    /\ stable_tag c
       <> lit "ankivert_id_"
          ++ firstn 12 (Sha1.hexdigest (lit "math250/cards.md||1||q")).
Proof.
  eexists. split; [vm_compute; reflexivity|]. cbn [front stable_tag].
  split; [reflexivity|]. split; [vm_compute; reflexivity|].
  vm_compute. discriminate.
Qed.

(** C9. Every card the scanner emits has, as its labels, the base labels
    followed by its own stable identifier label; once the card has been
    added or updated, a note of the application carries that label, and a
    later lookup of the label that the application answers finds a
    note. *)
Theorem emitted_card_carries_its_label :
  forall to_int refuses vault md dk base text cs,
    extract_cards_from_markdown vault md dk base text = Ok cs ->
    forall c, In c cs ->
      tags c = base ++ [stable_tag c]
      /\ In (stable_tag c) (tags c)
      /\ forall (w w' : @World (anki_env to_int refuses)) u,
           @add_or_update_basic_note (anki_env to_int refuses) c false w = (Ok u, w') ->
           labelled (server w') (stable_tag c)
           /\ forall w'' : @World (anki_env to_int refuses),
                labelled (server w'') (stable_tag c) ->
                refuses (find_payload (stable_tag c)) (server w'') = false ->
                exists id,
                  fst (@find_note_id_by_tag (anki_env to_int refuses)
                         (stable_tag c) w'') = Ok (Some id).
Proof.
  intros to_int refuses vault md dk base text cs H c Hin.
  apply emitted_tags in H. rewrite Forall_forall in H.
  destruct (H c Hin) as [Ht Hown].
  split; [assumption|]. split; [exact Hown|].
  intros w w' u Hrun. split.
  - apply (@carried_after_sync (anki_env to_int refuses) labelled
             (anki_post_keeps refuses) (anki_find_sound refuses)
             (anki_add_stores refuses) c w w' u Hown Hrun).
  - intros w'' Hl Hr. now apply found_when_labelled.
Qed.

Lemma emitted_card_carries_its_label_witness :
  exists c id,
    extract_cards_from_markdown ex_vault ex_md ex_deck ex_base_tags ex_two_markers
    = Ok [c]
    /\ In (stable_tag c) (tags c)
    /\ fst (@find_note_id_by_tag ex_env (stable_tag c)
              (snd (@add_or_update_basic_note ex_env c false ex_world_with_deck)))
       = Ok (Some id).
Proof.
  eexists. eexists. split; [vm_compute; reflexivity|].
  match goal with
  | |- In (stable_tag ?c) _ /\ _ =>
      destruct (emitted_card_carries_its_label decimal_int refuses_duplicates
                  ex_vault ex_md ex_deck ex_base_tags ex_two_markers [c]
                  ltac:(vm_compute; reflexivity) c (or_introl eq_refl))
        as (_ & Hown & Hsync)
  end.
  split; [exact Hown|]. vm_compute. reflexivity.
Defined.

(** C2. A second sync of the same vault against the state the first one
    left posts no note creation; when it runs to its end, its exchanges
    are the deck creations followed, for every collected card in order,
    by the lookup of its label and the two update calls. *)
Theorem second_sync_creates_nothing :
  forall to_int refuses (v : Vault) (classes : list str)
         (w0 w1 w2 : @World (anki_env to_int refuses)) (z : Z) (r : result Z),
    @main (anki_env to_int refuses) sync v classes false w0 = (Ok z, w1) ->
    @main (anki_env to_int refuses) sync v classes false w1 = (r, w2) ->
    exists new,
      sent w2 = sent w1 ++ new
      /\ Forall not_creation new
      /\ (vault_exists v = true -> is_ok r = true ->
          exists cs,
            fst (@collect_classes (anki_env to_int refuses) sync v classes w1) = Ok cs
            /\ actions_of new
               = List.map (fun _ => lit "createDeck") (sorted_set (List.map deck cs))
                 ++ flat_map (fun _ => update_actions) cs).
Proof.
  intros to_int refuses v classes w0 w1 w2 z r H1 H2.
  destruct (vault_exists v) eqn:Hv.
  - destruct (@is_offline_collect_classes (anki_env to_int refuses) sync v classes)
      as (rc & outs & Hoff).
    pose proof (main_sync_run _ _ _ _ Hoff Hv _ _ _ H1) as R1.
    pose proof (main_sync_run _ _ _ _ Hoff Hv _ _ _ H2) as R2.
    destruct rc as [cs|e].
    + destruct R1 as (Hown & wa & rs1 & Hsa & _ & Hrun1 & Hok1).
      destruct R2 as (_ & wb & rs2 & Hsb & Htb & Hrun2 & Hok2).
      destruct rs1 as [u|e]; [|discriminate].
      destruct (resync_reference to_int refuses cs cs wa w1 u Hown (incl_refl _)
                  Hrun1 wb w2 rs2 Hsb Hrun2) as (new & Hs & Hn & Ha).
      exists new. split; [now rewrite Hs, Htb|]. split; [assumption|].
      intros _ Hr. exists cs. split; [now rewrite (Hoff w1)|].
      apply Ha. now rewrite <- Hok2.
    + destruct R1 as (_ & _ & R1). discriminate.
  - exists []. rewrite app_nil_r. split.
    + pose proof (main_no_vault sync v classes false w1 Hv) as Hs.
      now rewrite H2 in Hs.
    + split; [constructor|discriminate].
Qed.

Lemma second_sync_creates_nothing_witness :
  let v := ex_vault_fs ex_two_cards in
  let w1 := snd (@main ex_env sync v [lit "math250"] false ex_world) in
  let w2 := snd (@main ex_env sync v [lit "math250"] false w1) in
  actions_of (sent w1)
  = [lit "createDeck"; lit "findNotes"; lit "addNote"; lit "findNotes"; lit "addNote"]
  /\ exists new, sent w2 = sent w1 ++ new /\ Forall not_creation new.
Proof.
  intros v w1 w2. split; [vm_compute; reflexivity|].
  destruct (second_sync_creates_nothing decimal_int refuses_duplicates v
              [lit "math250"] ex_world w1 w2 0%Z (Ok 0%Z))
    as (new & Hs & Hn & _).
  - vm_compute. reflexivity.
  - vm_compute. reflexivity.
  - exists new. split; assumption.
Defined.



(* ===================================================================== *)
(** * More on the stable identifier *)
(* ===================================================================== *)

(** X1. The identifier depends on the two paths only through the path of
    the file relative to the vault: the same relative path, question and
    number give the same label under any two vault roots. *)
Theorem identifier_survives_vault_move :
  forall (root1 root2 : Path) (relp : list str) (question : str) (k : N),
    stable_id_tag root1 (joinpath root1 relp) question k
    = stable_id_tag root2 (joinpath root2 relp) question k.
Proof.
  intros root1 root2 relp question k. unfold stable_id_tag.
  now rewrite !relative_to_app.
Qed.

Lemma utf8_encode_some_encodable (s : str) (b : bytes) :
  utf8_encode s = Some b -> encodable s.
Proof.
  revert b. induction s as [|c s IH]; intros b H; [constructor|].
  cbn [utf8_encode] in H.
  destruct (utf8_char c) as [x|] eqn:Hc; [|discriminate].
  destruct (utf8_encode s) as [bs|]; [|discriminate].
  constructor; [congruence|now apply IH with bs].
Qed.

Lemma encodable_app_inv (a b : str) : encodable (a ++ b) -> encodable a /\ encodable b.
Proof. intros H. now apply Forall_app in H. Qed.

Lemma encode_raise (s : str) (e : Exn) :
  encode s = Raise e -> e = UnicodeEncodeError /\ ~ encodable s.
Proof.
  unfold encode. destruct (utf8_encode s) as [b|] eqn:H; [discriminate|].
  intros He. split; [congruence|].
  intros Henc. destruct (utf8_encode_encodable s Henc) as [b Hb]. congruence.
Qed.

Lemma encode_ok (s : str) (b : bytes) : encode s = Ok b -> encodable s.
Proof.
  unfold encode. destruct (utf8_encode s) as [x|] eqn:H; [|discriminate].
  intros _. now apply utf8_encode_some_encodable with x.
Qed.

(** The outcomes of [stable_id_tag], case by case. *)
Lemma stable_id_tag_cases :
  forall (root p : Path) (question : str) (k : N),
    match stable_id_tag root p question k with
    | Ok t =>
        exists relp raw,
          p = joinpath root relp
          /\ encodable (as_posix relp) /\ encodable question
          /\ encode (as_posix relp ++ lit "||" ++ str_of_int k ++ lit "||" ++ question)
             = Ok raw
          /\ t = lit "ankivert_id_" ++ firstn 12 (Sha1.hexdigest raw)
    | Raise e =>
        (e = ValueError /\ forall relp, p <> joinpath root relp)
        \/ (e = UnicodeEncodeError
            /\ exists relp,
                 p = joinpath root relp
                 /\ ~ (encodable (as_posix relp) /\ encodable question))
    end.
Proof.
  intros root p question k. rewrite stable_id_tag_identifier.
  destruct (relative_to p root) as [relp|e] eqn:Hrel; cbn [bind_result].
  - apply relative_to_ok in Hrel. unfold identifier.
    destruct (encode _) as [raw|e] eqn:Henc; cbn [bind_result].
    + exists relp, raw. split; [assumption|].
      pose proof (encode_ok _ _ Henc) as He.
      apply encodable_app_inv in He as [Hr He].
      apply encodable_app_inv in He as [_ He].
      apply encodable_app_inv in He as [_ He].
      apply encodable_app_inv in He as [_ Hq].
      repeat split; assumption || reflexivity.
    + right. apply encode_raise in Henc as [-> Hno]. split; [reflexivity|].
      exists relp. split; [assumption|]. intros [Hr Hq]. apply Hno.
      repeat apply encodable_app; try assumption.
      * apply encodable_ascii, literal_ascii. reflexivity.
      * apply encodable_ascii, uint_chars_ascii.
      * apply encodable_ascii, literal_ascii. reflexivity.
  - left. pose proof (relative_to_raise _ _ _ Hrel) as ->. split; [reflexivity|].
    intros relp ->. rewrite relative_to_app in Hrel. discriminate.
Qed.

(** X2. What [stable_id_tag] comes back with: [ValueError] exactly when
    the file path is not the vault root joined with some names (so also
    for an absolute file against a relative root), [UnicodeEncodeError]
    exactly when it is but the relative path or the question holds a code
    point that UTF-8 cannot encode, and otherwise the label made of the
    prefix and the first twelve digits of the digest. *)
Theorem stable_id_tag_outcomes :
  forall (root p : Path) (question : str) (k : N),
    match stable_id_tag root p question k with
    | Ok t =>
        exists relp raw,
          p = joinpath root relp
          /\ encodable (as_posix relp) /\ encodable question
          /\ encode (as_posix relp ++ lit "||" ++ str_of_int k ++ lit "||" ++ question)
             = Ok raw
          /\ t = lit "ankivert_id_" ++ firstn 12 (Sha1.hexdigest raw)
    | Raise e =>
        (e = ValueError /\ forall relp, p <> joinpath root relp)
        \/ (e = UnicodeEncodeError
            /\ exists relp,
                 p = joinpath root relp
                 /\ ~ (encodable (as_posix relp) /\ encodable question))
    end.
Proof. exact stable_id_tag_cases. Qed.

Lemma hex_digit_is_hex (x : N) : x < 16 -> is_hex (Sha1.hex_digit x) = true.
Proof.
  intros Hx. unfold Sha1.hex_digit, is_hex.
  destruct (x <? 10) eqn:E.
  - apply N.ltb_lt in E. apply orb_true_iff. left.
    apply andb_true_iff. split; apply N.leb_le; lia.
  - apply N.ltb_ge in E. apply orb_true_iff. right.
    apply andb_true_iff. split; apply N.leb_le; lia.
Qed.

Lemma hex_word_shape (x : N) :
  List.length (Sha1.hex_word x) = 8%nat
  /\ forallb is_hex (Sha1.hex_word x) = true.
Proof.
  unfold Sha1.hex_word. split; [reflexivity|].
  apply forallb_forall. intros c Hc. apply in_map_iff in Hc as (i & <- & _).
  apply hex_digit_is_hex.
  change 0xF with (N.ones 4). rewrite N.land_ones.
  apply N.mod_lt. discriminate.
Qed.

Transparent Sha1.hexdigest.

Lemma hexdigest_shape (msg : bytes) :
  List.length (Sha1.hexdigest msg) = 40%nat
  /\ forallb is_hex (Sha1.hexdigest msg) = true.
Proof.
  unfold Sha1.hexdigest. cbv zeta. split.
  - rewrite !length_app.
    now rewrite !(proj1 (hex_word_shape _)).
  - rewrite !forallb_app. now rewrite !(proj2 (hex_word_shape _)).
Qed.

Opaque Sha1.hexdigest.

Lemma is_hex_no_space (c : char) : is_hex c = true -> is_space c = false /\ c < 128.
Proof.
  unfold is_hex, is_space. intros H.
  apply orb_true_iff in H as [H|H]; apply andb_true_iff in H as [H1 H2];
    apply N.leb_le in H1; apply N.leb_le in H2; split; try lia;
    repeat (apply orb_false_iff; split);
    try (apply andb_false_iff; first [left; apply N.leb_gt; lia | right; apply N.leb_gt; lia]);
    apply N.eqb_neq; lia.
Qed.

(** X3. A label [stable_id_tag] returns is always 24 characters long: the
    prefix [ankivert_id_] and twelve lowercase hexadecimal digits. It holds
    no whitespace and only ASCII, so joining the labels with spaces for
    the label-addition call keeps it in one piece. *)
Theorem stable_id_tag_shape :
  forall (root p : Path) (question : str) (k : N) (t : str),
    stable_id_tag root p question k = Ok t ->
    exists digits,
      t = lit "ankivert_id_" ++ digits
      /\ List.length digits = 12%nat
      /\ forallb is_hex digits = true
      /\ List.length t = 24%nat
      /\ forallb (fun c => negb (is_space c) && (c <? 128)) t = true.
Proof.
  intros root p question k t H.
  pose proof (stable_id_tag_cases root p question k) as Hout.
  rewrite H in Hout. destruct Hout as (relp & raw & _ & _ & _ & _ & ->).
  destruct (hexdigest_shape raw) as [Hlen Hhex].
  set (d := firstn 12 (Sha1.hexdigest raw)).
  assert (Hd : List.length d = 12%nat).
  { unfold d. rewrite length_firstn, Hlen. reflexivity. }
  assert (Hdh : forallb is_hex d = true).
  { apply forallb_forall. intros c Hc. rewrite forallb_forall in Hhex.
    apply Hhex. rewrite <- (firstn_skipn 12 (Sha1.hexdigest raw)).
    apply in_or_app. now left. }
  exists d. split; [reflexivity|]. split; [assumption|]. split; [assumption|].
  split; [rewrite length_app, Hd; reflexivity|].
  rewrite forallb_app. apply andb_true_iff. split; [reflexivity|].
  apply forallb_forall. intros c Hc. rewrite forallb_forall in Hdh.
  destruct (is_hex_no_space c (Hdh c Hc)) as [Hs Ha].
  rewrite Hs. apply N.ltb_lt in Ha. now rewrite Ha.
Qed.

Lemma stable_id_tag_shape_witness :
  exists t digits,
    stable_id_tag ex_vault ex_md (lit "q") 1 = Ok t
    /\ t = lit "ankivert_id_" ++ digits
    /\ List.length digits = 12%nat
    /\ forallb is_hex digits = true
    /\ List.length t = 24%nat.
Proof.
  destruct (stable_id_tag_shape ex_vault ex_md (lit "q") 1
              (lit "ankivert_id_32f5663cc276"))
    as (digits & Ht & Hl & Hh & Hlt & _).
  - vm_compute. reflexivity.
  - exists (lit "ankivert_id_32f5663cc276"), digits.
    split; [vm_compute; reflexivity|]. repeat split; assumption.
Defined.

Lemma split_at_bar (a b x y : list N) :
  Forall (fun c => c <> 124) a -> Forall (fun c => c <> 124) b ->
  a ++ 124 :: x = b ++ 124 :: y -> a = b /\ x = y.
Proof.
  intros Ha. revert b. induction Ha as [|c a Hc _ IH]; intros b Hb H.
  - destruct Hb as [|d b Hd _]; cbn [app] in H.
    + injection H as ->. now split.
    + injection H as H _. congruence.
  - destruct Hb as [|d b Hd Hb]; cbn [app] in H.
    + injection H as H _. congruence.
    + injection H as -> H. destruct (IH b Hb H) as [-> ->]. now split.
Qed.

Lemma uint_chars_no_bar (d : Decimal.uint) : Forall (fun c => c <> 124) (uint_chars d).
Proof. induction d; cbn [uint_chars]; constructor; auto; discriminate. Qed.

(** Two positions of one file never hash the same octets, whatever the
    two questions are. *)
Lemma hashed_octets_differ_any (rel q1 q2 : str) (i j : N) (raw1 raw2 : bytes) :
  i <> j ->
  encode (rel ++ lit "||" ++ str_of_int i ++ lit "||" ++ q1) = Ok raw1 ->
  encode (rel ++ lit "||" ++ str_of_int j ++ lit "||" ++ q2) = Ok raw2 ->
  raw1 <> raw2.
Proof.
  intros Hij. unfold encode. rewrite !utf8_encode_app.
  rewrite !(utf8_encode_ascii (str_of_int _) (uint_chars_ascii _)).
  change (utf8_encode (lit "||")) with (Some [124; 124]).
  destruct (utf8_encode rel) as [er|]; [|discriminate].
  destruct (utf8_encode q1) as [e1|]; [|discriminate].
  destruct (utf8_encode q2) as [e2|]; [|discriminate].
  intros H1 H2. injection H1 as <-. injection H2 as <-.
  intros H. apply app_inv_head in H. cbn [app] in H. injection H as H.
  apply split_at_bar in H as [H _]; try apply uint_chars_no_bar.
  apply str_of_int_inj in H. contradiction.
Qed.

(** X4. Any two cards of one file, whatever their question texts, get
    labels that are the twelve-digit digest prefixes of two different
    octet strings, the UTF-8 octets of [rel||i||question] for the rank [i]
    of each card's question marker: inside a file only a collision of the
    shortened digest can make two labels equal. *)
Theorem cards_of_a_file_hash_different_strings :
  forall vault relp dk base text cs,
    extract_cards_from_markdown vault (joinpath vault relp) dk base text = Ok cs ->
    forall i j b1 b2,
      nth_error (question_blocks (splitlines text)) i = Some b1 ->
      nth_error (question_blocks (splitlines text)) j = Some b2 ->
      has_answer b1 = true ->
      has_answer b2 = true ->
      i <> j ->
      exists c1 c2 raw1 raw2,
        nth_error cs (List.length (filter has_answer
                        (firstn i (question_blocks (splitlines text))))) = Some c1
        /\ nth_error cs (List.length (filter has_answer
                           (firstn j (question_blocks (splitlines text))))) = Some c2
        /\ front c1 = question_text b1 /\ front c2 = question_text b2
        /\ encode (as_posix relp ++ lit "||" ++ str_of_int (N.of_nat i + 1)
                   ++ lit "||" ++ question_text b1) = Ok raw1
        /\ encode (as_posix relp ++ lit "||" ++ str_of_int (N.of_nat j + 1)
                   ++ lit "||" ++ question_text b2) = Ok raw2
        /\ stable_tag c1 = lit "ankivert_id_" ++ firstn 12 (Sha1.hexdigest raw1)
        /\ stable_tag c2 = lit "ankivert_id_" ++ firstn 12 (Sha1.hexdigest raw2)
        /\ raw1 <> raw2.
Proof.
  intros vault relp dk base text cs H i j b1 b2 H1 H2 A1 A2 Hij.
  unfold extract_cards_from_markdown in H.
  destruct (emitted_card_of_block _ _ _ _ _ _ H i b1 H1 A1)
    as (c1 & raw1 & Hn1 & _ & Hf1 & _ & _ & He1 & Ht1).
  destruct (emitted_card_of_block _ _ _ _ _ _ H j b2 H2 A2)
    as (c2 & raw2 & Hn2 & _ & Hf2 & _ & _ & He2 & Ht2).
  exists c1, c2, raw1, raw2. repeat (split; [assumption|]).
  apply (hashed_octets_differ_any (as_posix relp) (question_text b1)
           (question_text b2) (N.of_nat i + 1) (N.of_nat j + 1));
    [lia|assumption|assumption].
Qed.

Lemma cards_of_a_file_hash_different_strings_witness :
  exists c1 c2 raw1 raw2,
    extract_cards_from_markdown ex_vault ex_md ex_deck ex_base_tags ex_two_cards
    = Ok [c1; c2]
    /\ front c1 = lit "a" /\ front c2 = lit "b"
    /\ encode (lit "math250/cards.md||1||a") = Ok raw1
    /\ encode (lit "math250/cards.md||2||b") = Ok raw2
    /\ stable_tag c1 = lit "ankivert_id_" ++ firstn 12 (Sha1.hexdigest raw1)
    /\ stable_tag c2 = lit "ankivert_id_" ++ firstn 12 (Sha1.hexdigest raw2)
    /\ raw1 <> raw2.
Proof.
  assert (Hx : exists cs,
             extract_cards_from_markdown ex_vault
               (joinpath ex_vault [lit "math250"; lit "cards.md"]) ex_deck ex_base_tags
               ex_two_cards = Ok cs).
  { eexists. vm_compute. reflexivity. }
  destruct Hx as [cs Hx].
  destruct (cards_of_a_file_hash_different_strings
              ex_vault [lit "math250"; lit "cards.md"] ex_deck ex_base_tags
              ex_two_cards cs Hx
              0%nat 1%nat (lit "Q:: a", [lit "A:: 1"]) (lit "Q:: b", [lit "A:: 2"])
              eq_refl eq_refl eq_refl eq_refl ltac:(discriminate))
    as (c1 & c2 & raw1 & raw2 & N1 & N2 & F1 & F2 & E1 & E2 & T1 & T2 & Hne).
  exists c1, c2, raw1, raw2.
  split.
  - change (joinpath ex_vault [lit "math250"; lit "cards.md"]) with ex_md in Hx.
    rewrite Hx. f_equal.
    assert (Hl : List.length cs = 2%nat).
    { apply (f_equal (fun r => match r with Ok l => List.length l | Raise _ => 0%nat end))
        in Hx. rewrite <- Hx. vm_compute. reflexivity. }
    destruct cs as [|x [|y [|z cs]]]; try discriminate Hl.
    cbn in N1, N2. now injection N1 as ->; injection N2 as ->.
  - repeat (split; [assumption|]). assumption.
Defined.

(** X5. The separator [||] is not escaped, so the three inputs cannot
    always be told apart: the file [name||k||mid] at position [j] with
    question [q] gets the label of the file [name] at position [k] with
    question [mid||j||q]. Two different files can so share a label
    without any collision of the digest. *)
Theorem separator_is_not_escaped :
  forall (root : Path) (name mid question : str) (k j : N),
    joinpath root [name ++ lit "||" ++ str_of_int k ++ lit "||" ++ mid]
    <> joinpath root [name]
    /\ stable_id_tag root
         (joinpath root [name ++ lit "||" ++ str_of_int k ++ lit "||" ++ mid])
         question j
       = stable_id_tag root (joinpath root [name])
           (mid ++ lit "||" ++ str_of_int j ++ lit "||" ++ question) k.
Proof.
  intros root name mid question k j. split.
  - intros H. unfold joinpath in H. injection H as H.
    apply app_inv_head in H. injection H as H.
    apply (f_equal (@List.length _)) in H. rewrite !length_app in H.
    cbn [List.length] in H. lia.
  - unfold stable_id_tag. rewrite !relative_to_app. cbn [bind_result].
    change (as_posix [name ++ lit "||" ++ str_of_int k ++ lit "||" ++ mid])
      with (name ++ lit "||" ++ str_of_int k ++ lit "||" ++ mid).
    change (as_posix [name]) with name.
    now rewrite <- !app_assoc.
Qed.

Example separator_clash :
  stable_id_tag ex_vault (joinpath ex_vault [lit "a.md||1||x.md"]) (lit "q") 2
  = stable_id_tag ex_vault (joinpath ex_vault [lit "a.md"]) (lit "x.md||2||q") 1.
Proof. vm_compute. reflexivity. Qed.

(* ===================================================================== *)
(** * More on the scanner *)
(* ===================================================================== *)

(** X6. Lines before the first question marker give nothing, answer
    markers among them included: the file scans as if it began at its
    first question marker. *)
Theorem text_before_first_question_is_ignored :
  forall vault md dk base (pre lines : list str),
    Forall plain_line pre ->
    extract_cards_from_lines vault md dk base (pre ++ lines)
    = extract_cards_from_lines vault md dk base lines.
Proof.
  intros vault md dk base pre lines Hpre. unfold extract_cards_from_lines.
  rewrite scan_lines_app. unfold scan_init.
  now rewrite (scan_preamble vault md dk base pre [] [] false 0 Hpre).
Qed.

Lemma text_before_first_question_is_ignored_witness :
  Forall plain_line [lit "intro"; lit "A:: stray"]
  /\ extract_cards_from_lines ex_vault ex_md ex_deck ex_base_tags ex_with_intro
     = extract_cards_from_lines ex_vault ex_md ex_deck ex_base_tags
         [lit "Q:: q"; lit "A:: a"].
Proof.
  assert (H : Forall plain_line [lit "intro"; lit "A:: stray"])
    by (repeat constructor).
  split; [exact H|].
  exact (text_before_first_question_is_ignored ex_vault ex_md ex_deck ex_base_tags
           [lit "intro"; lit "A:: stray"] [lit "Q:: q"; lit "A:: a"] H).
Defined.

Lemma split_blocks_app (lines rest : list str) (ql : str) :
  is_question_line ql = true ->
  split_blocks (lines ++ ql :: rest)
  = (fst (split_blocks lines),
     snd (split_blocks lines) ++ snd (split_blocks (ql :: rest))).
Proof.
  intros Hq. induction lines as [|l lines IH].
  - cbn [app split_blocks fst snd]. rewrite Hq.
    now destruct (split_blocks rest).
  - cbn [app]. cbn [split_blocks]. rewrite IH.
    destruct (split_blocks lines) as [pre bs]. cbn [fst snd].
    now destruct (is_question_line l).
Qed.

Lemma map_result_app {A B} (f : A -> result B) (a b : list A) :
  map_result f (a ++ b)
  = let? x := map_result f a in let? y := map_result f b in Ok (x ++ y).
Proof.
  induction a as [|u a IH]; cbn [app map_result bind_result].
  - now destruct (map_result f b).
  - destruct (f u) as [v|e]; cbn [bind_result]; [|reflexivity].
    rewrite IH. destruct (map_result f a) as [x|e]; cbn [bind_result]; [|reflexivity].
    now destruct (map_result f b).
Qed.

(** X7. Scanning composes at a question marker: the cards of a file
    followed by more lines that begin with a question marker are the
    cards of the file, unchanged, and then the cards of the added lines,
    whose questions are numbered on from the question markers before
    them. *)
Theorem appended_questions_leave_cards_unchanged :
  forall vault md dk base (lines rest : list str) (ql : str),
    is_question_line ql = true ->
    extract_cards_from_lines vault md dk base (lines ++ ql :: rest)
    = let? cs := extract_cards_from_lines vault md dk base lines in
      let? more :=
        map_result (card_of_block vault md dk base)
          (filter (fun kb => has_answer (snd kb))
             (number_from (1 + N.of_nat (List.length (question_blocks lines)))
                          (question_blocks (ql :: rest)))) in
      Ok (cs ++ more).
Proof.
  intros vault md dk base lines rest ql Hq.
  rewrite !scan_refines. unfold cards_of_blocks, answered_blocks, question_blocks.
  rewrite (split_blocks_app lines rest ql Hq). cbn [snd].
  now rewrite number_from_app, filter_app, map_result_app.
Qed.

Lemma appended_questions_leave_cards_unchanged_witness :
  exists cs more,
    extract_cards_from_lines ex_vault ex_md ex_deck ex_base_tags
      [lit "Q:: a"; lit "A:: 1"] = Ok cs
    /\ extract_cards_from_lines ex_vault ex_md ex_deck ex_base_tags
         ([lit "Q:: a"; lit "A:: 1"] ++ [lit "Q:: b"; lit "A:: 2"]) = Ok (cs ++ more)
    /\ List.map front more = [lit "b"]
    /\ List.map stable_tag more = [lit "ankivert_id_" ++ firstn 12
         (Sha1.hexdigest (lit "math250/cards.md||2||b"))].
Proof.
  eexists. eexists. split; [vm_compute; reflexivity|].
  split.
  - rewrite (appended_questions_leave_cards_unchanged ex_vault ex_md ex_deck
               ex_base_tags [lit "Q:: a"; lit "A:: 1"] [lit "A:: 2"] (lit "Q:: b")
               eq_refl).
    vm_compute. reflexivity.
  - split; vm_compute; reflexivity.
Defined.

Lemma question_blocks_count (lines : list str) :
  List.length (question_blocks lines)
  = List.length (filter is_question_line lines).
Proof.
  unfold question_blocks. induction lines as [|l lines IH]; [reflexivity|].
  cbn [split_blocks filter]. destruct (split_blocks lines) as [pre bs].
  cbn [snd] in IH. destruct (is_question_line l); cbn [snd List.length]; now rewrite IH.
Qed.

Lemma answer_lines_need_marker (body : list str) :
  answer_lines false body <> [] -> filter is_answer_line body <> [].
Proof.
  induction body as [|l body IH]; cbn [answer_lines filter]; [auto|].
  unfold is_answer_line at 1.
  destruct (startswith (rstrip_chars [10] l) (lit "A::")); [discriminate|exact IH].
Qed.

Lemma answered_blocks_need_markers (bs : list Block) :
  (List.length (filter has_answer bs)
   <= List.length (filter is_answer_line (flatten_blocks bs)))%nat.
Proof.
  induction bs as [|b bs IH]; [apply Nat.le_refl|].
  change (flatten_blocks (b :: bs)) with ((fst b :: snd b) ++ flatten_blocks bs).
  rewrite filter_app, length_app. cbn [filter].
  assert (Hb : ((if has_answer b then 1 else 0)
                <= List.length (filter is_answer_line (snd b)))%nat).
  { unfold has_answer. destruct (answer_lines false (snd b)) eqn:E; cbn [truthy].
    - apply Nat.le_0_l.
    - assert (Hne : filter is_answer_line (snd b) <> []).
      { apply answer_lines_need_marker. rewrite E. discriminate. }
      destruct (filter is_answer_line (snd b)); [contradiction|].
      cbn [List.length]. lia. }
  destruct (has_answer b); destruct (is_answer_line (fst b)); cbn [List.length]; lia.
Qed.

(** X8. A file never yields more cards than it has question marker lines,
    nor more than it has answer marker lines; the number of cards is the
    number of question blocks that collected an answer line. *)
Theorem card_count_is_bounded_by_markers :
  forall vault md dk base text cs,
    extract_cards_from_markdown vault md dk base text = Ok cs ->
    List.length cs = List.length (filter has_answer (question_blocks (splitlines text)))
    /\ (List.length cs <= List.length (filter is_question_line (splitlines text)))%nat
    /\ (List.length cs <= List.length (filter is_answer_line (splitlines text)))%nat.
Proof.
  intros vault md dk base text cs H. unfold extract_cards_from_markdown in H.
  rewrite scan_refines in H. apply map_result_forall2, Forall2_length in H.
  unfold answered_blocks in H. rewrite length_filter_number_from in H.
  rewrite <- H. split; [reflexivity|]. split.
  - rewrite <- question_blocks_count. apply filter_length_le.
  - eapply Nat.le_trans; [apply answered_blocks_need_markers|].
    rewrite (split_blocks_flatten (splitlines text)) at 2.
    rewrite filter_app, length_app. unfold question_blocks. lia.
Qed.

Lemma card_count_is_bounded_by_markers_witness :
  exists cs,
    extract_cards_from_markdown ex_vault ex_md ex_deck ex_base_tags
      ex_skipped_then_card = Ok cs
    /\ List.length cs = 1%nat
    /\ (List.length cs
        <= List.length (filter is_question_line
                          (splitlines ex_skipped_then_card)))%nat.
Proof.
  eexists. split; [vm_compute; reflexivity|]. split; [reflexivity|].
  apply (card_count_is_bounded_by_markers ex_vault ex_md ex_deck ex_base_tags
           ex_skipped_then_card).
  vm_compute. reflexivity.
Defined.

(** X9. A file in which no line starts with the answer marker yields no
    card, and the scan returns whatever the two paths are: no label is
    computed, so nothing can raise. *)
Theorem no_answer_marker_never_raises :
  forall vault md dk base text,
    Forall no_answer_marker (splitlines text) ->
    extract_cards_from_markdown vault md dk base text = Ok [].
Proof.
  intros vault md dk base text H. unfold extract_cards_from_markdown.
  now apply no_answer_marker_no_cards.
Qed.

Lemma no_answer_marker_never_raises_witness :
  Forall no_answer_marker (splitlines ex_no_answers)
  /\ extract_cards_from_markdown ex_vault (mkPath true [lit "elsewhere"]) ex_deck
       ex_base_tags ex_no_answers = Ok [].
Proof.
  assert (H : Forall no_answer_marker
                (splitlines ex_no_answers)).
  { change (splitlines ex_no_answers)
      with [lit "Q:: a"; lit "Q:: b"]. repeat constructor. }
  split; [exact H|].
  exact (no_answer_marker_never_raises ex_vault (mkPath true [lit "elsewhere"]) ex_deck
           ex_base_tags _ H).
Defined.

Lemma dropwhile_idem (p : char -> bool) (s : str) :
  dropwhile p (dropwhile p s) = dropwhile p s.
Proof.
  induction s as [|c s IH]; cbn [dropwhile]; [reflexivity|].
  destruct (p c) eqn:E; [exact IH|]. cbn [dropwhile]. now rewrite E.
Qed.

Lemma dropwhile_stops (p : char -> bool) (s t : str) (c : char) :
  dropwhile p s = c :: t -> p c = false.
Proof.
  induction s as [|a s IH]; cbn [dropwhile]; [discriminate|].
  destruct (p a) eqn:E; [exact IH|]. intros H. injection H as <- _. exact E.
Qed.

Lemma dropwhile_app_stop (p : char -> bool) (l m : str) (c : char) :
  p c = false -> dropwhile p (l ++ c :: m) = dropwhile p l ++ c :: m.
Proof.
  intros Hc. induction l as [|a l IH]; cbn [app dropwhile].
  - now rewrite Hc.
  - destruct (p a); [exact IH|reflexivity].
Qed.

Lemma rstrip_dropwhile (x : str) :
  dropwhile is_space (rev x) = rev x ->
  rstrip (dropwhile is_space x) = dropwhile is_space x.
Proof.
  intros H. destruct (rev x) as [|c t] eqn:E.
  - apply (f_equal (@rev char)) in E. rewrite rev_involutive in E. now subst x.
  - pose proof (dropwhile_stops _ _ _ _ H) as Hc.
    apply (f_equal (@rev char)) in E. rewrite rev_involutive in E. cbn [rev] in E.
    subst x. rewrite (dropwhile_app_stop is_space (rev t) [] c Hc).
    unfold rstrip. rewrite rev_app_distr. cbn [rev app dropwhile]. rewrite Hc.
    cbn [rev]. now rewrite rev_involutive.
Qed.

Lemma strip_trimmed (s : str) : trimmed (strip s).
Proof.
  unfold trimmed, strip, lstrip. split; [apply dropwhile_idem|].
  apply rstrip_dropwhile. unfold rstrip. rewrite rev_involutive.
  apply dropwhile_idem.
Qed.

(** X10. Both sides of every card the scanner yields are trimmed:
    stripping whitespace from the front or the back of a card, at either
    end, changes nothing. *)
Theorem card_sides_are_trimmed :
  forall vault md dk base text cs,
    extract_cards_from_markdown vault md dk base text = Ok cs ->
    Forall (fun c => trimmed (front c) /\ trimmed (back c)) cs.
Proof.
  intros vault md dk base text cs H. unfold extract_cards_from_markdown in H.
  rewrite scan_refines in H. unfold cards_of_blocks in H.
  apply Forall_forall. intros c Hin.
  destruct (map_result_in_ok _ _ _ H c Hin) as (kb & _ & Hc).
  apply card_of_block_fields in Hc as (_ & -> & -> & _).
  split; apply strip_trimmed.
Qed.

Lemma card_sides_are_trimmed_witness :
  exists cs,
    extract_cards_from_markdown ex_vault ex_md ex_deck ex_base_tags ex_two_markers
    = Ok cs
    /\ cs <> []
    /\ Forall (fun c => trimmed (front c) /\ trimmed (back c)) cs.
Proof.
  eexists. split; [vm_compute; reflexivity|]. split; [discriminate|].
  apply (card_sides_are_trimmed ex_vault ex_md ex_deck ex_base_tags ex_two_markers).
  vm_compute. reflexivity.
Defined.

Lemma splitlines_from_one_line (s : str) :
  (forall cur, one_line cur -> Forall one_line (splitlines_from cur s))
  /\ (forall c cur, one_line cur -> Forall one_line (splitlines_from cur (c :: s))).
Proof.
  induction s as [|a s [IH1 IH2]].
  - assert (H0 : forall cur, one_line cur -> Forall one_line (splitlines_from cur [])).
    { intros cur Hcur. cbn [splitlines_from].
      destruct cur; [constructor|]. constructor; [now apply Forall_rev|constructor]. }
    split; [exact H0|].
    intros c cur Hcur. cbn [splitlines_from]. destruct (is_linebreak c) eqn:E.
    + constructor; [now apply Forall_rev|]. destruct (c =? 13); constructor.
    + constructor; [|constructor]. apply Forall_rev. now constructor.
  - split; [intros cur Hcur; now apply IH2|].
    intros c cur Hcur.
    change (splitlines_from cur (c :: a :: s))
      with (if is_linebreak c then
              List.rev cur ::
                (if c =? 13 then
                   if a =? 10 then splitlines_from [] s
                   else splitlines_from [] (a :: s)
                 else splitlines_from [] (a :: s))
            else splitlines_from (c :: cur) (a :: s)).
    destruct (is_linebreak c) eqn:E.
    + constructor; [now apply Forall_rev|].
      destruct (c =? 13); [destruct (a =? 10)|];
        first [apply IH1; constructor | apply IH2; constructor].
    + apply IH2. now constructor.
Qed.

Lemma splitlines_one_line (s : str) : Forall one_line (splitlines s).
Proof. apply (proj1 (splitlines_from_one_line s)). constructor. Qed.

Lemma rstrip_newline_one_line (l : str) : one_line l -> rstrip_chars [10] l = l.
Proof.
  intros H. unfold rstrip_chars.
  destruct (rev l) as [|c t] eqn:E.
  - cbn [dropwhile rev]. apply (f_equal (@rev char)) in E.
    now rewrite rev_involutive in E.
  - assert (Hc : is_linebreak c = false).
    { unfold one_line in H. rewrite Forall_forall in H. apply H.
      apply in_rev. rewrite E. now left. }
    cbn [dropwhile existsb]. rewrite orb_false_r.
    destruct (c =? 10) eqn:E10.
    + apply N.eqb_eq in E10. subst c. discriminate Hc.
    + rewrite <- E. apply rev_involutive.
Qed.

(** X11. No line the scanner reads holds a line boundary, so stripping
    newlines from the right of a line changes no line, and the front of
    every card is a single line. *)
Theorem scanned_lines_hold_no_boundary :
  forall vault md dk base text,
    Forall (fun raw => rstrip_chars [10] raw = raw /\ one_line raw) (splitlines text)
    /\ forall cs,
         extract_cards_from_markdown vault md dk base text = Ok cs ->
         Forall (fun c => one_line (front c)) cs.
Proof.
  intros vault md dk base text. split.
  - eapply Forall_impl; [|apply splitlines_one_line].
    intros l Hl. split; [now apply rstrip_newline_one_line|exact Hl].
  - intros cs H. unfold extract_cards_from_markdown in H.
    rewrite scan_refines in H. unfold cards_of_blocks in H.
    apply Forall_forall. intros c Hin.
    destruct (map_result_in_ok _ _ _ H c Hin) as (kb & Hkb & Hc).
    apply card_of_block_fields in Hc as (_ & -> & _).
    destruct kb as [k b]. unfold answered_blocks in Hkb.
    apply filter_In in Hkb as [Hkb _].
    apply number_from_in, question_blocks_in in Hkb.
    pose proof (splitlines_one_line text) as Hl. rewrite Forall_forall in Hl.
    specialize (Hl _ Hkb). cbn [snd]. unfold question_text, one_line.
    apply strip_Forall, skipn_Forall, rstrip_chars_Forall. exact Hl.
Qed.

Lemma rstrip_chars_after_marker (m blank : str) (c : char) :
  (c =? 10) = false ->
  rstrip_chars [10] ((m ++ [c]) ++ blank) = (m ++ [c]) ++ rstrip_chars [10] blank.
Proof.
  intros Hc. unfold rstrip_chars.
  assert (E : rev ((m ++ [c]) ++ blank) = rev blank ++ c :: rev m).
  { rewrite rev_app_distr, rev_app_distr. reflexivity. }
  rewrite E, dropwhile_app_stop by (cbn [existsb]; now rewrite Hc).
  rewrite rev_app_distr. cbn [rev]. now rewrite rev_involutive.
Qed.

Lemma split_blocks_preamble_all (body : list str) :
  Forall plain_line body -> split_blocks body = (body, []).
Proof.
  induction 1 as [|l body Hl _ IH]; [reflexivity|].
  cbn [split_blocks]. rewrite IH. unfold plain_line in Hl. now rewrite Hl.
Qed.

(** X12. A question marker followed by nothing but whitespace still opens
    a question: when its block collects an answer line the scanner yields
    a card for it, whose front is the empty string. *)
Theorem blank_question_still_yields_a_card :
  forall vault relp dk base (blank : str) (body : list str),
    forallb is_space blank = true ->
    Forall plain_line body ->
    has_answer (lit "Q::" ++ blank, body) = true ->
    encodable (as_posix relp) ->
    exists c,
      extract_cards_from_lines vault (joinpath vault relp) dk base
        ((lit "Q::" ++ blank) :: body) = Ok [c]
      /\ front c = []
      /\ back c = answer_text (lit "Q::" ++ blank, body).
Proof.
  intros vault relp dk base blank body Hblank Hbody Hans Hp.
  assert (Hline : rstrip_chars [10] (lit "Q::" ++ blank)
                  = lit "Q::" ++ rstrip_chars [10] blank).
  { rewrite lit_question_marker.
    exact (rstrip_chars_after_marker [81; 58] blank 58 eq_refl). }
  assert (Hq : is_question_line (lit "Q::" ++ blank) = true).
  { unfold is_question_line. rewrite Hline, lit_question_marker.
    cbn [app startswith]. now rewrite !N.eqb_refl. }
  assert (Hfront : question_text (lit "Q::" ++ blank, body) = []).
  { unfold question_text. cbn [fst]. rewrite Hline, lit_question_marker.
    cbn [app skipn]. apply strip_all_space. now apply rstrip_chars_forallb. }
  assert (Hsplit : split_blocks ((lit "Q::" ++ blank) :: body)
                   = ([], [(lit "Q::" ++ blank, body)])).
  { cbn [split_blocks]. rewrite (split_blocks_preamble_all body Hbody). now rewrite Hq. }
  rewrite scan_refines. unfold cards_of_blocks, answered_blocks, question_blocks.
  rewrite Hsplit. cbn [snd number_from filter]. rewrite Hans.
  cbn [map_result]. unfold card_of_block. cbn [fst snd]. rewrite Hfront.
  rewrite stable_id_tag_identifier, relative_to_app. cbn [bind_result].
  destruct (identifier_total (as_posix relp) [] 1 Hp) as [t Ht]; [constructor|].
  rewrite Ht. cbn [bind_result]. eexists. split; [reflexivity|].
  cbn [front back]. auto.
Qed.

Lemma blank_question_still_yields_a_card_witness :
  exists c,
    extract_cards_from_lines ex_vault (joinpath ex_vault [lit "math250"; lit "cards.md"])
      ex_deck ex_base_tags ex_blank_question = Ok [c]
    /\ front c = []
    /\ back c = lit "a".
Proof.
  assert (Hbody : Forall plain_line [lit "A:: a"]) by (repeat constructor).
  destruct (blank_question_still_yields_a_card ex_vault [lit "math250"; lit "cards.md"]
              ex_deck ex_base_tags (lit "  ") [lit "A:: a"] eq_refl Hbody eq_refl)
    as (c & Hc & Hf & Hb).
  - apply encodable_ascii. vm_compute. repeat constructor.
  - exists c. split; [exact Hc|]. split; [exact Hf|]. rewrite Hb. reflexivity.
Defined.

(* ===================================================================== *)
(** * More on the client *)
(* ===================================================================== *)

Section PostsOnly.

Context {E : Environment}.
Variable P : json -> Prop.

Lemma posts_only_quiet {A} (c : M A) :
  (forall w, sent (snd (c w)) = sent w) -> posts_only P c.
Proof.
  intros H w. exists []. rewrite app_nil_r. split; [apply H|constructor].
Qed.

Lemma posts_only_ret {A} (a : A) : posts_only P (ret a).
Proof. now apply posts_only_quiet. Qed.

Lemma posts_only_raise {A} (e : Exn) : posts_only P (@raise _ A e).
Proof. now apply posts_only_quiet. Qed.

Lemma posts_only_lift {A} (r : result A) : posts_only P (lift r).
Proof. now apply posts_only_quiet. Qed.

Lemma posts_only_print (o : Out) : posts_only P (print o).
Proof. now apply posts_only_quiet. Qed.

Lemma posts_only_bind {A B} (c : M A) (k : A -> M B) :
  posts_only P c -> (forall a, posts_only P (k a)) -> posts_only P (bind c k).
Proof.
  intros Hc Hk w. unfold bind. destruct (Hc w) as (new1 & Hs1 & Hp1).
  destruct (c w) as [[a|e] w1]; cbn [fst snd] in *.
  - destruct (Hk a w1) as (new2 & Hs2 & Hp2). exists (new1 ++ new2).
    split; [rewrite Hs2, Hs1; now rewrite app_assoc|].
    unfold payloads in *. rewrite map_app. apply Forall_app. now split.
  - now exists new1.
Qed.

Lemma posts_only_for_each {A} (xs : list A) (body : A -> M unit) :
  (forall x, posts_only P (body x)) -> posts_only P (for_each xs body).
Proof.
  intros Hb. induction xs as [|x xs IH]; cbn [for_each].
  - apply posts_only_ret.
  - apply posts_only_bind; [apply Hb|intros _; exact IH].
Qed.

Lemma posts_only_ankiconnect (action : str) (params : option json) :
  P (request_payload action params) -> posts_only P (ankiconnect action params).
Proof.
  intros Hp w. rewrite ankiconnect_run. unfold exchange. cbn [snd sent].
  eexists [_]. split; [reflexivity|]. cbn [payloads List.map fst].
  constructor; [exact Hp|constructor].
Qed.

Lemma posts_only_offline {A} (c : M A) : is_offline c -> posts_only P c.
Proof.
  intros (r & outs & H). apply posts_only_quiet. intros w. now rewrite H.
Qed.

Lemma posts_only_add_or_update (c : Card) (dry_run : bool) :
  P (find_payload (stable_tag c)) ->
  P (add_payload c) ->
  (forall id, P (update_payload id c)) ->
  (forall id, P (add_tags_payload id c)) ->
  posts_only P (add_or_update_basic_note c dry_run).
Proof.
  intros Hfind Hadd Hupd Htags.
  unfold add_or_update_basic_note. apply posts_only_bind.
  - destruct dry_run; [apply posts_only_ret|].
    unfold find_note_id_by_tag. apply posts_only_bind.
    + apply posts_only_ankiconnect. exact Hfind.
    + intros r. destruct (negb _); [apply posts_only_ret|].
      apply posts_only_bind; [apply posts_only_lift|]. intros x.
      apply posts_only_bind; [apply posts_only_lift|]. intros z.
      apply posts_only_ret.
  - intros [id|]; destruct dry_run; try apply posts_only_print.
    + apply posts_only_bind; [apply posts_only_ankiconnect; apply Hupd|].
      intros _. apply posts_only_bind;
        [apply posts_only_ankiconnect; apply Htags|].
      intros _. apply posts_only_print.
    + apply posts_only_bind; [apply posts_only_ankiconnect; exact Hadd|].
      intros res. apply posts_only_print.
Qed.

End PostsOnly.

Section WireFormat.

Context {E : Environment}.

Lemma wire_create_deck (d : str) : wire_request (deck_payload d).
Proof. eexists. eexists. eexists. split; [reflexivity|]. cbn. auto. Qed.

Lemma wire_find (t : str) : wire_request (find_payload t).
Proof. eexists. eexists. eexists. split; [reflexivity|]. cbn. auto. Qed.

Lemma wire_add (c : Card) : wire_request (add_payload c).
Proof. eexists. eexists. eexists. split; [reflexivity|]. cbn. auto. Qed.

Lemma wire_update (id : Z) (c : Card) : wire_request (update_payload id c).
Proof. eexists. eexists. eexists. split; [reflexivity|]. cbn. auto 6. Qed.

Lemma wire_add_tags (id : Z) (c : Card) : wire_request (add_tags_payload id c).
Proof. eexists. eexists. eexists. split; [reflexivity|]. cbn. auto 6. Qed.

Lemma wire_add_or_update (c : Card) (dry_run : bool) :
  posts_only wire_request (add_or_update_basic_note c dry_run).
Proof.
  apply posts_only_add_or_update;
    [apply wire_find|apply wire_add|intros id; apply wire_update
    |intros id; apply wire_add_tags].
Qed.

Lemma wire_sync_cards (cs : list Card) (dry_run : bool) :
  posts_only wire_request (sync_cards cs dry_run).
Proof.
  unfold sync_cards. apply posts_only_bind.
  - destruct (negb dry_run); [|apply posts_only_ret].
    apply posts_only_for_each. intros d. unfold ensure_deck.
    apply posts_only_bind; [|intros _; apply posts_only_ret].
    apply posts_only_ankiconnect. apply wire_create_deck.
  - intros _. apply posts_only_for_each. intros c. apply wire_add_or_update.
Qed.

Lemma wire_main cmd v classes dry_run :
  posts_only wire_request (main cmd v classes dry_run).
Proof.
  unfold main. destruct (negb (vault_exists v)).
  - apply posts_only_bind; [apply posts_only_print|intros _; apply posts_only_ret].
  - apply posts_only_bind;
      [apply posts_only_offline; apply is_offline_collect_classes|].
    intros cs. apply posts_only_bind; [apply posts_only_print|]. intros _.
    destruct cmd; [apply posts_only_ret|].
    apply posts_only_bind; [apply wire_sync_cards|intros _; apply posts_only_ret].
Qed.

End WireFormat.

(** X13. Whatever the application answers, every request a run posts is
    an object with one of the five actions createDeck, findNotes, addNote,
    updateNoteFields and addTags, version 6 and a parameter object that is
    not empty. *)
Theorem every_request_is_a_known_call :
  forall (E : Environment) (cmd : Command) (v : Vault) (classes : list str)
         (dry_run : bool) (w : World),
  exists new,
    sent (snd (main cmd v classes dry_run w)) = sent w ++ new
    /\ Forall wire_request (payloads new).
Proof. intros E cmd v classes dry_run w. apply wire_main. Qed.

Section NoteCalls.

Context {E : Environment}.

(** The exchanges of one note sync. *)
Lemma note_calls (c : Card) (w w' : World) (r : result unit) :
  add_or_update_basic_note c false w = (r, w') ->
  exists new full rest,
    sent w' = sent w ++ new
    /\ (full = creation_calls c \/ exists id, full = update_calls id c)
    /\ full = payloads new ++ rest
    /\ new <> []
    /\ (is_ok r = true -> rest = []).
Proof.
  intros H. unfold add_or_update_basic_note in H. unfold bind at 1 in H.
  rewrite find_run in H.
  destruct (reply_value (lit "findNotes") _) as [v|e].
  - destruct (json_truthy v).
    + destruct (subscript0 v) as [x|e]; cbn [bind_result] in H.
      * destruct (py_int x) as [z|e]; cbn [bind_result] in H.
        -- unfold bind at 1 in H. rewrite ankiconnect_run in H.
           destruct (reply_value (lit "updateNoteFields") _) as [v1|e].
           ++ unfold bind at 1 in H. rewrite ankiconnect_run in H.
              destruct (reply_value (lit "addTags") _) as [v2|e];
                apply pair_equal_spec in H as [<- <-];
                eexists [_; _; _], (update_calls z c), [];
                (split; [cbn [exchange sent print]; rewrite <- !app_assoc; reflexivity|]);
                (split; [right; now exists z|]);
                (split; [reflexivity|]); (split; [discriminate|reflexivity]).
           ++ apply pair_equal_spec in H as [<- <-].
              eexists [_; _], (update_calls z c), [_].
              split; [cbn [exchange sent]; rewrite <- !app_assoc; reflexivity|].
              split; [right; now exists z|].
              split; [reflexivity|]. split; discriminate.
        -- apply pair_equal_spec in H as [<- <-].
           eexists [_], (creation_calls c), [_].
           split; [reflexivity|]. split; [now left|].
           split; [reflexivity|]. split; discriminate.
      * apply pair_equal_spec in H as [<- <-].
        eexists [_], (creation_calls c), [_].
        split; [reflexivity|]. split; [now left|].
        split; [reflexivity|]. split; discriminate.
    + unfold bind at 1 in H. rewrite ankiconnect_run in H.
      destruct (reply_value (lit "addNote") _) as [v1|e];
        apply pair_equal_spec in H as [<- <-];
        eexists [_; _], (creation_calls c), [];
        (split; [cbn [exchange sent print]; rewrite <- !app_assoc; reflexivity|]);
        (split; [now left|]);
        (split; [reflexivity|]); (split; [discriminate|reflexivity]).
  - apply pair_equal_spec in H as [<- <-].
    eexists [_], (creation_calls c), [_].
    split; [reflexivity|]. split; [now left|].
    split; [reflexivity|]. split; discriminate.
Qed.

End NoteCalls.

Section NoteRequests.

Context {E : Environment}.

(** The lookup of a note sync is the lookup run on its own. *)
Lemma note_requests_run (c : Card) (w w' : World) (r : result unit) :
  add_or_update_basic_note c false w = (r, w') ->
  exists new rest,
    sent w' = sent w ++ new
    /\ note_requests (fst (find_note_id_by_tag (stable_tag c) w)) c
       = payloads new ++ rest
    /\ new <> []
    /\ (is_ok r = true -> rest = [])
    /\ (forall e, fst (find_note_id_by_tag (stable_tag c) w) = Raise e ->
        r = Raise e).
Proof.
  intros H. unfold add_or_update_basic_note in H. unfold bind at 1 in H.
  destruct (find_note_id_by_tag (stable_tag c) w) as [lookup w1] eqn:Hfind.
  pose proof (find_run (stable_tag c) w) as Hrun. rewrite Hfind in Hrun.
  apply pair_equal_spec in Hrun as [_ Hw1]. cbn [fst].
  destruct lookup as [[id|]|e].
  - unfold bind at 1 in H. rewrite ankiconnect_run in H.
    destruct (reply_value (lit "updateNoteFields") _) as [v1|e].
    + unfold bind at 1 in H. rewrite ankiconnect_run in H.
      destruct (reply_value (lit "addTags") _) as [v2|e];
        apply pair_equal_spec in H as [<- <-]; subst w1;
        eexists [_; _; _], [];
        (split; [cbn [exchange sent print]; rewrite <- !app_assoc; reflexivity|]);
        (split; [reflexivity|]); (split; [discriminate|]);
        (split; [reflexivity|intros ? ?; discriminate]).
    + apply pair_equal_spec in H as [<- <-]. subst w1.
      eexists [_; _], [_].
      split; [cbn [exchange sent]; rewrite <- !app_assoc; reflexivity|].
      split; [reflexivity|]. split; [discriminate|].
      split; [discriminate|intros ? ?; discriminate].
  - unfold bind at 1 in H. rewrite ankiconnect_run in H.
    destruct (reply_value (lit "addNote") _) as [v1|e];
      apply pair_equal_spec in H as [<- <-]; subst w1;
      eexists [_; _], [];
      (split; [cbn [exchange sent print]; rewrite <- !app_assoc; reflexivity|]);
      (split; [reflexivity|]); (split; [discriminate|]);
      (split; [reflexivity|intros ? ?; discriminate]).
  - apply pair_equal_spec in H as [<- <-]. subst w1.
    eexists [_], [].
    split; [reflexivity|]. split; [reflexivity|]. split; [discriminate|].
    split; [reflexivity|]. intros e' He'. now injection He' as <-.
Qed.

End NoteRequests.

(** X14. Whatever the application answers, the requests posted for one
    card follow from what the lookup of its label came back with: the
    lookup alone when it raised, which ends the call with the same
    exception; the lookup and the creation when it found no note; the
    lookup, the field update and the label addition, both on the id the
    lookup returned, when it found one. The requests posted are a
    beginning of that sequence, the lookup always among them, and all of
    it when the call returns. *)
Theorem note_sync_call_sequence :
  forall (E : Environment) (c : Card) (w w' : World) (r : result unit),
    add_or_update_basic_note c false w = (r, w') ->
    exists new rest,
      sent w' = sent w ++ new
      /\ match fst (find_note_id_by_tag (stable_tag c) w) with
         | Raise e => [find_payload (stable_tag c)]
         | Ok None => [find_payload (stable_tag c); add_payload c]
         | Ok (Some id) =>
             [find_payload (stable_tag c); update_payload id c; add_tags_payload id c]
         end = payloads new ++ rest
      /\ new <> []
      /\ (is_ok r = true -> rest = [])
      /\ (forall e, fst (find_note_id_by_tag (stable_tag c) w) = Raise e ->
          r = Raise e).
Proof.
  intros E c w w' r H.
  destruct (note_requests_run c w w' r H) as (new & rest & Hs & Hp & Hne & Hok & He).
  exists new, rest. split; [exact Hs|]. split.
  - rewrite <- Hp. unfold note_requests.
    destruct (fst (find_note_id_by_tag (stable_tag c) w)) as [[id|]|e]; reflexivity.
  - split; [exact Hne|]. split; [exact Hok|].
    exact He.
Qed.

Lemma note_sync_call_sequence_witness :
  exists new rest id,
    sent (snd (@add_or_update_basic_note ex_env ex_card false
                 (snd (@add_or_update_basic_note ex_env ex_card false
                         ex_world_with_deck))))
    = sent (snd (@add_or_update_basic_note ex_env ex_card false ex_world_with_deck))
      ++ new
    /\ fst (@find_note_id_by_tag ex_env (stable_tag ex_card)
              (snd (@add_or_update_basic_note ex_env ex_card false
                      ex_world_with_deck))) = Ok (Some id)
    /\ [find_payload (stable_tag ex_card); update_payload id ex_card;
        add_tags_payload id ex_card] = payloads new ++ rest
    /\ rest = [].
Proof.
  destruct (note_sync_call_sequence ex_env ex_card
              (snd (@add_or_update_basic_note ex_env ex_card false ex_world_with_deck))
              _ _ (surjective_pairing _))
    as (new & rest & Hs & Hp & _ & Hok & _).
  exists new, rest, 1%Z. split; [exact Hs|].
  split; [vm_compute; reflexivity|]. split; [exact Hp|].
  apply Hok. vm_compute. reflexivity.
Defined.

(** X15. A lookup is one exchange. It returns no id exactly when the
    reply is good and its result is falsy (null, an empty list), and with
    a list of numbers as result it returns the first of them, whatever
    follows. *)
Theorem lookup_outcomes :
  forall (E : Environment) (t : str) (w : World),
    snd (find_note_id_by_tag t w) = exchange (find_payload t) w
    /\ (fst (find_note_id_by_tag t w) = Ok None
        <-> exists v,
              reply_value (lit "findNotes") (fst (post (find_payload t) (server w)))
              = Ok v
              /\ json_truthy v = false)
    /\ (forall id others,
          reply_value (lit "findNotes") (fst (post (find_payload t) (server w)))
          = Ok (JArr (JNum id :: others)) ->
          fst (find_note_id_by_tag t w) = Ok (Some id)).
Proof.
  intros E t w. rewrite find_run. cbn [fst snd]. split; [reflexivity|]. split.
  - destruct (reply_value (lit "findNotes") _) as [v|e].
    + destruct (json_truthy v) eqn:Hv.
      * split.
        -- destruct (subscript0 v) as [x|e]; cbn [bind_result]; [|discriminate].
           destruct (py_int x); discriminate.
        -- intros (v' & Hv' & Hf). apply Ok_inj in Hv'. subst v'. congruence.
      * split; [intros _; now exists v|reflexivity].
    + split; [discriminate|]. intros (v & Hv & _). discriminate.
  - intros id others ->. reflexivity.
Qed.

Section UpdateRuns.

Context {E : Environment}.


End UpdateRuns.



(** ** The decks of a sync *)

Lemma str_leb_trans (a b c : str) :
  str_leb a b = true -> str_leb b c = true -> str_leb a c = true.
Proof.
  revert b c. induction a as [|x a IH]; intros [|y b] [|z c]; cbn [str_leb];
    try reflexivity; try discriminate.
  intros H1 H2.
  apply orb_true_iff in H1 as [H1|H1]; apply orb_true_iff in H2 as [H2|H2];
    apply orb_true_iff.
  - left. apply N.ltb_lt in H1, H2. apply N.ltb_lt. lia.
  - apply andb_prop in H2 as [H2 _]. apply N.eqb_eq in H2. subst z. now left.
  - apply andb_prop in H1 as [H1 _]. apply N.eqb_eq in H1. subst y. now left.
  - apply andb_prop in H1 as [H1 H1']. apply andb_prop in H2 as [H2 H2'].
    apply N.eqb_eq in H1, H2. subst y z. right. rewrite N.eqb_refl.
    cbn [andb]. exact (IH _ _ H1' H2').
Qed.

Lemma str_leb_antisym (a b : str) :
  str_leb a b = true -> str_leb b a = true -> a = b.
Proof.
  revert b. induction a as [|x a IH]; intros [|y b]; cbn [str_leb];
    try reflexivity; try discriminate.
  intros H1 H2.
  apply orb_true_iff in H1 as [H1|H1]; apply orb_true_iff in H2 as [H2|H2].
  - apply N.ltb_lt in H1, H2. lia.
  - apply andb_prop in H2 as [H2 _]. apply N.eqb_eq in H2. apply N.ltb_lt in H1. lia.
  - apply andb_prop in H1 as [H1 _]. apply N.eqb_eq in H1. apply N.ltb_lt in H2. lia.
  - apply andb_prop in H1 as [H1 H1']. apply andb_prop in H2 as [_ H2'].
    apply N.eqb_eq in H1. subst y. f_equal. exact (IH _ H1' H2').
Qed.

Lemma str_leb_total (a b : str) : str_leb a b = false -> str_leb b a = true.
Proof.
  revert b. induction a as [|x a IH]; intros [|y b]; cbn [str_leb];
    try reflexivity; try discriminate.
  intros H. apply orb_false_iff in H as [H1 H2]. apply N.ltb_ge in H1.
  apply orb_true_iff. destruct (N.eqb_spec x y) as [->|Hne].
  - right. rewrite N.eqb_refl. cbn [andb] in *. now apply IH.
  - left. apply N.ltb_lt. lia.
Qed.

Lemma str_lt_trans (a b c : str) : str_lt a b -> str_lt b c -> str_lt a c.
Proof.
  intros [H1 N1] [H2 N2]. split; [exact (str_leb_trans _ _ _ H1 H2)|].
  intros ->. apply N1. now apply str_leb_antisym.
Qed.

Lemma insert_sorted_In (x y : str) (l : list str) :
  In y (insert_sorted x l) <-> y = x \/ In y l.
Proof.
  induction l as [|z l IH]; cbn [insert_sorted].
  - cbn [In]. intuition.
  - destruct (str_eqb x z) eqn:E.
    + apply str_eqb_eq in E. subst z. cbn [In]. intuition.
    + destruct (str_leb x z); cbn [In]; [intuition|].
      rewrite IH. intuition.
Qed.

Lemma insert_sorted_sorted (x : str) (l : list str) :
  StronglySorted str_lt l -> StronglySorted str_lt (insert_sorted x l).
Proof.
  induction 1 as [|z l Hs IH Hz]; cbn [insert_sorted].
  - constructor; constructor.
  - destruct (str_eqb x z) eqn:E; [now constructor|].
    assert (Hne : x <> z).
    { intros ->. now rewrite str_eqb_refl in E. }
    destruct (str_leb x z) eqn:L.
    + constructor; [now constructor|].
      constructor; [now split|].
      eapply Forall_impl; [|exact Hz]. intros u Hu.
      apply str_lt_trans with z; [now split|exact Hu].
    + constructor; [exact IH|].
      apply Forall_forall. intros u Hu. apply insert_sorted_In in Hu as [->|Hu].
      * split; [now apply str_leb_total|auto].
      * rewrite Forall_forall in Hz. now apply Hz.
Qed.

Lemma insert_sorted_length (x : str) (l : list str) :
  (List.length (insert_sorted x l) <= S (List.length l))%nat.
Proof.
  induction l as [|z l IH]; cbn [insert_sorted List.length]; [lia|].
  destruct (str_eqb x z); [cbn [List.length]; lia|].
  destruct (str_leb x z); cbn [List.length]; lia.
Qed.

Lemma sorted_set_In (y : str) (xs : list str) : In y (sorted_set xs) <-> In y xs.
Proof.
  unfold sorted_set. induction xs as [|x xs IH]; cbn [fold_right In]; [tauto|].
  rewrite insert_sorted_In, IH. intuition.
Qed.

Lemma sorted_set_sorted (xs : list str) : StronglySorted str_lt (sorted_set xs).
Proof.
  unfold sorted_set. induction xs as [|x xs IH]; cbn [fold_right]; [constructor|].
  now apply insert_sorted_sorted.
Qed.

Lemma sorted_set_length (xs : list str) :
  (List.length (sorted_set xs) <= List.length xs)%nat.
Proof.
  unfold sorted_set. induction xs as [|x xs IH]; cbn [fold_right List.length]; [lia|].
  pose proof (insert_sorted_length x (fold_right insert_sorted [] xs)). lia.
Qed.

Lemma sorted_NoDup (l : list str) : StronglySorted str_lt l -> NoDup l.
Proof.
  induction 1 as [|z l Hs IH Hz]; constructor; [|exact IH].
  intros Hin. rewrite Forall_forall in Hz. destruct (Hz _ Hin) as [_ Hne]. auto.
Qed.

Section DeckCalls.

Context {E : Environment}.

(** The exchanges of the deck loop: one creation per deck, in order, up
    to the first that fails. *)
Lemma deck_calls (ds : list str) :
  forall w w' r,
    for_each ds ensure_deck w = (r, w') ->
    exists created rest,
      sent w' = sent w ++ created
      /\ List.map deck_payload ds = payloads created ++ rest
      /\ (is_ok r = true -> rest = []).
Proof.
  induction ds as [|d ds IH]; intros w w' r H.
  - apply pair_equal_spec in H as [<- <-]. exists [], [].
    split; [now rewrite app_nil_r|]. split; reflexivity.
  - cbn [for_each] in H. unfold bind at 1 in H.
    unfold ensure_deck at 1 in H. unfold bind at 1 in H.
    rewrite ankiconnect_run in H.
    destruct (reply_value (lit "createDeck") _) as [v|e].
    + cbn [ret] in H. destruct (IH _ _ _ H) as (created & rest & Hs & Hp & Hok).
      eexists (_ :: created), rest.
      split; [rewrite Hs; cbn [exchange sent]; rewrite <- app_assoc; reflexivity|].
      split; [cbn [List.map payloads fst app]; fold (payloads created);
              rewrite <- Hp; reflexivity|exact Hok].
    + apply pair_equal_spec in H as [<- <-].
      eexists [_], (List.map deck_payload ds).
      split; [reflexivity|]. split; [reflexivity|discriminate].
Qed.

Lemma note_request_calls (cs : list Card) :
  posts_only note_request (for_each cs (fun c => add_or_update_basic_note c false)).
Proof.
  apply posts_only_for_each. intros c. apply posts_only_add_or_update.
  - unfold note_request. cbn. auto.
  - unfold note_request. cbn. auto.
  - intros id. unfold note_request. cbn. auto.
  - intros id. unfold note_request. cbn. auto 6.
Qed.

(** The exchanges of a sync: the deck creations, then the note calls. *)
Lemma sync_calls (cs : list Card) (w w' : World) (r : result unit) :
  sync_cards cs false w = (r, w') ->
  exists created notes rest,
    sent w' = sent w ++ created ++ notes
    /\ List.map deck_payload (sorted_set (List.map deck cs))
       = payloads created ++ rest
    /\ Forall note_request (payloads notes)
    /\ (notes <> [] \/ is_ok r = true -> rest = []).
Proof.
  intros H. unfold sync_cards in H. cbn [negb] in H. unfold bind at 1 in H.
  destruct (for_each (sorted_set (List.map deck cs)) ensure_deck w)
    as [[u|e] w1] eqn:Hd.
  - destruct (deck_calls _ _ _ _ Hd) as (created & rest & Hs & Hp & Hok).
    destruct (note_request_calls cs w1) as (notes & Hn & Hreq).
    rewrite H in Hn. cbn [snd] in Hn.
    exists created, notes, rest.
    split; [rewrite Hn, Hs; now rewrite app_assoc|].
    split; [exact Hp|]. split; [exact Hreq|]. intros _. now apply Hok.
  - apply pair_equal_spec in H as [<- <-].
    destruct (deck_calls _ _ _ _ Hd) as (created & rest & Hs & Hp & _).
    exists created, [], rest. rewrite app_nil_r.
    split; [exact Hs|]. split; [exact Hp|]. split; [constructor|].
    intros [Hne|Hok]; [now contradiction Hne|discriminate].
Qed.

(** The number of exchanges of the note loop. *)
Lemma note_loop_count (cs : list Card) :
  forall w w' r,
    for_each cs (fun c => add_or_update_basic_note c false) w = (r, w') ->
    exists new,
      sent w' = sent w ++ new
      /\ (List.length new <= 3 * List.length cs)%nat
      /\ (is_ok r = true -> (2 * List.length cs <= List.length new)%nat).
Proof.
  induction cs as [|c cs IH]; intros w w' r H.
  - apply pair_equal_spec in H as [<- <-]. exists [].
    split; [now rewrite app_nil_r|]. cbn [List.length]. split; [lia|intros _; lia].
  - cbn [for_each] in H. unfold bind at 1 in H.
    destruct (add_or_update_basic_note c false w) as [[u|e] w1] eqn:Hc.
    + destruct (note_calls _ _ _ _ Hc)
        as (new1 & full & rest & Hs1 & Hfull & Hp & _ & Hok).
      rewrite (Hok eq_refl), app_nil_r in Hp.
      assert (Hlen : (2 <= List.length new1 <= 3)%nat).
      { apply (f_equal (@List.length json)) in Hp. unfold payloads in Hp.
        rewrite length_map in Hp. rewrite <- Hp.
        destruct Hfull as [->|[id ->]]; cbn [List.length creation_calls update_calls];
          lia. }
      destruct (IH _ _ _ H) as (new2 & Hs2 & Hle & Hge).
      exists (new1 ++ new2). split; [rewrite Hs2, Hs1; now rewrite app_assoc|].
      rewrite length_app. cbn [List.length]. split; [lia|].
      intros Hr. specialize (Hge Hr). lia.
    + apply pair_equal_spec in H as [<- <-].
      destruct (note_calls _ _ _ _ Hc)
        as (new1 & full & rest & Hs1 & Hfull & Hp & _ & _).
      exists new1. split; [exact Hs1|].
      assert (Hlen : (List.length new1 <= 3)%nat).
      { apply (f_equal (@List.length json)) in Hp. unfold payloads in Hp.
        rewrite length_app, length_map in Hp.
        destruct Hfull as [->|[id ->]];
          cbn [List.length creation_calls update_calls] in Hp; lia. }
      cbn [List.length]. split; [lia|discriminate].
Qed.

End DeckCalls.

(** X17. Whatever the application answers, a sync posts its deck
    creations before any note call: one creation per deck of the sorted
    distinct decks, in that order, up to the first that fails; a note
    call is posted only after all of them, and no note call creates a
    deck. *)
Theorem decks_are_created_before_notes :
  forall (E : Environment) (cs : list Card) (w w' : World) (r : result unit),
    sync_cards cs false w = (r, w') ->
    exists created notes rest,
      sent w' = sent w ++ created ++ notes
      /\ List.map deck_payload (sorted_set (List.map deck cs))
         = payloads created ++ rest
      /\ Forall note_request (payloads notes)
      /\ (notes <> [] \/ is_ok r = true -> rest = []).
Proof. intros E cs w w' r. apply sync_calls. Qed.

Lemma decks_are_created_before_notes_witness :
  exists created notes rest,
    sent (snd (@sync_cards ex_env [ex_card; in_deck (lit "b") ex_card] false ex_world))
    = sent ex_world ++ created ++ notes
    /\ [deck_payload (lit "b"); deck_payload ex_deck] = payloads created ++ rest
    /\ Forall note_request (payloads notes)
    /\ (notes <> [] \/
        is_ok (fst (@sync_cards ex_env [ex_card; in_deck (lit "b") ex_card] false
                      ex_world)) = true -> rest = []).
Proof.
  exact (decks_are_created_before_notes ex_env
           [ex_card; in_deck (lit "b") ex_card] ex_world _ _
           (surjective_pairing _)).
Defined.

(** X18. The decks a sync creates are the decks of its cards, each one
    once, in strictly increasing order of their names. *)
Theorem one_creation_per_deck :
  forall (E : Environment) (cs : list Card) (w w' : World) (u : unit),
    sync_cards cs false w = (Ok u, w') ->
    exists created notes decks,
      sent w' = sent w ++ created ++ notes
      /\ payloads created = List.map deck_payload decks
      /\ Forall note_request (payloads notes)
      /\ StronglySorted str_lt decks
      /\ NoDup decks
      /\ (forall d, In d decks <-> exists c, In c cs /\ deck c = d).
Proof.
  intros E cs w w' u H.
  destruct (sync_calls _ _ _ _ H) as (created & notes & rest & Hs & Hp & Hn & Hok).
  rewrite (Hok (or_intror eq_refl)), app_nil_r in Hp.
  exists created, notes, (sorted_set (List.map deck cs)).
  split; [exact Hs|]. split; [now symmetry|]. split; [exact Hn|].
  split; [apply sorted_set_sorted|].
  split; [apply sorted_NoDup, sorted_set_sorted|].
  intros d. rewrite sorted_set_In, in_map_iff. split.
  - intros (c & Hd & Hin). now exists c.
  - intros (c & Hin & Hd). now exists c.
Qed.

Lemma one_creation_per_deck_witness :
  @sync_cards ex_env [ex_card; ex_card] false ex_world
  = (Ok tt, snd (@sync_cards ex_env [ex_card; ex_card] false ex_world))
  /\ exists created notes decks,
       sent (snd (@sync_cards ex_env [ex_card; ex_card] false ex_world))
       = sent ex_world ++ created ++ notes
       /\ payloads created = List.map deck_payload decks
       /\ Forall note_request (payloads notes)
       /\ StronglySorted str_lt decks
       /\ NoDup decks
       /\ (forall d, In d decks <-> exists c, In c [ex_card; ex_card] /\ deck c = d).
Proof.
  assert (H : @sync_cards ex_env [ex_card; ex_card] false ex_world
              = (Ok tt, snd (@sync_cards ex_env [ex_card; ex_card] false ex_world)))
    by (vm_compute; reflexivity).
  split; [exact H|].
  exact (one_creation_per_deck ex_env [ex_card; ex_card] ex_world _ tt H).
Defined.

(** X19. A sync of [n] cards posts at most one request per distinct deck
    and three per card, so never more than [4 n]; when it completes it has
    posted one per distinct deck and at least two per card. *)
Theorem sync_request_count :
  forall (E : Environment) (cs : list Card) (w w' : World) (r : result unit),
    sync_cards cs false w = (r, w') ->
    exists new,
      sent w' = sent w ++ new
      /\ (List.length new
          <= List.length (sorted_set (List.map deck cs)) + 3 * List.length cs)%nat
      /\ (List.length new <= 4 * List.length cs)%nat
      /\ (is_ok r = true ->
          (List.length (sorted_set (List.map deck cs)) + 2 * List.length cs
           <= List.length new)%nat).
Proof.
  intros E cs w w' r H. unfold sync_cards in H. cbn [negb] in H.
  unfold bind at 1 in H.
  pose proof (sorted_set_length (List.map deck cs)) as Hdl.
  rewrite length_map in Hdl.
  destruct (for_each (sorted_set (List.map deck cs)) ensure_deck w)
    as [[u|e] w1] eqn:Hd.
  - destruct (deck_calls _ _ _ _ Hd) as (created & rest & Hs & Hp & Hok).
    rewrite (Hok eq_refl), app_nil_r in Hp.
    apply (f_equal (@List.length json)) in Hp. unfold payloads in Hp.
    rewrite !length_map in Hp.
    destruct (note_loop_count _ _ _ _ H) as (notes & Hn & Hle & Hge).
    exists (created ++ notes). split; [rewrite Hn, Hs; now rewrite app_assoc|].
    rewrite length_app. split; [lia|]. split; [lia|].
    intros Hr. specialize (Hge Hr). lia.
  - apply pair_equal_spec in H as [<- <-].
    destruct (deck_calls _ _ _ _ Hd) as (created & rest & Hs & Hp & _).
    apply (f_equal (@List.length json)) in Hp. unfold payloads in Hp.
    rewrite length_app, !length_map in Hp.
    exists created. split; [exact Hs|]. split; [lia|]. split; [lia|discriminate].
Qed.

Lemma sync_request_count_witness :
  exists new,
    sent (snd (@sync_cards ex_env [ex_card; ex_card] false ex_world))
    = sent ex_world ++ new
    /\ (List.length new
        <= List.length (sorted_set (List.map deck [ex_card; ex_card])) + 3 * 2)%nat
    /\ (List.length new <= 4 * 2)%nat
    /\ (is_ok (fst (@sync_cards ex_env [ex_card; ex_card] false ex_world)) = true ->
        (List.length (sorted_set (List.map deck [ex_card; ex_card])) + 2 * 2
         <= List.length new)%nat).
Proof.
  exact (sync_request_count ex_env [ex_card; ex_card] ex_world _ _
           (surjective_pairing _)).
Defined.

(* ===================================================================== *)
(** * More on the collecting loop and on [main] *)
(* ===================================================================== *)

Lemma emitted_deck_and_tags vault md dk base text cs :
  extract_cards_from_markdown vault md dk base text = Ok cs ->
  Forall (fun c => deck c = dk /\ tags c = base ++ [stable_tag c]) cs.
Proof.
  intros H. unfold extract_cards_from_markdown in H. rewrite scan_refines in H.
  unfold cards_of_blocks in H. apply Forall_forall. intros c Hin.
  destruct (map_result_in_ok _ _ _ H c Hin) as (kb & _ & Hc).
  apply card_of_block_fields in Hc as (Hd & _ & _ & Ht & _). now split.
Qed.

Section CollectingMore.

Context {E : Environment}.

Lemma collect_file_class cmd v cls f w cs w' :
  collect_file cmd v cls f w = (Ok cs, w') -> Forall (of_class v cls) cs.
Proof.
  unfold collect_file. unfold bind at 1. unfold lift at 1.
  destruct (extract_cards_from_markdown _ _ _ _ _) as [cs0|e] eqn:Hx;
    [|intros H; apply pair_equal_spec in H as [H _]; discriminate].
  unfold bind at 1.
  match goal with |- context [match ?c w with _ => _ end] => destruct (c w) as [[u|e] w1] end;
    intros H; apply pair_equal_spec in H as [H _]; [|discriminate].
  apply Ok_inj in H. subst cs0.
  apply emitted_deck_and_tags in Hx. eapply Forall_impl; [|exact Hx].
  intros c [Hd Ht]. split; [exact Hd|exact Ht].
Qed.

Lemma collect_files_class cmd v cls files :
  forall w cs w',
    collect_files cmd v cls files w = (Ok cs, w') -> Forall (of_class v cls) cs.
Proof.
  induction files as [|f files IH]; intros w cs w' H; cbn [collect_files] in H.
  - apply pair_equal_spec in H as [H _]. apply Ok_inj in H. subst. constructor.
  - unfold bind at 1 in H.
    destruct (collect_file cmd v cls f w) as [[cs1|e] w1] eqn:H1;
      [|apply pair_equal_spec in H as [H _]; discriminate].
    unfold bind at 1 in H.
    destruct (collect_files cmd v cls files w1) as [[cs2|e] w2] eqn:H2;
      apply pair_equal_spec in H as [H _]; [|discriminate].
    apply Ok_inj in H. subst cs. apply Forall_app. split.
    + exact (collect_file_class _ _ _ _ _ _ _ H1).
    + exact (IH _ _ _ H2).
Qed.

Lemma collect_classes_class cmd v classes :
  forall w cs w',
    collect_classes cmd v classes w = (Ok cs, w') ->
    Forall (fun c => exists cls,
              In cls classes /\ class_present v cls = true /\ of_class v cls c) cs.
Proof.
  induction classes as [|cls classes IH]; intros w cs w' H;
    cbn [collect_classes] in H.
  - apply pair_equal_spec in H as [H _]. apply Ok_inj in H. subst. constructor.
  - unfold bind at 1 in H.
    match type of H with
    | context [match ?c w with _ => _ end] => destruct (c w) as [[cs1|e] w1] eqn:H1
    end; [|apply pair_equal_spec in H as [H _]; discriminate].
    unfold bind at 1 in H.
    destruct (collect_classes cmd v classes w1) as [[cs2|e] w2] eqn:H2;
      apply pair_equal_spec in H as [H _]; [|discriminate].
    apply Ok_inj in H. subst cs. apply Forall_app. split.
    + unfold class_present. destruct (class_dir v cls) as [files|] eqn:Hdir.
      * eapply Forall_impl; [|exact (collect_files_class _ _ _ _ _ _ _ H1)].
        intros c Hc. exists cls. rewrite Hdir. split; [now left|now split].
      * unfold bind, print, ret in H1. apply pair_equal_spec in H1 as [H1 _].
        apply Ok_inj in H1. subst. constructor.
    + eapply Forall_impl; [|exact (IH _ _ _ H2)].
      intros c (cls' & Hin & Hp & Hc). exists cls'. split; [now right|now split].
Qed.

Lemma offline_result {A} (c : M A) (w1 w2 : World) :
  is_offline c -> fst (c w1) = fst (c w2).
Proof. intros (r & outs & H). now rewrite (H w1), (H w2). Qed.

Lemma offline_printed {A} (c : M A) (w : World) :
  is_offline c -> exists outs, printed (snd (c w)) = printed w ++ outs.
Proof. intros (r & outs & H). exists outs. now rewrite (H w). Qed.

Lemma collect_classes_present cmd v classes :
  forall w,
    fst (collect_classes cmd v classes w)
    = fst (collect_classes cmd v (filter (class_present v) classes) w).
Proof.
  induction classes as [|cls classes IH]; intros w; [reflexivity|].
  cbn [filter]. unfold class_present at 1.
  destruct (class_dir v cls) as [files|] eqn:Hdir.
  - cbn [collect_classes]. rewrite Hdir. unfold bind at 1 3.
    destruct (collect_files cmd v cls files w) as [[cs|e] w1]; [|reflexivity].
    unfold bind. specialize (IH w1).
    destruct (collect_classes cmd v classes w1) as [[m1|e1] wa];
      destruct (collect_classes cmd v (filter (class_present v) classes) w1)
        as [[m2|e2] wb]; unfold ret; cbn [fst] in *; congruence.
  - rewrite <- IH. cbn [collect_classes]. rewrite Hdir.
    rewrite (offline_result _ w
               (mkWorld (server w) (sent w) (printed w ++ [WarnMissingClassDir cls]))
               (is_offline_collect_classes cmd v classes)).
    unfold bind, print, ret.
    destruct (collect_classes cmd v classes _) as [[m|e] wa]; reflexivity.
Qed.

Lemma collect_classes_warns cmd v classes :
  forall w cls,
    is_ok (fst (collect_classes cmd v classes w)) = true ->
    In cls classes -> class_dir v cls = None ->
    In (WarnMissingClassDir cls) (printed (snd (collect_classes cmd v classes w))).
Proof.
  induction classes as [|c classes IH]; intros w cls Hok Hin Hnone;
    [contradiction|].
  cbn [collect_classes] in *. unfold bind at 1 in Hok. unfold bind at 1.
  match type of Hok with
  | context [match ?c0 w with _ => _ end] => destruct (c0 w) as [[cs1|e] w1] eqn:H1
  end; [|discriminate].
  unfold bind in Hok |- *.
  destruct (offline_printed _ w1 (is_offline_collect_classes cmd v classes))
    as (outs & Hp).
  destruct (collect_classes cmd v classes w1) as [[m|e] w2] eqn:H2;
    [|discriminate].
  cbn [snd ret] in *. destruct Hin as [->|Hin].
  - rewrite Hnone in H1. unfold bind, print, ret in H1.
    apply pair_equal_spec in H1 as [_ <-]. rewrite Hp. cbn [printed].
    apply in_or_app. left. apply in_or_app. right. now left.
  - specialize (IH w1 cls). rewrite H2 in IH. cbn [fst snd is_ok] in IH. auto.
Qed.

End CollectingMore.

(** X20. Every card the collecting loop gathers lies in the deck named
    after the vault folder and a class whose directory exists, and its
    labels are that class, the vault folder name and its own identifier
    label, in this order. *)
Theorem collected_card_deck_and_labels :
  forall (E : Environment) (cmd : Command) (v : Vault) (classes : list str)
         (w w' : World) (cs : list Card),
    collect_classes cmd v classes w = (Ok cs, w') ->
    Forall (fun c => exists cls,
              In cls classes /\ class_present v cls = true
              /\ deck c = path_name (vault_path v) ++ lit "::" ++ cls
              /\ tags c = [cls; path_name (vault_path v); stable_tag c]) cs.
Proof.
  intros E cmd v classes w w' cs H.
  eapply Forall_impl; [|exact (collect_classes_class _ _ _ _ _ _ H)].
  intros c (cls & Hin & Hp & Hd & Ht). exists cls. auto.
Qed.

Lemma collected_card_deck_and_labels_witness :
  exists cs,
    fst (@collect_classes ex_env sync (ex_vault_fs ex_two_cards) ex_classes ex_world)
    = Ok cs
    /\ List.length cs = 2%nat
    /\ Forall (fun c => exists cls,
                 In cls ex_classes
                 /\ class_present (ex_vault_fs ex_two_cards) cls = true
                 /\ deck c = lit "vault" ++ lit "::" ++ cls
                 /\ tags c = [cls; lit "vault"; stable_tag c]) cs.
Proof.
  destruct (@collect_classes ex_env sync (ex_vault_fs ex_two_cards) ex_classes
              ex_world) as [[cs|e] w'] eqn:H; [|vm_compute in H; discriminate].
  exists cs. split; [reflexivity|]. split.
  - vm_compute in H. apply pair_equal_spec in H as [H _]. apply Ok_inj in H.
    now subst cs.
  - exact (collected_card_deck_and_labels ex_env sync (ex_vault_fs ex_two_cards)
             ex_classes ex_world w' cs H).
Defined.

(** X21. A class whose directory is missing is skipped with a warning:
    the collecting loop ends as it would on the classes whose directory
    exists, with the same cards, and when it completes it has printed the
    warning for every missing class. *)
Theorem missing_class_dir_is_skipped :
  forall (E : Environment) (cmd : Command) (v : Vault) (classes : list str)
         (w : World),
    fst (collect_classes cmd v classes w)
    = fst (collect_classes cmd v (filter (class_present v) classes) w)
    /\ (is_ok (fst (collect_classes cmd v classes w)) = true ->
        forall cls,
          In cls classes -> class_dir v cls = None ->
          In (WarnMissingClassDir cls)
             (printed (snd (collect_classes cmd v classes w)))).
Proof.
  intros E cmd v classes w. split; [apply collect_classes_present|].
  intros Hok cls. now apply collect_classes_warns.
Qed.

Lemma missing_class_dir_is_skipped_witness :
  fst (@collect_classes ex_env sync (ex_vault_fs ex_two_cards) ex_classes ex_world)
  = fst (@collect_classes ex_env sync (ex_vault_fs ex_two_cards) [lit "math250"]
           ex_world)
  /\ In (WarnMissingClassDir (lit "phys202"))
        (printed (snd (@collect_classes ex_env sync (ex_vault_fs ex_two_cards)
                         ex_classes ex_world))).
Proof.
  destruct (missing_class_dir_is_skipped ex_env sync (ex_vault_fs ex_two_cards)
              ex_classes ex_world) as [H1 H2].
  split; [exact H1|].
  apply H2; [vm_compute; reflexivity|now left|reflexivity].
Defined.

Section ScanRuns.

Context {E : Environment}.

Lemma for_each_print {A} (f : A -> Out) (xs : list A) :
  offline (for_each xs (fun x => print (f x))) (Ok tt) (List.map f xs).
Proof.
  induction xs as [|x xs IH]; cbn [for_each List.map]; [apply offline_ret|].
  change (f x :: List.map f xs) with ([f x] ++ List.map f xs).
  apply offline_bind with tt; [apply offline_print|exact IH].
Qed.

Lemma card_lines_of_cards (cs : list Card) :
  List.length
    (filter is_card_line
       (List.map (fun c => ScanCard (firstn 70 (front c)) (stable_tag c)) cs))
  = List.length cs.
Proof.
  induction cs as [|c cs IH]; [reflexivity|].
  cbn [List.map filter is_card_line List.length]. f_equal. exact IH.
Qed.

Lemma collect_file_scan v cls f w cs w' :
  collect_file scan v cls f w = (Ok cs, w') ->
  exists outs,
    printed w' = printed w ++ outs
    /\ List.length (filter is_card_line outs) = List.length cs.
Proof.
  unfold collect_file. unfold bind at 1. unfold lift at 1.
  destruct (extract_cards_from_markdown _ _ _ _ _) as [cs0|e];
    [|intros H; apply pair_equal_spec in H as [H _]; discriminate].
  destruct cs0 as [|c cs0].
  - unfold bind, ret. intros H. apply pair_equal_spec in H as [H <-].
    apply Ok_inj in H. subst cs. exists []. now rewrite app_nil_r.
  - unfold bind at 1. unfold bind at 1. unfold lift at 1.
    destruct (relative_to (md_file_path f) (vault_path v)) as [relp|e];
      [|intros H; apply pair_equal_spec in H as [H _]; discriminate].
    unfold bind at 1. cbn [print].
    rewrite (for_each_print (fun c => ScanCard (firstn 70 (front c)) (stable_tag c))
               (c :: cs0)).
    unfold ret. intros H. apply pair_equal_spec in H as [H <-].
    apply Ok_inj in H. subst cs. cbn [printed server sent].
    eexists. rewrite <- app_assoc. split; [reflexivity|].
    cbn [app filter is_card_line]. apply card_lines_of_cards.
Qed.

Lemma collect_files_scan v cls files :
  forall w cs w',
    collect_files scan v cls files w = (Ok cs, w') ->
    exists outs,
      printed w' = printed w ++ outs
      /\ List.length (filter is_card_line outs) = List.length cs.
Proof.
  induction files as [|f files IH]; intros w cs w' H; cbn [collect_files] in H.
  - apply pair_equal_spec in H as [H <-]. apply Ok_inj in H. subst.
    exists []. now rewrite app_nil_r.
  - unfold bind at 1 in H.
    destruct (collect_file scan v cls f w) as [[cs1|e] w1] eqn:H1;
      [|apply pair_equal_spec in H as [H _]; discriminate].
    unfold bind at 1 in H.
    destruct (collect_files scan v cls files w1) as [[cs2|e] w2] eqn:H2;
      apply pair_equal_spec in H as [H <-]; [|discriminate].
    apply Ok_inj in H. subst cs.
    destruct (collect_file_scan _ _ _ _ _ _ H1) as (o1 & Hp1 & Hl1).
    destruct (IH _ _ _ H2) as (o2 & Hp2 & Hl2).
    exists (o1 ++ o2). split; [rewrite Hp2, Hp1; now rewrite app_assoc|].
    rewrite filter_app, !length_app. lia.
Qed.

Lemma collect_classes_scan v classes :
  forall w cs w',
    collect_classes scan v classes w = (Ok cs, w') ->
    exists outs,
      printed w' = printed w ++ outs
      /\ List.length (filter is_card_line outs) = List.length cs.
Proof.
  induction classes as [|cls classes IH]; intros w cs w' H;
    cbn [collect_classes] in H.
  - apply pair_equal_spec in H as [H <-]. apply Ok_inj in H. subst.
    exists []. now rewrite app_nil_r.
  - unfold bind at 1 in H.
    match type of H with
    | context [match ?c w with _ => _ end] => destruct (c w) as [[cs1|e] w1] eqn:H1
    end; [|apply pair_equal_spec in H as [H _]; discriminate].
    unfold bind at 1 in H.
    destruct (collect_classes scan v classes w1) as [[cs2|e] w2] eqn:H2;
      apply pair_equal_spec in H as [H <-]; [|discriminate].
    apply Ok_inj in H. subst cs.
    destruct (IH _ _ _ H2) as (o2 & Hp2 & Hl2).
    assert (Hfirst : exists o1,
               printed w1 = printed w ++ o1
               /\ List.length (filter is_card_line o1) = List.length cs1).
    { destruct (class_dir v cls) as [files|].
      - exact (collect_files_scan _ _ _ _ _ _ H1).
      - unfold bind, print, ret in H1. apply pair_equal_spec in H1 as [H1 <-].
        apply Ok_inj in H1. subst cs1. now exists [WarnMissingClassDir cls]. }
    destruct Hfirst as (o1 & Hp1 & Hl1).
    exists (o1 ++ o2). split; [rewrite Hp2, Hp1; now rewrite app_assoc|].
    rewrite filter_app, !length_app. lia.
Qed.

Lemma main_scan_offline v classes dry_run : is_offline (main scan v classes dry_run).
Proof.
  unfold main. destruct (negb (vault_exists v)).
  - apply is_offline_bind; [apply is_offline_print|]. intros _. apply is_offline_ret.
  - apply is_offline_bind; [apply is_offline_collect_classes|]. intros cs.
    apply is_offline_bind; [apply is_offline_print|]. intros _.
    apply is_offline_ret.
Qed.

End ScanRuns.

(** X22. A scan that runs to its end prints, as its last line, a total
    that is the number of card lines it has printed before. *)
Theorem scan_total_matches_listing :
  forall (E : Environment) (v : Vault) (classes : list str) (dry_run : bool)
         (w w' : World),
    main scan v classes dry_run w = (Ok 0%Z, w') ->
    exists outs,
      printed w' = printed w ++ outs
                   ++ [TotalCards (List.length (filter is_card_line outs))].
Proof.
  intros E v classes dry_run w w' H. unfold main in H.
  destruct (negb (vault_exists v)).
  - unfold bind, print, ret in H. apply pair_equal_spec in H as [H _]. discriminate.
  - unfold bind at 1 in H.
    destruct (collect_classes scan v classes w) as [[cs|e] w1] eqn:Hc;
      [|apply pair_equal_spec in H as [H _]; discriminate].
    unfold bind, print, ret in H. apply pair_equal_spec in H as [_ <-].
    destruct (collect_classes_scan _ _ _ _ _ Hc) as (outs & Hp & Hl).
    exists outs. cbn [printed]. rewrite Hp, Hl. now rewrite app_assoc.
Qed.

Lemma scan_total_matches_listing_witness :
  exists outs,
    printed (snd (@main ex_env scan (ex_vault_fs ex_two_cards) ex_classes false
                    ex_world))
    = printed ex_world ++ outs
      ++ [TotalCards (List.length (filter is_card_line outs))]
    /\ List.length (filter is_card_line outs) = 2%nat.
Proof.
  assert (H : @main ex_env scan (ex_vault_fs ex_two_cards) ex_classes false ex_world
              = (Ok 0%Z,
                 snd (@main ex_env scan (ex_vault_fs ex_two_cards) ex_classes false
                        ex_world)))
    by (vm_compute; reflexivity).
  destruct (scan_total_matches_listing ex_env (ex_vault_fs ex_two_cards) ex_classes
              false ex_world _ H) as (outs & Hp).
  exists outs. split; [exact Hp|].
  apply (f_equal (fun l => last l (TotalCards 0))) in Hp.
  cbn [printed ex_world app] in Hp. rewrite last_last in Hp.
  vm_compute in Hp. injection Hp as Hp. now symmetry.
Defined.

(** X23. A scan posts nothing and leaves the application as it was,
    whatever the files hold, and the preview flag makes no difference to
    it. *)
Theorem scan_is_read_only :
  forall (E : Environment) (v : Vault) (classes : list str) (dry_run : bool)
         (w : World),
    sent (snd (main scan v classes dry_run w)) = sent w
    /\ server (snd (main scan v classes dry_run w)) = server w
    /\ main scan v classes dry_run w = main scan v classes (negb dry_run) w.
Proof.
  intros E v classes dry_run w.
  destruct (main_scan_offline v classes dry_run) as (r & outs & H).
  rewrite H. cbn [snd sent server]. repeat split.
  rewrite <- H. reflexivity.
Qed.

(** X24. The exit status tells a missing vault: with no vault the run
    prints the error, touches nothing else and ends with status 2; with a
    vault it ends with status 0 unless an exception ends it. *)
Theorem exit_status_tells_missing_vault :
  forall (E : Environment) (cmd : Command) (v : Vault) (classes : list str)
         (dry_run : bool) (w : World),
    (vault_exists v = false ->
     main cmd v classes dry_run w
     = (Ok 2%Z, mkWorld (server w) (sent w)
                        (printed w ++ [ErrVaultNotFound (vault_path v)])))
    /\ (vault_exists v = true ->
        forall z, fst (main cmd v classes dry_run w) = Ok z -> z = 0%Z).
Proof.
  intros E cmd v classes dry_run w. unfold main. split; intros ->; cbn [negb].
  - reflexivity.
  - intros z. unfold bind at 1.
    destruct (collect_classes cmd v classes w) as [[cs|e] w1]; [|discriminate].
    unfold bind at 1. cbn [print]. destruct cmd.
    + unfold ret. cbn [fst]. intros H. apply Ok_inj in H. now subst.
    + unfold bind at 1.
      destruct (sync_cards cs dry_run _) as [[u|e] w2]; [|discriminate].
      unfold ret. cbn [fst]. intros H. apply Ok_inj in H. now subst.
Qed.

Lemma exit_status_tells_missing_vault_witness :
  fst (@main ex_env sync (mkVault ex_vault false (fun _ => None)) ex_classes false
         ex_world) = Ok 2%Z
  /\ fst (@main ex_env sync (ex_vault_fs ex_two_cards) ex_classes false ex_world)
     = Ok 0%Z.
Proof.
  split.
  - rewrite (proj1 (exit_status_tells_missing_vault ex_env sync
                      (mkVault ex_vault false (fun _ => None)) ex_classes false
                      ex_world) eq_refl).
    reflexivity.
  - vm_compute. reflexivity.
Defined.

(** X25. Nothing is posted before every file has been scanned: when the
    scan of any file raises, the run ends with that exception and has
    posted nothing, the cards of the files before it included. *)
Theorem scan_failure_posts_nothing :
  forall (E : Environment) (cmd : Command) (v : Vault) (classes : list str)
         (dry_run : bool) (w : World) (e : Exn),
    vault_exists v = true ->
    fst (collect_classes cmd v classes w) = Raise e ->
    fst (main cmd v classes dry_run w) = Raise e
    /\ sent (snd (main cmd v classes dry_run w)) = sent w
    /\ server (snd (main cmd v classes dry_run w)) = server w.
Proof.
  intros E cmd v classes dry_run w e Hv Hc.
  destruct (is_offline_collect_classes cmd v classes) as (r & outs & Hoff).
  rewrite Hoff in Hc. cbn [fst] in Hc. subst r.
  unfold main. rewrite Hv. cbn [negb]. unfold bind. rewrite Hoff.
  repeat split.
Qed.

Lemma scan_failure_posts_nothing_witness :
  fst (@main ex_env sync ex_vault_bad_name ex_classes false ex_world)
  = Raise UnicodeEncodeError
  /\ sent (snd (@main ex_env sync ex_vault_bad_name ex_classes false ex_world)) = [].
Proof.
  destruct (scan_failure_posts_nothing ex_env sync ex_vault_bad_name ex_classes
              false ex_world UnicodeEncodeError eq_refl)
    as (H1 & H2 & _).
  - vm_compute. reflexivity.
  - split; [exact H1|exact H2].
Defined.
